(** * Delta Chat core: armor splitting, group resolution, ingestion, wake lock

    A shallow embedding of the parts of [dc_pgp.c] and [mrmailbox.c] that
    decide how an armored block is split, how an incoming mail is mapped to
    a chat, which events the host receives for it, and how the wake lock
    counter drives its event.

    Conventions.
    - A C string is a [string] holding the bytes before the terminating NUL.
    - [uint32_t] identifiers and [time_t] stamps are [Z]; a conversion the
      source performs is written out ([to_uint32], [wrap_int]).
    - A nullable pointer is an [option].
    - A function that writes through out-parameters returns a record of the
      values written. *)

From Stdlib Require Import ZArith List String Ascii Bool Lia Arith DecimalString.
Import ListNotations.

Open Scope string_scope.

(** ** C library functions used by the sources *)

Module C.

Definition NUL : ascii := "000"%char.
Definition LF : ascii := "010"%char.
Definition CR : ascii := "013"%char.
Definition TAB : ascii := "009"%char.
Definition SPACE : ascii := " "%char.

(** The C string held by a buffer: the bytes before the first NUL. *)
Fixpoint c_str (buf : string) : string :=
  match buf with
  | EmptyString => EmptyString
  | String c r => if Ascii.eqb c NUL then EmptyString else String c (c_str r)
  end.

(** [isspace] in the C locale: space, and the controls 9 to 13. *)
Definition isspace (c : ascii) : bool :=
  let n := nat_of_ascii c in
  Nat.eqb n 32 || (Nat.leb 9 n && Nat.leb n 13).

(** [tolower] in the C locale. *)
Definition tolower (c : ascii) : ascii :=
  let n := nat_of_ascii c in
  if Nat.leb 65 n && Nat.leb n 90 then ascii_of_nat (n + 32) else c.

Fixpoint strlower (s : string) : string :=
  match s with
  | EmptyString => EmptyString
  | String c r => String (tolower c) (strlower r)
  end.

(** [strcasecmp(a, b) == 0]. *)
Definition strcasecmp_eq (a b : string) : bool :=
  String.eqb (strlower a) (strlower b).

(** [strcmp(a, b) == 0]. *)
Definition strcmp_eq (a b : string) : bool := String.eqb a b.

Definition strlen (s : string) : nat := String.length s.

(** [s + n]: the string that starts [n] bytes into [s]. *)
Fixpoint advance (n : nat) (s : string) : string :=
  match n, s with
  | O, _ => s
  | S n', String _ r => advance n' r
  | S _, EmptyString => EmptyString
  end.

(** [strchr(s, c)], as the text before the first [c] and the text after it. *)
Fixpoint strchr (s : string) (c : ascii) : option (string * string) :=
  match s with
  | EmptyString => None
  | String x r =>
      if Ascii.eqb x c then Some (EmptyString, r)
      else match strchr r c with
           | Some (b, a) => Some (String x b, a)
           | None => None
           end
  end.

Fixpoint mem_ascii (c : ascii) (set : string) : bool :=
  match set with
  | EmptyString => false
  | String x r => Ascii.eqb c x || mem_ascii c r
  end.

(** [strspn(s, accept) == strlen(s)]. *)
Fixpoint strspn_all (s accept : string) : bool :=
  match s with
  | EmptyString => true
  | String x r => mem_ascii x accept && strspn_all r accept
  end.

(** [strstr(hay, needle)], as the text before the first occurrence and the
    text from it on. *)
Fixpoint strstr (hay needle : string) : option (string * string) :=
  if String.prefix needle hay then Some (EmptyString, hay)
  else match hay with
       | EmptyString => None
       | String x r =>
           match strstr r needle with
           | Some (b, a) => Some (String x b, a)
           | None => None
           end
       end.

(** [strncmp(s, lit, strlen(lit)) == 0]: [lit] is a prefix of [s]. *)
Definition strncmp_prefix (s lit : string) : bool := String.prefix lit s.

(** [strncmp(&s[strlen(s)-n], lit, n) == 0] with [n = strlen(lit)]; the
    source makes sure that [s] is not shorter than [lit]. *)
Definition strncmp_suffix (s lit : string) : bool :=
  String.eqb (advance (strlen s - strlen lit) s) lit.

End C.

(** ** dc_pgp.c: splitting armored data *)

Module Armor.
Import C.

(** Modelled from the spec: [dc_remove_cr_chars] is a function of
    dc_tools.c, which is not under src/; the spec has the armor codec
    normalise its buffer "by removing carriage returns". *)
Fixpoint dc_remove_cr_chars (buf : string) : string :=
  match buf with
  | EmptyString => EmptyString
  | String c r =>
      if Ascii.eqb c CR then dc_remove_cr_chars r
      else String c (dc_remove_cr_chars r)
  end.

(** Modelled from the spec: [dc_trim] is a function of dc_tools.c, which is
    not under src/; it is taken to strip the white space ([isspace]) at both
    ends of the string, as the armor scenario of the spec needs. *)
Fixpoint dc_ltrim (s : string) : string :=
  match s with
  | EmptyString => EmptyString
  | String c r => if isspace c then dc_ltrim r else s
  end.

Fixpoint dc_rtrim (s : string) : string :=
  match s with
  | EmptyString => EmptyString
  | String c r =>
      let r' := dc_rtrim r in
      if isspace c && String.eqb r' EmptyString then EmptyString
      else String c r'
  end.

Definition dc_trim (s : string) : string := dc_rtrim (dc_ltrim s).

Definition PGP_WS : string :=
  String TAB (String CR (String LF (String SPACE EmptyString))).

(** The out-parameters of [dc_split_armored_data]. *)
Record slices := mkSlices {
  ret_headerline : option string;
  ret_setupcodebegin : option string;
  ret_preferencrypt : option string;
  ret_base64 : option string
}.

Definition no_slices : slices := mkSlices None None None None.

(** The test on a trimmed line that makes it the header line. *)
Definition is_headerline (line : string) : bool :=
  strncmp_prefix line "-----BEGIN " && strncmp_suffix line "-----".

(** An armor header [name: value]: only two names are surfaced. *)
Definition header_line (name value : string) (out : slices) : slices :=
  if strcasecmp_eq (dc_trim name) "Passphrase-Begin" then
    mkSlices (ret_headerline out) (Some (dc_trim value))
             (ret_preferencrypt out) (ret_base64 out)
  else if strcasecmp_eq (dc_trim name) "Autocrypt-Prefer-Encrypt" then
    mkSlices (ret_headerline out) (ret_setupcodebegin out)
             (Some (dc_trim value)) (ret_base64 out)
  else out.

(** The scanning loop over the buffer. [p1] is the text not yet read, [line] the bytes of
    the current line read so far ([line_chars] of them), [out] the slices
    written so far; [ret_headerline out] is the local [headerline]. The
    result carries the local [base64]: the text the body starts at. *)
Fixpoint scan (p1 : string) (line : string) (out : slices)
  : slices * option string :=
  match p1 with
  | EmptyString => (out, None)
  | String c rest =>
      if Ascii.eqb c LF then
        match ret_headerline out with
        | None =>
            let l := dc_trim line in
            if is_headerline l then
              scan rest EmptyString
                   (mkSlices (Some l) (ret_setupcodebegin out)
                             (ret_preferencrypt out) (ret_base64 out))
            else scan rest EmptyString out
        | Some _ =>
            if strspn_all line PGP_WS then (out, Some rest)
            else match strchr line ":"%char with
                 | None => (out, Some (line ++ String LF rest))
                 | Some (name, value) =>
                     scan rest EmptyString (header_line name value out)
                 end
        end
      else scan rest (line ++ String c EmptyString) out
  end.

(** [dc_split_armored_data]: [buf] is the buffer ([None] for a NULL pointer),
    [want_headerline] tells that [ret_headerline] is not NULL. The three other
    out-pointers are taken as given. The result is [success] and the slices
    written. *)
Definition dc_split_armored_data (buf : option string) (want_headerline : bool)
  : bool * slices :=
  match buf with
  | None => (false, no_slices)
  | Some b =>
      if negb want_headerline then (false, no_slices)
      else
        let '(out, base64) := scan (dc_remove_cr_chars (c_str b)) EmptyString no_slices in
        match ret_headerline out, base64 with
        | Some headerline, Some base64 =>
            match strstr base64 "-----END " with
            | None => (false, out)
            | Some (body, p1) =>
                if negb (strncmp_prefix (advance 9 p1) (advance 11 headerline))
                then (false, out)
                else (true, mkSlices (ret_headerline out) (ret_setupcodebegin out)
                                     (ret_preferencrypt out) (Some (dc_trim body)))
            end
        | _, _ => (false, out)
        end
  end.

(** *** The armored block, read line by line

    What the claim calls a valid BEGIN/END pair, written on the lines of the
    text rather than on the scanning loop; the theorems relate the two. *)

(** The complete lines of a text (each was ended by a line feed) and the
    unterminated rest. *)
Fixpoint split_lines (s : string) : list string * string :=
  match s with
  | EmptyString => ([], EmptyString)
  | String c r =>
      let '(ls, tail) := split_lines r in
      if Ascii.eqb c LF then (EmptyString :: ls, tail)
      else match ls with
           | [] => ([], String c tail)
           | l :: ls' => (String c l :: ls', tail)
           end
  end.

Fixpoint unlines (ls : list string) (tail : string) : string :=
  match ls with
  | [] => tail
  | l :: ls' => l ++ String LF (unlines ls' tail)
  end.

(** The first line that is a [-----BEGIN X-----] line once trimmed, with the
    lines after it. *)
Fixpoint find_begin (ls : list string) : option (string * list string) :=
  match ls with
  | [] => None
  | l :: r =>
      if is_headerline (dc_trim l) then Some (dc_trim l, r) else find_begin r
  end.

(** The text the body starts at: after the first blank line, or at the first
    line that has no colon. *)
Fixpoint find_body (ls : list string) (tail : string) : option string :=
  match ls with
  | [] => None
  | l :: r =>
      if strspn_all l PGP_WS then Some (unlines r tail)
      else match strchr l ":"%char with
           | None => Some (unlines ls tail)
           | Some _ => find_body r tail
           end
  end.

Inductive armor_view :=
| NoBegin
| NoBody (headerline : string)
| NoEnd (headerline : string)
| TagMismatch (headerline : string)
| Block (headerline : string) (body : string).

Definition view (text : string) : armor_view :=
  let '(ls, tail) := split_lines text in
  match find_begin ls with
  | None => NoBegin
  | Some (h, after) =>
      match find_body after tail with
      | None => NoBody h
      | Some from_body =>
          match strstr from_body "-----END " with
          | None => NoEnd h
          | Some (body, p1) =>
              if String.prefix (advance 11 h) (advance 9 p1) then Block h body
              else TagMismatch h
          end
      end
  end.

(** The loop on lines: what [scan] does once the text is cut into lines. *)
Fixpoint walk (ls : list string) (tail : string) (out : slices)
  : slices * option string :=
  match ls with
  | [] => (out, None)
  | l :: ls' =>
      match ret_headerline out with
      | None =>
          if is_headerline (dc_trim l) then
            walk ls' tail (mkSlices (Some (dc_trim l)) (ret_setupcodebegin out)
                                    (ret_preferencrypt out) (ret_base64 out))
          else walk ls' tail out
      | Some _ =>
          if strspn_all l PGP_WS then (out, Some (unlines ls' tail))
          else match strchr l ":"%char with
               | None => (out, Some (unlines ls tail))
               | Some (name, value) => walk ls' tail (header_line name value out)
               end
      end
  end.

(** *** The armored block, in the words of the claim

    The parts of a text that make a valid BEGIN/END pair, said of the lines
    of the text and without the tests of the scanning loop. *)

Definition begin_line (tag : string) : string := "-----BEGIN " ++ tag ++ "-----".

(** A line of white space only. *)
Definition blank (l : string) : Prop :=
  forall c, mem_ascii c l = true -> mem_ascii c PGP_WS = true.

(** A line with a colon: an armor header [name: value]. *)
Definition has_colon (l : string) : Prop :=
  exists name value, l = name ++ String ":"%char value.

(** The first of the complete lines that reads [-----BEGIN tag-----] once
    trimmed: its tag and the lines after it. *)
Inductive begin_at : list string -> string -> list string -> Prop :=
| Begin_here l ls tag :
    dc_trim l = begin_line tag -> begin_at (l :: ls) tag ls
| Begin_later l ls tag after :
    (forall t, dc_trim l <> begin_line t) ->
    begin_at ls tag after -> begin_at (l :: ls) tag after.

(** Where the body starts in the lines after the BEGIN line: behind the
    first blank line, or with the first line that has no colon; the header
    lines before it are passed over. [tail] is the text behind the last
    complete line. *)
Inductive body_at : list string -> string -> string -> Prop :=
| Body_after_blank l ls tail :
    blank l -> body_at (l :: ls) tail (unlines ls tail)
| Body_with_line l ls tail :
    ~ blank l -> ~ has_colon l -> body_at (l :: ls) tail (unlines (l :: ls) tail)
| Body_after_header l ls tail from :
    ~ blank l -> has_colon l -> body_at ls tail from -> body_at (l :: ls) tail from.

(** The first [-----END ] of a text: the text before it and the text behind
    it. *)
Definition end_at (from body rest : string) : Prop :=
  from = body ++ "-----END " ++ rest /\
  forall b r, from = b ++ "-----END " ++ r -> (strlen body <= strlen b)%nat.

(** The END line closes the block of the tag: behind [-----END ] come the
    tag and five dashes. *)
Definition closes (tag rest : string) : Prop :=
  exists more, rest = tag ++ "-----" ++ more.

(** The failure condition as the claim words it: no valid pair, or the tags
    differ, or the base64 body would be empty; that is, the text has no pair
    with the same tag and a body that is not empty. *)
Definition claimed_failure (text : string) : Prop :=
  forall tag after from body rest,
    begin_at (fst (split_lines text)) tag after ->
    body_at after (snd (split_lines text)) from ->
    end_at from body rest -> closes tag rest ->
    dc_trim body = EmptyString.

(** The text the function works on. *)
Definition normalised (buf : string) : string := dc_remove_cr_chars (c_str buf).

Definition empty_block : string :=
  "-----BEGIN X-----" ++ String LF (String LF ("-----END X-----" ++ String LF EmptyString)).

(** A BEGIN line and an END line of the same tag with nothing in between, and
    no line feed behind the END line. *)
Definition bare_pair : string :=
  "-----BEGIN X-----" ++ String LF "-----END X-----".

Definition scenario_block : string :=
  String.concat (String LF EmptyString)
    ["-----BEGIN PGP MESSAGE-----"; "Version: 1";
     "Autocrypt-Prefer-Encrypt: mutual"; EmptyString; "AAAA";
     "-----END PGP MESSAGE-----"; EmptyString].

(** *** A well-formed block

    The shape of an armored block after RFC 4880, section 6.2, with the two
    headers the function surfaces: the input of the statement that the
    function reads back what such a block was made of. *)

Definition end_line (tag : string) : string := "-----END " ++ tag ++ "-----".

(** The header [name: value] in front of [rest], if there is a value. *)
Definition armor_header (name : string) (value : option string) (rest : string)
  : string :=
  match value with
  | Some v => (name ++ ": " ++ v) ++ String LF rest
  | None => rest
  end.

Definition armor_text (tag : string) (setupcode prefer : option string)
  (body : string) : string :=
  begin_line tag ++
  String LF
    (armor_header "Passphrase-Begin" setupcode
       (armor_header "Autocrypt-Prefer-Encrypt" prefer
          (String LF (body ++ String LF (end_line tag ++ String LF EmptyString))))).

(** A text that fits on one line of the buffer: no NUL, no CR, no LF. *)
Definition one_line (s : string) : bool :=
  negb (mem_ascii NUL s) && negb (mem_ascii CR s) && negb (mem_ascii LF s).

(** A header value: one line, with no white space at its ends. *)
Definition header_value (value : option string) : bool :=
  match value with
  | Some v => one_line v && String.eqb (dc_trim v) v
  | None => true
  end.

(** A body: no NUL, no CR, no white space at its ends, no END marker. *)
Definition armor_body (body : string) : bool :=
  negb (mem_ascii NUL body) && negb (mem_ascii CR body)
  && String.eqb (dc_trim body) body
  && match strstr body "-----END " with None => true | Some _ => false end.

End Armor.

(** ** mrmailbox.c: the mailbox, its store and the parsed mail *)

Module Mr.
Import C.

Open Scope Z_scope.

(** *** Integer conversions *)

Definition to_uint32 (z : Z) : Z := z mod 2 ^ 32.

(** An [int] after an increment or decrement, as two's complement. *)
Definition wrap_int (z : Z) : Z := (z + 2 ^ 31) mod 2 ^ 32 - 2 ^ 31.

Definition int_range (z : Z) : Prop := - 2 ^ 31 <= z < 2 ^ 31.

(** [atol]: white space, an optional sign, decimal digits. *)
Fixpoint atol_digits (s : string) (acc : Z) : Z :=
  match s with
  | EmptyString => acc
  | String c r =>
      let n := nat_of_ascii c in
      if (Nat.leb 48 n && Nat.leb n 57)%bool
      then atol_digits r (10 * acc + Z.of_nat (n - 48))
      else acc
  end.

Fixpoint atol (s : string) : Z :=
  match s with
  | EmptyString => 0
  | String c r =>
      if isspace c then atol r
      else if Ascii.eqb c "-"%char then - atol_digits r 0
      else if Ascii.eqb c "+"%char then atol_digits r 0
      else atol_digits s 0
  end.

(** *** Enumerations of the headers *)

(** Event codes the functions of this file hand to the callback. A local of
    type [int] that holds an event code or 0 is an [option event_code]. *)
Inductive event_code :=
| MR_EVENT_MSGS_CHANGED
| MR_EVENT_INCOMING_MSG
| MR_EVENT_MSG_READ
| MR_EVENT_CHAT_MODIFIED
| MR_EVENT_WAKE_LOCK.

Inductive msg_state :=
| MR_STATE_UNDEFINED
| MR_IN_FRESH
| MR_IN_SEEN
| MR_OUT_PENDING
| MR_OUT_DELIVERED
| MR_OUT_READ
| MR_OUT_ERROR.

Inductive chat_type := MR_CHAT_NORMAL | MR_CHAT_GROUP.

Inductive msg_type := MR_MSG_TEXT | MR_MSG_IMAGE | MR_MSG_VIDEO | MR_MSG_OTHER (code : Z).

Definition event_code_eqb (a b : event_code) : bool :=
  match a, b with
  | MR_EVENT_MSGS_CHANGED, MR_EVENT_MSGS_CHANGED
  | MR_EVENT_INCOMING_MSG, MR_EVENT_INCOMING_MSG
  | MR_EVENT_MSG_READ, MR_EVENT_MSG_READ
  | MR_EVENT_CHAT_MODIFIED, MR_EVENT_CHAT_MODIFIED
  | MR_EVENT_WAKE_LOCK, MR_EVENT_WAKE_LOCK => true
  | _, _ => false
  end.

Definition msg_state_eqb (a b : msg_state) : bool :=
  match a, b with
  | MR_STATE_UNDEFINED, MR_STATE_UNDEFINED
  | MR_IN_FRESH, MR_IN_FRESH
  | MR_IN_SEEN, MR_IN_SEEN
  | MR_OUT_PENDING, MR_OUT_PENDING
  | MR_OUT_DELIVERED, MR_OUT_DELIVERED
  | MR_OUT_READ, MR_OUT_READ
  | MR_OUT_ERROR, MR_OUT_ERROR => true
  | _, _ => false
  end.

Definition is_text (t : msg_type) : bool :=
  match t with MR_MSG_TEXT => true | _ => false end.

(** The spec fixes these two. *)
Definition MR_CONTACT_ID_SELF : Z := 1.
Definition MR_VALID_ID_LEN : nat := 11.
(** Modelled from the spec: [MR_MDNS_DEFAULT_ENABLED] is a macro of a header
    that is not under src/; the spec gives [mdns_enabled] the default 1. *)
Definition MR_MDNS_DEFAULT_ENABLED : Z := 1.

(** What the sources take from headers and files that are not under src/:
    the reserved identifiers, the flag bit, the origin ranks, and the string
    functions of mrtools.c and mrmsg.c. They are parameters of the model. *)
Class Externals := {
  MR_CONTACT_ID_LAST_SPECIAL : Z;
  MR_CHAT_ID_DEADDROP : Z;
  MR_CHAT_ID_TO_DEADDROP : Z;
  MR_CHAT_ID_TRASH : Z;
  MR_CHAT_ID_LAST_SPECIAL : Z;
  MR_IMAP_SEEN : Z;
  MR_INVALID_TIMESTAMP : Z;
  MR_MAX_SECONDS_TO_LEND_FROM_FUTURE : Z;
  MR_ORIGIN_INCOMING_UNKNOWN_FROM : Z;
  MR_ORIGIN_INCOMING_CC : Z;
  MR_ORIGIN_INCOMING_TO : Z;
  MR_ORIGIN_INCOMING_REPLY_TO : Z;
  MR_ORIGIN_OUTGOING_BCC : Z;
  MR_ORIGIN_OUTGOING_CC : Z;
  MR_ORIGIN_OUTGOING_TO : Z;
  mr_decode_header_string : string -> string;
  mr_normalize_name : string -> string;
  mr_create_incoming_rfc724_mid : Z -> Z -> list Z -> option string;
  mrmsg_get_summarytext_by_raw : msg_type -> option string -> string -> string;
  mr_ghost_rfc724_mid : Z -> string;
  mr_ghost_param : Z -> string;
  (** The reserved chat ids are ids: none is negative. *)
  MR_CHAT_ID_LAST_SPECIAL_nonneg : 0 <= MR_CHAT_ID_LAST_SPECIAL
}.

(** *** The tables of the store *)

Record contact := mkContact {
  c_id : Z;
  c_name : string;
  c_addr : string;
  c_origin : Z;
  c_blocked : bool
}.

Record chat := mkChat {
  ch_id : Z;
  ch_type : chat_type;
  ch_name : string;
  ch_grpid : option string
}.

Record msg := mkMsg {
  msg_id : Z;
  msg_rfc724_mid : string;
  msg_server_folder : string;
  msg_server_uid : Z;
  msg_chat_id : Z;
  msg_from_id : Z;
  msg_to_id : Z;
  msg_timestamp : Z;
  msg_type_ : msg_type;
  msg_state_ : msg_state;
  msg_msgrmsg : bool;
  msg_txt : string;
  msg_txt_raw : string;
  msg_param : string;
  msg_bytes : Z
}.

(** The rows of the store, and what the steps of its INSERT statements will
    return: [io_script] lists the results of the steps to come, the next one
    first, [true] for an error instead of [SQLITE_DONE]; the steps past the
    end of the script return [SQLITE_DONE]. *)
Record sqlite3 := mkSql {
  config : list (string * string);
  contacts : list contact;
  chats : list chat;
  chats_contacts : list (Z * Z);
  msgs : list msg;
  leftgrps : list string;
  io_script : list bool
}.

(** The store is failing: one of the INSERT steps to come returns an error. *)
Definition io_error (sql : sqlite3) : bool := existsb (fun failed => failed) (io_script sql).

(** [sqlite3_step] on an INSERT statement: nothing when it returns an error,
    else the store with the script moved on. *)
Definition insert_step (sql : sqlite3) : option sqlite3 :=
  match io_script sql with
  | true :: _ => None
  | false :: later =>
      Some (mkSql (config sql) (contacts sql) (chats sql) (chats_contacts sql)
                  (msgs sql) (leftgrps sql) later)
  | [] => Some sql
  end.

(** What reaches the outside of a function: a call of the callback [m_cb],
    and the lock and transaction calls of the store. *)
Inductive effect :=
| Cb (ev : event_code) (data1 data2 : Z)
| Lock
| Unlock
| Begin
| Commit
| Rollback.

(** [mrmailbox_t], with the process-wide clock state: [time_now] is what
    [time(NULL)] returns, [s_last_smeared_timestamp] the static of
    mrtools.c. [m_saved] holds the rows as they were when the pending
    transaction began. [m_trace] lists the effects, oldest first. *)
Record mrmailbox_t := mkMailbox {
  m_sql : sqlite3;
  m_saved : option sqlite3;
  m_wake_lock : Z;
  time_now : Z;
  s_last_smeared_timestamp : Z;
  m_trace : list effect
}.

Definition set_sql (ths : mrmailbox_t) (sql : sqlite3) : mrmailbox_t :=
  mkMailbox sql (m_saved ths) (m_wake_lock ths) (time_now ths)
            (s_last_smeared_timestamp ths) (m_trace ths).

Definition emit (ths : mrmailbox_t) (e : effect) : mrmailbox_t :=
  mkMailbox (m_sql ths) (m_saved ths) (m_wake_lock ths) (time_now ths)
            (s_last_smeared_timestamp ths) (m_trace ths ++ [e]).

(** [ths->m_cb(ths, ev, data1, data2)]. *)
Definition m_cb (ths : mrmailbox_t) (ev : event_code) (data1 data2 : Z)
  : mrmailbox_t := emit ths (Cb ev data1 data2).

(** *** The persistence functions

    mrsqlite3.c, mrchat.c, mrcontact.c, mrmsg.c and mrtools.c are not under
    src/. Each function of theirs that mrmailbox.c calls is modelled on the
    rows, from the operation the spec lists for it in its persistence
    interface and from the schema the spec gives. *)

Section Store.
Context {X : Externals}.

Definition set_contacts (sql : sqlite3) (v : list contact) : sqlite3 :=
  mkSql (config sql) v (chats sql) (chats_contacts sql) (msgs sql)
        (leftgrps sql) (io_script sql).

Definition set_chats (sql : sqlite3) (v : list chat) : sqlite3 :=
  mkSql (config sql) (contacts sql) v (chats_contacts sql) (msgs sql)
        (leftgrps sql) (io_script sql).

Definition set_chats_contacts (sql : sqlite3) (v : list (Z * Z)) : sqlite3 :=
  mkSql (config sql) (contacts sql) (chats sql) v (msgs sql)
        (leftgrps sql) (io_script sql).

Definition set_msgs (sql : sqlite3) (v : list msg) : sqlite3 :=
  mkSql (config sql) (contacts sql) (chats sql) (chats_contacts sql) v
        (leftgrps sql) (io_script sql).

(** The rowid an INSERT gives a new row: one more than the largest in use. *)
Definition next_rowid (ids : list Z) : Z := 1 + fold_right Z.max 0 ids.

(** Modelled from the spec: [mrsqlite3_lock], [mrsqlite3_unlock] and the
    transaction calls of mrsqlite3.c (not under src/). The lock is recorded
    in the trace; a rollback puts the rows back as they were at the begin. *)
Definition mrsqlite3_lock (ths : mrmailbox_t) : mrmailbox_t := emit ths Lock.

Definition mrsqlite3_unlock (ths : mrmailbox_t) : mrmailbox_t := emit ths Unlock.

Definition mrsqlite3_begin_transaction__ (ths : mrmailbox_t) : mrmailbox_t :=
  mkMailbox (m_sql ths) (Some (m_sql ths)) (m_wake_lock ths) (time_now ths)
            (s_last_smeared_timestamp ths) (m_trace ths ++ [Begin]).

Definition mrsqlite3_commit__ (ths : mrmailbox_t) : mrmailbox_t :=
  mkMailbox (m_sql ths) None (m_wake_lock ths) (time_now ths)
            (s_last_smeared_timestamp ths) (m_trace ths ++ [Commit]).

Definition mrsqlite3_rollback__ (ths : mrmailbox_t) : mrmailbox_t :=
  mkMailbox (match m_saved ths with Some old => old | None => m_sql ths end)
            None (m_wake_lock ths) (time_now ths)
            (s_last_smeared_timestamp ths) (m_trace ths ++ [Rollback]).

(** Modelled from the spec: [mrsqlite3_get_config__] and
    [mrsqlite3_get_config_int__] of mrsqlite3.c (not under src/): the
    persistent string map [config], the integer variant coercing the string. *)
Definition mrsqlite3_get_config__ (sql : sqlite3) (key : string)
  (def : option string) : option string :=
  match find (fun kv => String.eqb (fst kv) key) (config sql) with
  | Some kv => Some (snd kv)
  | None => def
  end.

Definition mrsqlite3_get_config_int__ (sql : sqlite3) (key : string) (def : Z) : Z :=
  match mrsqlite3_get_config__ sql key None with
  | Some v => atol v
  | None => def
  end.

(** Modelled from the spec: [is_contact_in_chat] of mrchat.c (not under src/). *)
Definition mrmailbox_is_contact_in_chat__ (sql : sqlite3) (chat_id contact_id : Z) : bool :=
  existsb (fun r => (fst r =? chat_id) && (snd r =? contact_id))%bool
          (chats_contacts sql).

(** Modelled from the spec: [group_is_explicitly_left] of mrchat.c (not under
    src/): the group id is in [leftgrps]. *)
Definition mrmailbox_group_explicitly_left__ (sql : sqlite3) (grpid : string) : bool :=
  existsb (String.eqb grpid) (leftgrps sql).

(** Modelled from the spec: [add_contact_to_chat] of mrchat.c (not under
    src/); [chats_contacts] holds a pair once. *)
Definition mrmailbox_add_contact_to_chat__ (sql : sqlite3) (chat_id contact_id : Z) : sqlite3 :=
  if mrmailbox_is_contact_in_chat__ sql chat_id contact_id then sql
  else set_chats_contacts sql (chats_contacts sql ++ [(chat_id, contact_id)]).

Definition find_contact (sql : sqlite3) (contact_id : Z) : option contact :=
  find (fun c => c_id c =? contact_id) (contacts sql).

(** Modelled from the spec: [contact_addr_equals] of mrcontact.c (not under
    src/); addresses compare without case, as everywhere in the sources. *)
Definition mrmailbox_contact_addr_equals__ (sql : sqlite3) (contact_id : Z)
  (other_addr : string) : bool :=
  match find_contact sql contact_id with
  | Some c => strcasecmp_eq (c_addr c) other_addr
  | None => false
  end.

(** Modelled from the spec: [chat_contact_count] of mrchat.c (not under src/). *)
Definition mrmailbox_get_chat_contact_count__ (sql : sqlite3) (chat_id : Z) : Z :=
  Z.of_nat (List.length (filter (fun r => fst r =? chat_id) (chats_contacts sql))).

(** Modelled from the spec: [add_or_lookup_contact] of mrcontact.c (not under
    src/): a new contact enters at the origin of discovery, the origin of an
    existing one is raised and never lowered; the address is kept in lower
    case. *)
Definition mrmailbox_add_or_lookup_contact__ (sql : sqlite3) (name : option string)
  (addr : string) (origin : Z) : sqlite3 * Z :=
  match find (fun c => strcasecmp_eq (c_addr c) addr) (contacts sql) with
  | Some c =>
      (set_contacts sql
         (map (fun c' => if c_id c' =? c_id c
                         then mkContact (c_id c') (c_name c') (c_addr c')
                                        (Z.max (c_origin c') origin) (c_blocked c')
                         else c') (contacts sql)),
       c_id c)
  | None =>
      let id := next_rowid (map c_id (contacts sql)) in
      (set_contacts sql
         (contacts sql ++
          [mkContact id (match name with Some n => n | None => EmptyString end)
                     (strlower addr) origin false]),
       id)
  end.

(** Modelled from the spec: [is_known_contact] of mrcontact.c (not under
    src/), returning (known, blocked). A contact is known when it is not
    blocked and entered by more than an unknown From. *)
Definition mrmailbox_is_known_contact__ (sql : sqlite3) (contact_id : Z) : bool * bool :=
  match find_contact sql contact_id with
  | Some c =>
      (negb (c_blocked c) && (MR_ORIGIN_INCOMING_UNKNOWN_FROM <? c_origin c),
       c_blocked c)%bool
  | None => (false, false)
  end.

(** Modelled from the spec: the blocked flag of a contact (mrcontact.c, not
    under src/). *)
Definition mrmailbox_is_contact_blocked__ (sql : sqlite3) (contact_id : Z) : bool :=
  match find_contact sql contact_id with
  | Some c => c_blocked c
  | None => false
  end.

(** Modelled from the spec: [origin] is upgraded, never downgraded
    ([mrmailbox_scaleup_contact_origin__] of mrcontact.c, not under src/). *)
Definition mrmailbox_scaleup_contact_origin__ (sql : sqlite3) (contact_id origin : Z) : sqlite3 :=
  set_contacts sql
    (map (fun c => if c_id c =? contact_id
                   then mkContact (c_id c) (c_name c) (c_addr c)
                                  (Z.max (c_origin c) origin) (c_blocked c)
                   else c) (contacts sql)).

(** Modelled from the spec: [lookup_real_nchat_by_contact_id] of mrchat.c (not
    under src/): the single chat above the reserved ids that holds the
    contact, or 0. *)
Definition mrmailbox_lookup_real_nchat_by_contact_id__ (sql : sqlite3) (contact_id : Z) : Z :=
  match find (fun c => match ch_type c with
                       | MR_CHAT_NORMAL =>
                           (MR_CHAT_ID_LAST_SPECIAL <? ch_id c) &&
                           mrmailbox_is_contact_in_chat__ sql (ch_id c) contact_id
                       | MR_CHAT_GROUP => false
                       end)%bool (chats sql) with
  | Some c => ch_id c
  | None => 0
  end.

(** Modelled from the spec: [create_or_lookup_nchat_by_contact_id] of mrchat.c
    (not under src/): the chat found by the lookup, or a new single chat with
    the contact as its member, named after the contact. *)
Definition mrmailbox_create_or_lookup_nchat_by_contact_id__ (sql : sqlite3)
  (contact_id : Z) : sqlite3 * Z :=
  let found := mrmailbox_lookup_real_nchat_by_contact_id__ sql contact_id in
  if negb (found =? 0) then (sql, found)
  else
    let id := next_rowid (map ch_id (chats sql)) in
    let name := match find_contact sql contact_id with
                | Some c => if String.eqb (c_name c) EmptyString then c_addr c else c_name c
                | None => EmptyString
                end in
    (set_chats_contacts
       (set_chats sql (chats sql ++ [mkChat id MR_CHAT_NORMAL name None]))
       (chats_contacts sql ++ [(id, contact_id)]),
     id).

(** Modelled from the spec: [rfc724_mid_exists] of mrmsg.c (not under src/):
    the folder and uid stored with the Message-ID, if a row has it. *)
Definition mrmailbox_rfc724_mid_exists__ (sql : sqlite3) (rfc724_mid : string)
  : option (string * Z) :=
  match find (fun m => String.eqb (msg_rfc724_mid m) rfc724_mid) (msgs sql) with
  | Some m => Some (msg_server_folder m, msg_server_uid m)
  | None => None
  end.

Definition with_server_uid (m : msg) (folder : string) (uid : Z) : msg :=
  mkMsg (msg_id m) (msg_rfc724_mid m) folder uid (msg_chat_id m) (msg_from_id m)
        (msg_to_id m) (msg_timestamp m) (msg_type_ m) (msg_state_ m)
        (msg_msgrmsg m) (msg_txt m) (msg_txt_raw m) (msg_param m) (msg_bytes m).

Definition with_state (m : msg) (st : msg_state) : msg :=
  mkMsg (msg_id m) (msg_rfc724_mid m) (msg_server_folder m) (msg_server_uid m)
        (msg_chat_id m) (msg_from_id m) (msg_to_id m) (msg_timestamp m)
        (msg_type_ m) st (msg_msgrmsg m) (msg_txt m) (msg_txt_raw m)
        (msg_param m) (msg_bytes m).

(** Modelled from the spec: [update_server_uid] of mrmsg.c (not under src/). *)
Definition mrmailbox_update_server_uid__ (sql : sqlite3) (rfc724_mid : string)
  (server_folder : string) (server_uid : Z) : sqlite3 :=
  set_msgs sql
    (map (fun m => if String.eqb (msg_rfc724_mid m) rfc724_mid
                   then with_server_uid m server_folder server_uid else m)
         (msgs sql)).

(** Modelled from the spec: [mdn_from_ext] of mrmsg.c (not under src/): the
    message sent by the user under this Message-ID and not yet read becomes
    [MR_OUT_READ]; its chat and id are returned. *)
Definition mdn_target (rfc724_mid : string) (m : msg) : bool :=
  (String.eqb (msg_rfc724_mid m) rfc724_mid &&
   (msg_from_id m =? MR_CONTACT_ID_SELF) &&
   (msg_state_eqb (msg_state_ m) MR_OUT_PENDING ||
    msg_state_eqb (msg_state_ m) MR_OUT_DELIVERED))%bool.

Definition mrmailbox_mdn_from_ext__ (sql : sqlite3) (from_id : Z) (rfc724_mid : string)
  : sqlite3 * option (Z * Z) :=
  match find (mdn_target rfc724_mid) (msgs sql) with
  | Some t =>
      (set_msgs sql
         (map (fun m => if msg_id m =? msg_id t then with_state m MR_OUT_READ else m)
              (msgs sql)),
       Some (msg_chat_id t, msg_id t))
  | None => (sql, None)
  end.

(** Modelled from the spec: the smeared time of mrtools.c (not under src/).
    The current smeared time is the clock, or one past the last stamp handed
    out when the clock has not passed it; a new stamp is the clock, or one
    past the last stamp, lending a bounded number of seconds from the
    future. *)
Definition mr_smeared_time__ (ths : mrmailbox_t) : Z :=
  if time_now ths <=? s_last_smeared_timestamp ths
  then s_last_smeared_timestamp ths + 1
  else time_now ths.

Definition mr_create_smeared_timestamp__ (ths : mrmailbox_t) : mrmailbox_t * Z :=
  let now := time_now ths in
  let ret :=
    if now <=? s_last_smeared_timestamp ths then
      let r := s_last_smeared_timestamp ths + 1 in
      if MR_MAX_SECONDS_TO_LEND_FROM_FUTURE <? r - now
      then now + MR_MAX_SECONDS_TO_LEND_FROM_FUTURE else r
    else now in
  (mkMailbox (m_sql ths) (m_saved ths) (m_wake_lock ths) (time_now ths) ret
             (m_trace ths), ret).

End Store.

(** *** The parsed mail

    The structures of libetpan as [mrmimeparser_parse] leaves them. A field
    carries what the sources read of it. The date of [Date:] is carried as
    the stamp [mr_timestamp_from_date] makes of it. *)

Record mailimf_optional_field := mkOptional {
  fld_name : option string;
  fld_value : option string
}.

Record mailimf_mailbox := mkMb {
  mb_display_name : option string;
  mb_addr_spec : string
}.

Inductive mailimf_address :=
| MAILIMF_ADDRESS_MAILBOX (ad_mailbox : option mailimf_mailbox)
| MAILIMF_ADDRESS_GROUP (ad_group : option (option (list (option mailimf_mailbox)))).

Inductive mailimf_field :=
| MAILIMF_FIELD_RETURN_PATH
| MAILIMF_FIELD_ORIG_DATE (fld_orig_date : option Z)
| MAILIMF_FIELD_FROM (fld_from : option (list (option mailimf_mailbox)))
| MAILIMF_FIELD_TO (fld_to : option (list (option mailimf_address)))
| MAILIMF_FIELD_CC (fld_cc : option (list (option mailimf_address)))
| MAILIMF_FIELD_BCC (fld_bcc : option (list (option mailimf_address)))
| MAILIMF_FIELD_MESSAGE_ID (fld_message_id : option (option string))
| MAILIMF_FIELD_IN_REPLY_TO (fld_in_reply_to : option (option (list (option string))))
| MAILIMF_FIELD_REFERENCES (fld_references : option (option (list (option string))))
| MAILIMF_FIELD_OPTIONAL_FIELD (fld_optional_field : option mailimf_optional_field)
| MAILIMF_FIELD_OTHER.

Record mrmimepart_t := mkPart {
  m_type : msg_type;
  m_msg : option string;
  m_msg_raw : string;
  m_param_packed : string;
  m_bytes : Z
}.

(** A [multipart/report] part of the mail. [report_type] is the value of its
    [report-type] parameter; [mm_mp_list] lists its sub-parts. Of a sub-part
    the content type is kept, and in [mdn_original_message_id] what the chain
    transfer-decode, parse, find [Disposition] and [Original-Message-ID],
    parse the id yields: the Message-ID, or nothing when a link fails. *)
Record report_part := mkReportPart {
  ct_is_composite_message : bool;
  ct_subtype : string;
  mdn_original_message_id : option string
}.

Record mailmime_report := mkReport {
  report_type : option string;
  mm_mp_list : list (option report_part)
}.

Record mrmimeparser_t := mkParser {
  m_header : option (list (option mailimf_field));
  m_parts : list mrmimepart_t;
  m_reports : list (option mailmime_report);
  m_is_send_by_messenger : bool;
  m_subject : option string
}.

Definition fld_list (mime_parser : mrmimeparser_t) : list (option mailimf_field) :=
  match m_header mime_parser with Some l => l | None => [] end.

(** *** Handle groups *)

Section Groups.
Context {X : Externals}.

Definition char_at (s : string) (i : nat) : ascii :=
  match String.get i s with Some c => c | None => NUL end.

(** [extract_grpid_from_messageid]: the group id of a Message-ID such as
    [Gr.12345678901.morerandom.user@domain.de]. *)
Definition extract_grpid_from_messageid (mid : option string) : option string :=
  match mid with
  | None => None
  | Some mid =>
      if (Nat.ltb (strlen mid) 8
          || negb (Ascii.eqb (char_at mid 0) "G")
          || negb (Ascii.eqb (char_at mid 1) "r")
          || negb (Ascii.eqb (char_at mid 2) "."))%bool
      then None
      else
        let ret := advance 3 mid in
        match strchr ret "."%char with
        | None => None
        | Some (ret, _) =>
            if negb (Nat.eqb (strlen ret) MR_VALID_ID_LEN) then None
            else Some ret
        end
  end.

Fixpoint first_grpid (l : list (option string)) : option string :=
  match l with
  | [] => None
  | mid :: cur =>
      match extract_grpid_from_messageid mid with
      | Some grpid => Some grpid
      | None => first_grpid cur
      end
  end.

(** [get_first_grpid_from_char_clist]. *)
Definition get_first_grpid_from_char_clist (list : option (list (option string)))
  : option string :=
  match list with
  | Some l => first_grpid l
  | None => None
  end.

(** The locals the header walk of [lookup_group_by_grpid__] fills. *)
Record grp_locals := mkGrp {
  grpid1 : option string;
  grpid2 : option string;
  grpid3 : option string;
  grpid4 : option string;
  grpname : option string;
  X_MrRemoveFromGrp : option string;
  X_MrAddToGrp : option string;
  X_MrGrpNameChanged : bool
}.

Definition grp_locals_init : grp_locals :=
  mkGrp None None None None None None None false.

(** [safe_strdup] of mrtools.c: a copy, the empty string for NULL. *)
Definition safe_strdup (s : option string) : string :=
  match s with Some v => v | None => EmptyString end.

Definition name_is (name : string) (a b : string) : bool :=
  (strcasecmp_eq name a || strcasecmp_eq name b)%bool.

(** One round of the walk over the header fields. *)
Definition grp_field (g : grp_locals) (field : option mailimf_field) : grp_locals :=
  match field with
  | Some (MAILIMF_FIELD_OPTIONAL_FIELD (Some (mkOptional (Some name) value))) =>
      if name_is name "X-MrGrpId" "Chat-Group-ID" then
        mkGrp (Some (safe_strdup value)) (grpid2 g) (grpid3 g) (grpid4 g) (grpname g)
              (X_MrRemoveFromGrp g) (X_MrAddToGrp g) (X_MrGrpNameChanged g)
      else if name_is name "X-MrGrpName" "Chat-Group-Name" then
        mkGrp (grpid1 g) (grpid2 g) (grpid3 g) (grpid4 g)
              (option_map mr_decode_header_string value)
              (X_MrRemoveFromGrp g) (X_MrAddToGrp g) (X_MrGrpNameChanged g)
      else if name_is name "X-MrRemoveFromGrp" "Chat-Group-Member-Removed" then
        mkGrp (grpid1 g) (grpid2 g) (grpid3 g) (grpid4 g) (grpname g)
              value (X_MrAddToGrp g) (X_MrGrpNameChanged g)
      else if name_is name "X-MrAddToGrp" "Chat-Group-Member-Added" then
        mkGrp (grpid1 g) (grpid2 g) (grpid3 g) (grpid4 g) (grpname g)
              (X_MrRemoveFromGrp g) value (X_MrGrpNameChanged g)
      else if name_is name "X-MrGrpNameChanged" "Chat-Group-Name-Changed" then
        mkGrp (grpid1 g) (grpid2 g) (grpid3 g) (grpid4 g) (grpname g)
              (X_MrRemoveFromGrp g) (X_MrAddToGrp g) true
      else g
  | Some (MAILIMF_FIELD_MESSAGE_ID (Some mid_value)) =>
      mkGrp (grpid1 g) (extract_grpid_from_messageid mid_value) (grpid3 g) (grpid4 g)
            (grpname g) (X_MrRemoveFromGrp g) (X_MrAddToGrp g) (X_MrGrpNameChanged g)
  | Some (MAILIMF_FIELD_IN_REPLY_TO (Some mid_list)) =>
      mkGrp (grpid1 g) (grpid2 g) (get_first_grpid_from_char_clist mid_list) (grpid4 g)
            (grpname g) (X_MrRemoveFromGrp g) (X_MrAddToGrp g) (X_MrGrpNameChanged g)
  | Some (MAILIMF_FIELD_REFERENCES (Some mid_list)) =>
      mkGrp (grpid1 g) (grpid2 g) (grpid3 g) (get_first_grpid_from_char_clist mid_list)
            (grpname g) (X_MrRemoveFromGrp g) (X_MrAddToGrp g) (X_MrGrpNameChanged g)
  | _ => g
  end.

Definition grp_walk (fields : list (option mailimf_field)) : grp_locals :=
  fold_left grp_field fields grp_locals_init.

(** [grpid = grpid1? grpid1 : (grpid2? grpid2 : (grpid3? grpid3 : grpid4))]. *)
Definition grp_select (g : grp_locals) : option string :=
  match grpid1 g with
  | Some v => Some v
  | None => match grpid2 g with
            | Some v => Some v
            | None => match grpid3 g with
                      | Some v => Some v
                      | None => grpid4 g
                      end
            end
  end.

(** The four locals as functions of the header: each holds what the last
    field of its kind gave. *)
Definition last_match {A : Type} (p : A -> bool) (l : list A) : option A :=
  find p (rev l).

Definition candidate (p : option mailimf_field -> bool)
  (val : option mailimf_field -> option string)
  (fields : list (option mailimf_field)) : option string :=
  match last_match p fields with
  | Some f => val f
  | None => None
  end.

Definition is_grpid_header (f : option mailimf_field) : bool :=
  match f with
  | Some (MAILIMF_FIELD_OPTIONAL_FIELD (Some (mkOptional (Some name) _))) =>
      name_is name "X-MrGrpId" "Chat-Group-ID"
  | _ => false
  end.

Definition grpid_header_value (f : option mailimf_field) : option string :=
  match f with
  | Some (MAILIMF_FIELD_OPTIONAL_FIELD (Some (mkOptional _ value))) =>
      Some (safe_strdup value)
  | _ => None
  end.

Definition is_message_id (f : option mailimf_field) : bool :=
  match f with Some (MAILIMF_FIELD_MESSAGE_ID (Some _)) => true | _ => false end.

Definition message_id_value (f : option mailimf_field) : option string :=
  match f with
  | Some (MAILIMF_FIELD_MESSAGE_ID (Some mid)) => extract_grpid_from_messageid mid
  | _ => None
  end.

Definition is_in_reply_to (f : option mailimf_field) : bool :=
  match f with Some (MAILIMF_FIELD_IN_REPLY_TO (Some _)) => true | _ => false end.

Definition in_reply_to_value (f : option mailimf_field) : option string :=
  match f with
  | Some (MAILIMF_FIELD_IN_REPLY_TO (Some l)) => get_first_grpid_from_char_clist l
  | _ => None
  end.

Definition is_references (f : option mailimf_field) : bool :=
  match f with Some (MAILIMF_FIELD_REFERENCES (Some _)) => true | _ => false end.

Definition references_value (f : option mailimf_field) : option string :=
  match f with
  | Some (MAILIMF_FIELD_REFERENCES (Some l)) => get_first_grpid_from_char_clist l
  | _ => None
  end.

Fixpoint first_present (l : list (option string)) : option string :=
  match l with
  | [] => None
  | Some v :: _ => Some v
  | None :: r => first_present r
  end.

(** The first of the four that is there. *)
Definition claimed_grpid (fields : list (option mailimf_field)) : option string :=
  first_present
    [candidate is_grpid_header grpid_header_value fields;
     candidate is_message_id message_id_value fields;
     candidate is_in_reply_to in_reply_to_value fields;
     candidate is_references references_value fields].

(** [SELECT id FROM chats WHERE grpid=?;] with 0 for no row. *)
Definition select_chat_by_grpid (sql : sqlite3) (grpid : string) : Z :=
  match find (fun c => match ch_grpid c with
                       | Some v => String.eqb v grpid
                       | None => false
                       end) (chats sql) with
  | Some c => to_uint32 (ch_id c)
  | None => 0
  end.

(** The condition under which a missing group is created. *)
Definition grp_should_create (g : grp_locals) (chat_id : Z) (create_as_needed : bool)
  (group_explicitly_left : bool) (self_addr : string) : bool :=
  ((chat_id =? 0)
   && create_as_needed
   && match grpname g with Some _ => true | None => false end
   && match X_MrRemoveFromGrp g with None => true | Some _ => false end
   && (negb group_explicitly_left
       || match X_MrAddToGrp g with
          | Some a => strcasecmp_eq self_addr a
          | None => false
          end))%bool.

(** [INSERT INTO chats (type, name, grpid) VALUES(?, ?, ?);]: the new rows and
    the rowid, or nothing when the step fails. *)
Definition insert_group_chat (sql : sqlite3) (name grpid : string) : option (sqlite3 * Z) :=
  match insert_step sql with
  | None => None
  | Some sql =>
      let id := next_rowid (map ch_id (chats sql)) in
      Some (set_chats sql (chats sql ++ [mkChat id MR_CHAT_GROUP name (Some grpid)]), id)
  end.

(** [UPDATE chats SET name=? WHERE id=?;] *)
Definition update_chat_name (sql : sqlite3) (name : string) (chat_id : Z) : sqlite3 :=
  set_chats sql
    (map (fun c => if ch_id c =? chat_id
                   then mkChat (ch_id c) (ch_type c) name (ch_grpid c) else c)
         (chats sql)).

(** [DELETE FROM chats_contacts WHERE chat_id=?;] *)
Definition delete_chat_contacts (sql : sqlite3) (chat_id : Z) : sqlite3 :=
  set_chats_contacts sql
    (filter (fun r => negb (fst r =? chat_id)) (chats_contacts sql)).

(** The filter on an address that the member list applies to the sender and
    to every recipient: not the own address, not the removed one. *)
Definition grp_keeps (sql : sqlite3) (self_addr : string) (skip : option string)
  (contact_id : Z) : bool :=
  (negb (mrmailbox_contact_addr_equals__ sql contact_id self_addr)
   && match skip with
      | None => true
      | Some a => negb (mrmailbox_contact_addr_equals__ sql contact_id a)
      end)%bool.

Definition grp_add_to_list (sql : sqlite3) (chat_id : Z) (self_addr : string)
  (skip : option string) (to_list : list Z) : sqlite3 :=
  fold_left (fun sql to_id =>
               if grp_keeps sql self_addr skip to_id
               then mrmailbox_add_contact_to_chat__ sql chat_id to_id
               else sql)
            to_list sql.

(** The block under [if( recreate_member_list )]. *)
Definition grp_recreate_member_list (mailbox : mrmailbox_t) (g : grp_locals)
  (chat_id : Z) (self_addr : string) (from_id : Z) (to_list : list Z) : mrmailbox_t :=
  let skip := X_MrRemoveFromGrp g in
  let sql := delete_chat_contacts (m_sql mailbox) chat_id in
  let sql :=
    if match skip with None => true | Some a => negb (strcasecmp_eq self_addr a) end
    then mrmailbox_add_contact_to_chat__ sql chat_id MR_CONTACT_ID_SELF
    else sql in
  let sql :=
    if (MR_CONTACT_ID_LAST_SPECIAL <? from_id) && grp_keeps sql self_addr skip from_id
    then mrmailbox_add_contact_to_chat__ sql chat_id from_id
    else sql in
  let sql := grp_add_to_list sql chat_id self_addr skip to_list in
  m_cb (set_sql mailbox sql) MR_EVENT_CHAT_MODIFIED chat_id 0.

(** The block "execute group commands": the mailbox after it and the flag
    [recreate_member_list]. *)
Definition grp_commands (mailbox : mrmailbox_t) (g : grp_locals) (chat_id : Z)
  (recreate_member_list : bool) : mrmailbox_t * bool :=
  match X_MrAddToGrp g, X_MrRemoveFromGrp g with
  | None, None =>
      match X_MrGrpNameChanged g, grpname g with
      | true, Some name =>
          if Nat.ltb (strlen name) 200 then
            (m_cb (set_sql mailbox (update_chat_name (m_sql mailbox) name chat_id))
                  MR_EVENT_CHAT_MODIFIED chat_id 0,
             recreate_member_list)
          else (mailbox, recreate_member_list)
      | _, _ => (mailbox, recreate_member_list)
      end
  | _, _ => (mailbox, true)
  end.

(** [mrsqlite3_get_config__(sql, "configured_addr", "")]. *)
Definition configured_addr (ths : mrmailbox_t) : string :=
  safe_strdup (mrsqlite3_get_config__ (m_sql ths) "configured_addr" (Some EmptyString)).

(** The rows hold a chat of the group id. *)
Definition has_group_chat (sql : sqlite3) (grpid : string) : bool :=
  existsb (fun c => match ch_grpid c with
                    | Some v => String.eqb v grpid
                    | None => false
                    end) (chats sql).

(** The first half of [lookup_group_by_grpid__], up to "again, check
    chat_id": the chat of the group id, created if it should be. *)
Inductive grp_found :=
| GrpReturn (mailbox : mrmailbox_t) (chat_id : Z)
| GrpChat (mailbox : mrmailbox_t) (chat_id : Z) (self_addr : string)
    (recreate_member_list : bool).

Definition grp_find_or_create (mailbox : mrmailbox_t) (g : grp_locals)
  (grpid : string) (create_as_needed : bool) (from_id : Z) : grp_found :=
  let chat_id := select_chat_by_grpid (m_sql mailbox) grpid in
  if (negb (chat_id =? 0)
      && negb (mrmailbox_is_contact_in_chat__ (m_sql mailbox) chat_id from_id))%bool
  then GrpReturn mailbox 0
  else
    let group_explicitly_left :=
      mrmailbox_group_explicitly_left__ (m_sql mailbox) grpid in
    let self_addr := configured_addr mailbox in
    let created :=
      if grp_should_create g chat_id create_as_needed group_explicitly_left self_addr
      then
        match insert_group_chat (m_sql mailbox) (safe_strdup (grpname g)) grpid with
        | None => None
        | Some (sql, rowid) => Some (set_sql mailbox sql, to_uint32 rowid, true)
        end
      else Some (mailbox, chat_id, false) in
    match created with
    | None => GrpReturn mailbox chat_id
    | Some (mailbox, chat_id, recreate_member_list) =>
        if chat_id <=? MR_CHAT_ID_LAST_SPECIAL then
          GrpReturn mailbox (if group_explicitly_left then MR_CHAT_ID_TRASH else 0)
        else GrpChat mailbox chat_id self_addr recreate_member_list
    end.

(** [lookup_group_by_grpid__]: the mailbox after the call and the chat id
    returned, 0 for no group. *)
Definition lookup_group_by_grpid__ (mailbox : mrmailbox_t) (mime_parser : mrmimeparser_t)
  (create_as_needed : bool) (from_id : Z) (to_list : list Z) : mrmailbox_t * Z :=
  let to_list_cnt := List.length to_list in
  let g := grp_walk (fld_list mime_parser) in
  match grp_select g with
  | None => (mailbox, 0)
  | Some grpid =>
      match grp_find_or_create mailbox g grpid create_as_needed from_id with
      | GrpReturn mailbox chat_id => (mailbox, chat_id)
      | GrpChat mailbox chat_id self_addr recreate_member_list =>
          let '(mailbox, recreate_member_list) :=
            grp_commands mailbox g chat_id recreate_member_list in
          let mailbox :=
            if recreate_member_list
            then grp_recreate_member_list mailbox g chat_id self_addr from_id to_list
            else mailbox in
          if (Nat.eqb to_list_cnt 1 && negb (m_is_send_by_messenger mime_parser))%bool
          then
            if 3 <? mrmailbox_get_chat_contact_count__ (m_sql mailbox) chat_id
            then (mailbox, 0)
            else (mailbox, chat_id)
          else (mailbox, chat_id)
      end
  end.

End Groups.

(** *** Receive a message and add it to the database *)

(** A control result: go on, or jump to the label [cleanup]. *)
Inductive flow (A : Type) :=
| Next (a : A)
| Goto_cleanup (a : A).
Arguments Next {A} a.
Arguments Goto_cleanup {A} a.

Section Receive.
Context {X : Externals}.

(** The locals of [receive_imf] that outlive a block. *)
Record locals := mkLocals {
  incoming : bool;
  incoming_from_known_sender : bool;
  is_group : bool;
  to_list : list Z;
  from_id : Z;
  from_id_blocked : bool;
  to_id : Z;
  chat_id : Z;
  state : msg_state;
  first_dblocal_id : Z;
  rfc724_mid : option string;
  message_timestamp : Z;
  db_locked : bool;
  transaction_pending : bool;
  created_db_entries : list Z;
  create_event_to_send : option event_code;
  rr_event_to_send : list Z;
  has_return_path : bool
}.

Definition locals_init : locals :=
  mkLocals false false false [] 0 false 0 0 MR_STATE_UNDEFINED 0 None
    MR_INVALID_TIMESTAMP false false [] (Some MR_EVENT_MSGS_CHANGED) [] false.

Definition set_incoming (l : locals) (v : bool) : locals :=
  mkLocals v (incoming_from_known_sender l) (is_group l) (to_list l) (from_id l)
    (from_id_blocked l) (to_id l) (chat_id l) (state l) (first_dblocal_id l)
    (rfc724_mid l) (message_timestamp l) (db_locked l) (transaction_pending l)
    (created_db_entries l) (create_event_to_send l) (rr_event_to_send l)
    (has_return_path l).

Definition set_incoming_from_known_sender (l : locals) (v : bool) : locals :=
  mkLocals (incoming l) v (is_group l) (to_list l) (from_id l) (from_id_blocked l)
    (to_id l) (chat_id l) (state l) (first_dblocal_id l) (rfc724_mid l)
    (message_timestamp l) (db_locked l) (transaction_pending l) (created_db_entries
    l) (create_event_to_send l) (rr_event_to_send l) (has_return_path l).

Definition set_is_group (l : locals) (v : bool) : locals :=
  mkLocals (incoming l) (incoming_from_known_sender l) v (to_list l) (from_id l)
    (from_id_blocked l) (to_id l) (chat_id l) (state l) (first_dblocal_id l)
    (rfc724_mid l) (message_timestamp l) (db_locked l) (transaction_pending l)
    (created_db_entries l) (create_event_to_send l) (rr_event_to_send l)
    (has_return_path l).

Definition set_to_list (l : locals) (v : list Z) : locals :=
  mkLocals (incoming l) (incoming_from_known_sender l) (is_group l) v (from_id l)
    (from_id_blocked l) (to_id l) (chat_id l) (state l) (first_dblocal_id l)
    (rfc724_mid l) (message_timestamp l) (db_locked l) (transaction_pending l)
    (created_db_entries l) (create_event_to_send l) (rr_event_to_send l)
    (has_return_path l).

Definition set_from_id (l : locals) (v : Z) : locals :=
  mkLocals (incoming l) (incoming_from_known_sender l) (is_group l) (to_list l) v
    (from_id_blocked l) (to_id l) (chat_id l) (state l) (first_dblocal_id l)
    (rfc724_mid l) (message_timestamp l) (db_locked l) (transaction_pending l)
    (created_db_entries l) (create_event_to_send l) (rr_event_to_send l)
    (has_return_path l).

Definition set_from_id_blocked (l : locals) (v : bool) : locals :=
  mkLocals (incoming l) (incoming_from_known_sender l) (is_group l) (to_list l)
    (from_id l) v (to_id l) (chat_id l) (state l) (first_dblocal_id l) (rfc724_mid
    l) (message_timestamp l) (db_locked l) (transaction_pending l)
    (created_db_entries l) (create_event_to_send l) (rr_event_to_send l)
    (has_return_path l).

Definition set_to_id (l : locals) (v : Z) : locals :=
  mkLocals (incoming l) (incoming_from_known_sender l) (is_group l) (to_list l)
    (from_id l) (from_id_blocked l) v (chat_id l) (state l) (first_dblocal_id l)
    (rfc724_mid l) (message_timestamp l) (db_locked l) (transaction_pending l)
    (created_db_entries l) (create_event_to_send l) (rr_event_to_send l)
    (has_return_path l).

Definition set_chat_id (l : locals) (v : Z) : locals :=
  mkLocals (incoming l) (incoming_from_known_sender l) (is_group l) (to_list l)
    (from_id l) (from_id_blocked l) (to_id l) v (state l) (first_dblocal_id l)
    (rfc724_mid l) (message_timestamp l) (db_locked l) (transaction_pending l)
    (created_db_entries l) (create_event_to_send l) (rr_event_to_send l)
    (has_return_path l).

Definition set_state (l : locals) (v : msg_state) : locals :=
  mkLocals (incoming l) (incoming_from_known_sender l) (is_group l) (to_list l)
    (from_id l) (from_id_blocked l) (to_id l) (chat_id l) v (first_dblocal_id l)
    (rfc724_mid l) (message_timestamp l) (db_locked l) (transaction_pending l)
    (created_db_entries l) (create_event_to_send l) (rr_event_to_send l)
    (has_return_path l).

Definition set_first_dblocal_id (l : locals) (v : Z) : locals :=
  mkLocals (incoming l) (incoming_from_known_sender l) (is_group l) (to_list l)
    (from_id l) (from_id_blocked l) (to_id l) (chat_id l) (state l) v (rfc724_mid l)
    (message_timestamp l) (db_locked l) (transaction_pending l) (created_db_entries
    l) (create_event_to_send l) (rr_event_to_send l) (has_return_path l).

Definition set_rfc724_mid (l : locals) (v : option string) : locals :=
  mkLocals (incoming l) (incoming_from_known_sender l) (is_group l) (to_list l)
    (from_id l) (from_id_blocked l) (to_id l) (chat_id l) (state l)
    (first_dblocal_id l) v (message_timestamp l) (db_locked l) (transaction_pending
    l) (created_db_entries l) (create_event_to_send l) (rr_event_to_send l)
    (has_return_path l).

Definition set_message_timestamp (l : locals) (v : Z) : locals :=
  mkLocals (incoming l) (incoming_from_known_sender l) (is_group l) (to_list l)
    (from_id l) (from_id_blocked l) (to_id l) (chat_id l) (state l)
    (first_dblocal_id l) (rfc724_mid l) v (db_locked l) (transaction_pending l)
    (created_db_entries l) (create_event_to_send l) (rr_event_to_send l)
    (has_return_path l).

Definition set_db_locked (l : locals) (v : bool) : locals :=
  mkLocals (incoming l) (incoming_from_known_sender l) (is_group l) (to_list l)
    (from_id l) (from_id_blocked l) (to_id l) (chat_id l) (state l)
    (first_dblocal_id l) (rfc724_mid l) (message_timestamp l) v (transaction_pending
    l) (created_db_entries l) (create_event_to_send l) (rr_event_to_send l)
    (has_return_path l).

Definition set_transaction_pending (l : locals) (v : bool) : locals :=
  mkLocals (incoming l) (incoming_from_known_sender l) (is_group l) (to_list l)
    (from_id l) (from_id_blocked l) (to_id l) (chat_id l) (state l)
    (first_dblocal_id l) (rfc724_mid l) (message_timestamp l) (db_locked l) v
    (created_db_entries l) (create_event_to_send l) (rr_event_to_send l)
    (has_return_path l).

Definition set_created_db_entries (l : locals) (v : list Z) : locals :=
  mkLocals (incoming l) (incoming_from_known_sender l) (is_group l) (to_list l)
    (from_id l) (from_id_blocked l) (to_id l) (chat_id l) (state l)
    (first_dblocal_id l) (rfc724_mid l) (message_timestamp l) (db_locked l)
    (transaction_pending l) v (create_event_to_send l) (rr_event_to_send l)
    (has_return_path l).

Definition set_create_event_to_send (l : locals) (v : option event_code) : locals :=
  mkLocals (incoming l) (incoming_from_known_sender l) (is_group l) (to_list l)
    (from_id l) (from_id_blocked l) (to_id l) (chat_id l) (state l)
    (first_dblocal_id l) (rfc724_mid l) (message_timestamp l) (db_locked l)
    (transaction_pending l) (created_db_entries l) v (rr_event_to_send l)
    (has_return_path l).

Definition set_rr_event_to_send (l : locals) (v : list Z) : locals :=
  mkLocals (incoming l) (incoming_from_known_sender l) (is_group l) (to_list l)
    (from_id l) (from_id_blocked l) (to_id l) (chat_id l) (state l)
    (first_dblocal_id l) (rfc724_mid l) (message_timestamp l) (db_locked l)
    (transaction_pending l) (created_db_entries l) (create_event_to_send l) v
    (has_return_path l).

Definition set_has_return_path (l : locals) (v : bool) : locals :=
  mkLocals (incoming l) (incoming_from_known_sender l) (is_group l) (to_list l)
    (from_id l) (from_id_blocked l) (to_id l) (chat_id l) (state l)
    (first_dblocal_id l) (rfc724_mid l) (message_timestamp l) (db_locked l)
    (transaction_pending l) (created_db_entries l) (create_event_to_send l)
    (rr_event_to_send l) v.

(** [carray_search]. *)
Definition carray_search (ids : list Z) (v : Z) : bool := existsb (Z.eqb v) ids.

(** [add_or_lookup_contact_by_addr__]: the mailbox, the ids and what is left
    in [*check_self]. The flag is cleared on entry, whatever it held. *)
Definition add_or_lookup_contact_by_addr__ (ths : mrmailbox_t)
  (display_name_enc : option string) (addr_spec : string) (origin : Z)
  (ids : list Z) (check_self : bool) : mrmailbox_t * list Z * bool :=
  let check_self := false in
  let self_addr := configured_addr ths in
  let check_self := if strcasecmp_eq self_addr addr_spec then true else check_self in
  if check_self then (ths, ids, check_self)
  else
    let display_name_dec :=
      option_map (fun n => mr_normalize_name (mr_decode_header_string n))
                 display_name_enc in
    let '(sql, row_id) :=
      mrmailbox_add_or_lookup_contact__ (m_sql ths) display_name_dec addr_spec origin in
    let ths := set_sql ths sql in
    if negb (row_id =? 0) then
      if negb (carray_search ids row_id) then (ths, (ids ++ [row_id])%list, check_self)
      else (ths, ids, check_self)
    else (ths, ids, check_self).

(** [add_or_lookup_contacts_by_mailbox_list__]. *)
Fixpoint add_or_lookup_contacts_by_mailbox_list__ (ths : mrmailbox_t)
  (mb_list : list (option mailimf_mailbox)) (origin : Z) (ids : list Z)
  (check_self : bool) : mrmailbox_t * list Z * bool :=
  match mb_list with
  | [] => (ths, ids, check_self)
  | Some mb :: cur =>
      let '(ths, ids, check_self) :=
        add_or_lookup_contact_by_addr__ ths (mb_display_name mb) (mb_addr_spec mb)
                                        origin ids check_self in
      add_or_lookup_contacts_by_mailbox_list__ ths cur origin ids check_self
  | None :: cur =>
      add_or_lookup_contacts_by_mailbox_list__ ths cur origin ids check_self
  end.

(** [add_or_lookup_contacts_by_address_list__]. *)
Fixpoint add_or_lookup_contacts_by_address_list__ (ths : mrmailbox_t)
  (adr_list : list (option mailimf_address)) (origin : Z) (ids : list Z)
  (check_self : bool) : mrmailbox_t * list Z * bool :=
  match adr_list with
  | [] => (ths, ids, check_self)
  | adr :: cur =>
      let '(ths, ids, check_self) :=
        match adr with
        | Some (MAILIMF_ADDRESS_MAILBOX (Some mb)) =>
            add_or_lookup_contact_by_addr__ ths (mb_display_name mb) (mb_addr_spec mb)
                                            origin ids check_self
        | Some (MAILIMF_ADDRESS_GROUP (Some (Some grp_mb_list))) =>
            add_or_lookup_contacts_by_mailbox_list__ ths grp_mb_list origin ids check_self
        | _ => (ths, ids, check_self)
        end in
      add_or_lookup_contacts_by_address_list__ ths cur origin ids check_self
  end.

(** [is_known_rfc724_mid__]:
    [SELECT id FROM msgs WHERE rfc724_mid=? AND (chat_id>? OR from_id=?);] *)
Definition is_known_rfc724_mid__ (mailbox : mrmailbox_t) (rfc724_mid : option string) : bool :=
  match rfc724_mid with
  | Some mid =>
      existsb (fun m => String.eqb (msg_rfc724_mid m) mid
                        && ((MR_CHAT_ID_LAST_SPECIAL <? msg_chat_id m)
                            || (msg_from_id m =? MR_CONTACT_ID_SELF)))%bool
              (msgs (m_sql mailbox))
  | None => false
  end.

(** [is_known_rfc724_mid_in_list__]. *)
Definition is_known_rfc724_mid_in_list__ (mailbox : mrmailbox_t)
  (mid_list : option (list (option string))) : bool :=
  match mid_list with
  | Some l => existsb (is_known_rfc724_mid__ mailbox) l
  | None => false
  end.

(** [is_reply_to_known_message__]. *)
Definition is_reply_to_known_message__ (mailbox : mrmailbox_t)
  (mime_parser : mrmimeparser_t) : bool :=
  existsb
    (fun field =>
       match field with
       | Some (MAILIMF_FIELD_OPTIONAL_FIELD (Some (mkOptional (Some name) value))) =>
           name_is name "X-MrPredecessor" "Chat-Predecessor"
           && is_known_rfc724_mid__ mailbox value
       | Some (MAILIMF_FIELD_IN_REPLY_TO (Some mid_list)) =>
           is_known_rfc724_mid_in_list__ mailbox mid_list
       | Some (MAILIMF_FIELD_REFERENCES (Some mid_list)) =>
           is_known_rfc724_mid_in_list__ mailbox mid_list
       | _ => false
       end)%bool
    (fld_list mime_parser).

(** [SELECT MAX(timestamp) FROM msgs WHERE chat_id=? and from_id!=? AND
    timestamp>=?], read as an integer: 0 when no row qualifies. *)
Definition select_max_timestamp (sql : sqlite3) (chat_id from_id desired_timestamp : Z) : Z :=
  fold_right Z.max 0
    (map msg_timestamp
       (filter (fun m => (msg_chat_id m =? chat_id)
                         && negb (msg_from_id m =? from_id)
                         && (desired_timestamp <=? msg_timestamp m))%bool
               (msgs sql))).

(** [correct_bad_timestamp__]. *)
Definition correct_bad_timestamp__ (ths : mrmailbox_t) (chat_id from_id : Z)
  (desired_timestamp : Z) (is_fresh_msg : bool) : mrmailbox_t * Z :=
  let desired_timestamp :=
    if is_fresh_msg then
      let last_msg_time :=
        select_max_timestamp (m_sql ths) chat_id from_id desired_timestamp in
      if ((0 <? last_msg_time) && (desired_timestamp <=? last_msg_time))%bool
      then last_msg_time + 1
      else desired_timestamp
    else desired_timestamp in
  if mr_smeared_time__ ths <=? desired_timestamp
  then mr_create_smeared_timestamp__ ths
  else (ths, desired_timestamp).

(** The first field of a type, as [mr_find_mailimf_field] of mrmimeparser.c
    (not under src/) finds it. *)
Definition mr_find_mailimf_field {A : Type} (sel : mailimf_field -> option A)
  (fields : list (option mailimf_field)) : option A :=
  match find (fun f => match f with
                       | Some f => match sel f with Some _ => true | None => false end
                       | None => false
                       end) fields with
  | Some (Some f) => sel f
  | _ => None
  end.

Definition sel_from (f : mailimf_field) :=
  match f with MAILIMF_FIELD_FROM d => Some d | _ => None end.

Definition sel_to (f : mailimf_field) :=
  match f with MAILIMF_FIELD_TO d => Some d | _ => None end.

(** The test of the first walk over the header: a [Return-Path]. *)
Definition is_return_path (field : option mailimf_field) : bool :=
  match field with
  | Some MAILIMF_FIELD_RETURN_PATH => true
  | Some (MAILIMF_FIELD_OPTIONAL_FIELD (Some (mkOptional (Some name) _))) =>
      strcasecmp_eq name "Return-Path"
  | _ => false
  end.

Definition imap_seen (flags : Z) : bool := negb (Z.land flags MR_IMAP_SEEN =? 0).

(** The block "for incoming messages, get From: and check if it is known". *)
Definition imf_from (ths : mrmailbox_t) (fields : list (option mailimf_field))
  (l : locals) : mrmailbox_t * locals :=
  if incoming l then
    match mr_find_mailimf_field sel_from fields with
    | Some (Some frm_mb_list) =>
        let '(ths, from_list, check_self) :=
          add_or_lookup_contacts_by_mailbox_list__
            ths frm_mb_list MR_ORIGIN_INCOMING_UNKNOWN_FROM [] false in
        if check_self then (ths, set_incoming l false)
        else
          match from_list with
          | first :: _ =>
              let l := set_from_id l first in
              let '(known, blocked) :=
                mrmailbox_is_known_contact__ (m_sql ths) (from_id l) in
              let l := set_from_id_blocked l blocked in
              (ths, if known then set_incoming_from_known_sender l true else l)
          | [] => (ths, l)
          end
    | _ => (ths, l)
    end
  else (ths, l).

(** The block "make sure, to_list starts with the first To:-address". *)
Definition imf_to (ths : mrmailbox_t) (fields : list (option mailimf_field))
  (l : locals) : mrmailbox_t * locals :=
  if (negb (incoming l) || incoming_from_known_sender l)%bool then
    match mr_find_mailimf_field sel_to fields with
    | Some (Some to_addr_list) =>
        let '(ths, ids, _) :=
          add_or_lookup_contacts_by_address_list__
            ths to_addr_list
            (if negb (incoming l) then MR_ORIGIN_OUTGOING_TO else MR_ORIGIN_INCOMING_TO)
            (to_list l) false in
        (ths, set_to_list l ids)
    | _ => (ths, l)
    end
  else (ths, l).

(** One round of the walk "collect the rest information". *)
Definition imf_rest_field (acc : mrmailbox_t * locals) (field : option mailimf_field)
  : mrmailbox_t * locals :=
  let '(ths, l) := acc in
  match field with
  | Some (MAILIMF_FIELD_MESSAGE_ID (Some mid_value)) =>
      (ths, set_rfc724_mid l (Some (safe_strdup mid_value)))
  | Some (MAILIMF_FIELD_CC (Some cc_addr_list)) =>
      let '(ths, ids, _) :=
        add_or_lookup_contacts_by_address_list__
          ths cc_addr_list
          (if negb (incoming l) then MR_ORIGIN_OUTGOING_CC else MR_ORIGIN_INCOMING_CC)
          (to_list l) false in
      (ths, set_to_list l ids)
  | Some (MAILIMF_FIELD_BCC (Some bcc_addr_list)) =>
      if negb (incoming l) then
        let '(ths, ids, _) :=
          add_or_lookup_contacts_by_address_list__
            ths bcc_addr_list MR_ORIGIN_OUTGOING_BCC (to_list l) false in
        (ths, set_to_list l ids)
      else (ths, l)
  | Some (MAILIMF_FIELD_ORIG_DATE (Some stamp)) =>
      (ths, set_message_timestamp l stamp)
  | _ => (ths, l)
  end.

(** The block "check if the message introduces a new chat". *)
Definition imf_choose_chat (ths : mrmailbox_t) (mime_parser : mrmimeparser_t)
  (flags : Z) (l : locals) : mrmailbox_t * locals :=
  if incoming l then
    let l := set_state l (if imap_seen flags then MR_IN_SEEN else MR_IN_FRESH) in
    let l := set_to_id l MR_CONTACT_ID_SELF in
    let '(ths, chat_id) :=
      lookup_group_by_grpid__
        ths mime_parser
        (incoming_from_known_sender l && m_is_send_by_messenger mime_parser)%bool
        (from_id l) (to_list l) in
    if negb (chat_id =? 0) then (ths, set_is_group (set_chat_id l chat_id) true)
    else
      let chat_id :=
        mrmailbox_lookup_real_nchat_by_contact_id__ (m_sql ths) (from_id l) in
      let '(ths, chat_id) :=
        if chat_id =? 0 then
          if (incoming_from_known_sender l && m_is_send_by_messenger mime_parser)%bool
          then
            let '(sql, id) :=
              mrmailbox_create_or_lookup_nchat_by_contact_id__ (m_sql ths) (from_id l) in
            (set_sql ths sql, to_uint32 id)
          else if is_reply_to_known_message__ ths mime_parser then
            let sql :=
              mrmailbox_scaleup_contact_origin__ (m_sql ths) (from_id l)
                                                 MR_ORIGIN_INCOMING_REPLY_TO in
            let '(sql, id) :=
              mrmailbox_create_or_lookup_nchat_by_contact_id__ sql (from_id l) in
            (set_sql ths sql, to_uint32 id)
          else (ths, chat_id)
        else (ths, chat_id) in
      let chat_id := if chat_id =? 0 then MR_CHAT_ID_DEADDROP else chat_id in
      (ths, set_chat_id l chat_id)
  else
    let l := set_state l MR_OUT_DELIVERED in
    let l := set_from_id l MR_CONTACT_ID_SELF in
    let '(ths, l) :=
      match to_list l with
      | first :: _ =>
          let l := set_to_id l first in
          let '(ths, chat_id) :=
            lookup_group_by_grpid__ ths mime_parser true (from_id l) (to_list l) in
          if negb (chat_id =? 0) then (ths, set_is_group (set_chat_id l chat_id) true)
          else
            let chat_id :=
              mrmailbox_lookup_real_nchat_by_contact_id__ (m_sql ths) (to_id l) in
            if ((chat_id =? 0) && m_is_send_by_messenger mime_parser
                && negb (mrmailbox_is_contact_blocked__ (m_sql ths) (to_id l)))%bool
            then
              let '(sql, id) :=
                mrmailbox_create_or_lookup_nchat_by_contact_id__ (m_sql ths) (to_id l) in
              (set_sql ths sql, set_chat_id l (to_uint32 id))
            else (ths, set_chat_id l chat_id)
      | [] => (ths, l)
      end in
    (ths, if chat_id l =? 0 then set_chat_id l MR_CHAT_ID_TO_DEADDROP else l).

(** The Message-ID the dedup works with: the one of the header, or one made
    of the stamp, the sender and the recipients; the latter can fail. *)
Definition imf_message_id (l : locals) : flow locals :=
  match rfc724_mid l with
  | Some _ => Next l
  | None =>
      match mr_create_incoming_rfc724_mid (message_timestamp l) (from_id l) (to_list l) with
      | Some mid => Next (set_rfc724_mid l (Some mid))
      | None => Goto_cleanup l
      end
  end.

(** The block "check, if the mail is already in our database". *)
Definition imf_dedup (ths : mrmailbox_t) (server_folder : string) (server_uid : Z)
  (l : locals) : flow (mrmailbox_t * locals) :=
  match mrmailbox_rfc724_mid_exists__ (m_sql ths) (safe_strdup (rfc724_mid l)) with
  | Some (old_server_folder, old_server_uid) =>
      if (negb (strcmp_eq old_server_folder server_folder)
          || negb (old_server_uid =? server_uid))%bool
      then
        let ths := mrsqlite3_rollback__ ths in
        let l := set_transaction_pending l false in
        let ths :=
          set_sql ths (mrmailbox_update_server_uid__
                         (m_sql ths) (safe_strdup (rfc724_mid l))
                         server_folder server_uid) in
        Goto_cleanup (ths, l)
      else Goto_cleanup (ths, l)
  | None => Next (ths, l)
  end.

(** [INSERT INTO msgs (...) VALUES (...);]: the new rows and the rowid, or
    nothing when the step fails. [row] is the row but for its id. *)
Definition insert_msg (sql : sqlite3) (row : Z -> msg) : option (sqlite3 * Z) :=
  match insert_step sql with
  | None => None
  | Some sql =>
      let id := next_rowid (map msg_id (msgs sql)) in
      Some (set_msgs sql (msgs sql ++ [row id]), id)
  end.

(** The loop that adds one row a part. *)
Fixpoint imf_insert_parts (ths : mrmailbox_t) (mime_parser : mrmimeparser_t)
  (parts : list mrmimepart_t) (server_folder : string) (server_uid : Z)
  (l : locals) : flow (mrmailbox_t * locals) :=
  match parts with
  | [] => Next (ths, l)
  | part :: more =>
      let txt_raw :=
        if is_text (m_type part)
        then Some (safe_strdup (m_subject mime_parser)
                   ++ String LF (String LF (m_msg_raw part)))
        else None in
      match insert_msg (m_sql ths)
              (fun id =>
                 mkMsg id (safe_strdup (rfc724_mid l)) server_folder server_uid
                       (chat_id l) (from_id l) (to_id l) (message_timestamp l)
                       (m_type part) (state l) (m_is_send_by_messenger mime_parser)
                       (safe_strdup (m_msg part)) (safe_strdup txt_raw)
                       (m_param_packed part) (m_bytes part)) with
      | None => Goto_cleanup (ths, l)
      | Some (sql, rowid) =>
          let ths := set_sql ths sql in
          let l :=
            if first_dblocal_id l =? 0 then set_first_dblocal_id l (to_uint32 rowid)
            else l in
          let l :=
            set_created_db_entries
              l (created_db_entries l ++ [chat_id l; first_dblocal_id l])%list in
          imf_insert_parts ths mime_parser more server_folder server_uid l
      end
  end.

(** The loop that adds a ghost row for every recipient but the first. *)
Fixpoint imf_insert_ghosts (ths : mrmailbox_t) (mime_parser : mrmimeparser_t)
  (recipients : list Z) (ghost_txt : string) (l : locals)
  : flow (mrmailbox_t * locals) :=
  match recipients with
  | [] => Next (ths, l)
  | ghost_to_id :: more =>
      let ghost_chat_id :=
        mrmailbox_lookup_real_nchat_by_contact_id__ (m_sql ths) ghost_to_id in
      let ghost_chat_id :=
        if ghost_chat_id =? 0 then MR_CHAT_ID_TO_DEADDROP else ghost_chat_id in
      match insert_msg (m_sql ths)
              (fun id =>
                 mkMsg id (mr_ghost_rfc724_mid (first_dblocal_id l)) EmptyString 0
                       ghost_chat_id (from_id l) ghost_to_id (message_timestamp l)
                       MR_MSG_TEXT (state l) (m_is_send_by_messenger mime_parser)
                       ghost_txt EmptyString (mr_ghost_param (first_dblocal_id l)) 0) with
      | None => Goto_cleanup (ths, l)
      | Some (sql, rowid) =>
          let ths := set_sql ths sql in
          let ghost_dblocal_id := to_uint32 rowid in
          let l :=
            set_created_db_entries
              l (created_db_entries l ++ [ghost_chat_id; ghost_dblocal_id])%list in
          imf_insert_ghosts ths mime_parser more ghost_txt l
      end
  end.

Definition imf_ghosts (ths : mrmailbox_t) (mime_parser : mrmimeparser_t) (l : locals)
  : flow (mrmailbox_t * locals) :=
  if (negb (incoming l) && negb (is_group l)
      && Nat.ltb 1 (List.length (to_list l))
      && negb (first_dblocal_id l =? 0))%bool
  then
    let ghost_txt :=
      match m_parts mime_parser with
      | part :: _ =>
          mrmsg_get_summarytext_by_raw (m_type part) (m_msg part) (m_param_packed part)
      | [] => EmptyString
      end in
    imf_insert_ghosts ths mime_parser (tl (to_list l)) ghost_txt l
  else Next (ths, l).

(** The block "check event to send". *)
Definition imf_event_to_send (ths : mrmailbox_t) (l : locals) : locals :=
  if (incoming l && msg_state_eqb (state l) MR_IN_FRESH)%bool then
    if from_id_blocked l then set_create_event_to_send l None
    else if chat_id l =? MR_CHAT_ID_DEADDROP then
      if negb (mrsqlite3_get_config_int__ (m_sql ths) "show_deaddrop" 0 =? 0)
      then set_create_event_to_send l (Some MR_EVENT_INCOMING_MSG)
      else l
    else set_create_event_to_send l (Some MR_EVENT_INCOMING_MSG)
  else l.

(** The first part of the block "Add parts": the rest of the header, the
    chat, the corrected stamp. *)
Definition imf_prepare (ths : mrmailbox_t) (mime_parser : mrmimeparser_t)
  (fields : list (option mailimf_field)) (flags : Z) (l : locals)
  : mrmailbox_t * locals :=
  let '(ths, l) := fold_left imf_rest_field fields (ths, l) in
  let '(ths, l) := imf_choose_chat ths mime_parser flags l in
  let '(ths, stamp) :=
    correct_bad_timestamp__ ths (chat_id l) (from_id l) (message_timestamp l)
                            (negb (imap_seen flags)) in
  (ths, set_message_timestamp l stamp).

(** The second part: the dedup, the rows, the ghosts, the event to send. *)
Definition imf_store (ths : mrmailbox_t) (mime_parser : mrmimeparser_t)
  (server_folder : string) (server_uid : Z) (l : locals)
  : flow (mrmailbox_t * locals) :=
  match imf_dedup ths server_folder server_uid l with
  | Goto_cleanup r => Goto_cleanup r
  | Next (ths, l) =>
      match imf_insert_parts ths mime_parser (m_parts mime_parser)
                             server_folder server_uid l with
      | Goto_cleanup r => Goto_cleanup r
      | Next (ths, l) =>
          match imf_ghosts ths mime_parser l with
          | Goto_cleanup r => Goto_cleanup r
          | Next (ths, l) => Next (ths, imf_event_to_send ths l)
          end
      end
  end.

(** The block "Add parts", entered when the mail has a part. *)
Definition imf_add_parts (ths : mrmailbox_t) (mime_parser : mrmimeparser_t)
  (fields : list (option mailimf_field)) (server_folder : string) (server_uid : Z)
  (flags : Z) (l : locals) : flow (mrmailbox_t * locals) :=
  let '(ths, l) := imf_prepare ths mime_parser fields flags l in
  match imf_message_id l with
  | Goto_cleanup l => Goto_cleanup (ths, l)
  | Next l => imf_store ths mime_parser server_folder server_uid l
  end.

(** One round of the loop over the reports. *)
Definition imf_report (mdns_enabled : Z) (acc : mrmailbox_t * locals)
  (report_root : option mailmime_report) : mrmailbox_t * locals :=
  let '(ths, l) := acc in
  match report_root with
  | Some (mkReport (Some pa_value) mp_list) =>
      if (strcmp_eq pa_value "disposition-notification"
          && Nat.leb 2 (List.length mp_list)
          && negb (mdns_enabled =? 0))%bool
      then
        match nth 1 mp_list None with
        | Some report_data =>
            if (ct_is_composite_message report_data
                && strcmp_eq (ct_subtype report_data) "disposition-notification")%bool
            then
              match mdn_original_message_id report_data with
              | Some rfc724_mid =>
                  match mrmailbox_mdn_from_ext__ (m_sql ths) (from_id l) rfc724_mid with
                  | (sql, Some (chat_id, msg_id)) =>
                      (set_sql ths sql,
                       set_rr_event_to_send
                         l (rr_event_to_send l ++ [chat_id; msg_id])%list)
                  | (sql, None) => (set_sql ths sql, l)
                  end
              | None => (ths, l)
              end
            else (ths, l)
        | None => (ths, l)
        end
      else (ths, l)
  | _ => (ths, l)
  end.

(** The block "Handle reports (mainly MDNs)". *)
Definition imf_reports (ths : mrmailbox_t) (mime_parser : mrmimeparser_t) (l : locals)
  : mrmailbox_t * locals :=
  match m_reports mime_parser with
  | [] => (ths, l)
  | reports =>
      let mdns_enabled :=
        mrsqlite3_get_config_int__ (m_sql ths) "mdns_enabled" MR_MDNS_DEFAULT_ENABLED in
      fold_left (imf_report mdns_enabled) reports (ths, l)
  end.

(** The pairs a queue of alternating values holds. *)
Fixpoint pairs (q : list Z) : list (Z * Z) :=
  match q with
  | a :: b :: r => (a, b) :: pairs r
  | [a] => [(a, 0)]
  | [] => []
  end.

Definition send_events (ths : mrmailbox_t) (ev : event_code) (q : list Z) : mrmailbox_t :=
  fold_left (fun ths d => m_cb ths ev (fst d) (snd d)) (pairs q) ths.

(** The start of [receive_imf] once the header is there: the lock, the
    transaction, the direction, the sender and the recipients of [To:]. *)
Definition imf_prologue (ths : mrmailbox_t) (fields : list (option mailimf_field))
  : mrmailbox_t * locals :=
  let l := locals_init in
  let ths := mrsqlite3_lock ths in
  let l := set_db_locked l true in
  let ths := mrsqlite3_begin_transaction__ ths in
  let l := set_transaction_pending l true in
  let l := set_has_return_path l (existsb is_return_path fields) in
  let l := if has_return_path l then set_incoming l true else l in
  let '(ths, l) := imf_from ths fields l in
  imf_to ths fields l.

(** [receive_imf] up to the label [cleanup]: the mailbox and the locals
    there. The parser has run; [mime_parser] is what it left. *)
Definition receive_imf_body (ths : mrmailbox_t) (mime_parser : mrmimeparser_t)
  (server_folder : string) (server_uid : Z) (flags : Z) : mrmailbox_t * locals :=
  match m_header mime_parser with
  | None => (ths, locals_init)
  | Some fields =>
      let '(ths, l) := imf_prologue ths fields in
      match
        match m_parts mime_parser with
        | [] => Next (ths, l)
        | _ => imf_add_parts ths mime_parser fields server_folder server_uid flags l
        end
      with
      | Goto_cleanup r => r
      | Next (ths, l) =>
          let '(ths, l) := imf_reports ths mime_parser l in
          let ths := mrsqlite3_commit__ ths in
          (ths, set_transaction_pending l false)
      end
  end.

(** The code from the label [cleanup] on. *)
Definition receive_imf_cleanup (ths : mrmailbox_t) (l : locals) : mrmailbox_t :=
  let ths := if transaction_pending l then mrsqlite3_rollback__ ths else ths in
  let ths := if db_locked l then mrsqlite3_unlock ths else ths in
  let ths :=
    match create_event_to_send l with
    | Some ev => send_events ths ev (created_db_entries l)
    | None => ths
    end in
  send_events ths MR_EVENT_MSG_READ (rr_event_to_send l).

(** [receive_imf]. *)
Definition receive_imf (ths : mrmailbox_t) (mime_parser : mrmimeparser_t)
  (server_folder : string) (server_uid : Z) (flags : Z) : mrmailbox_t :=
  let '(ths, l) := receive_imf_body ths mime_parser server_folder server_uid flags in
  receive_imf_cleanup ths l.

(** *** Reading a trace *)

(** The callbacks that were delivered while a transaction was pending;
    [pending] tells whether one is at the start of the trace. *)
Fixpoint callbacks_in_transaction (pending : bool) (tr : list effect) : list effect :=
  match tr with
  | [] => []
  | Begin :: r => callbacks_in_transaction true r
  | Commit :: r => callbacks_in_transaction false r
  | Rollback :: r => callbacks_in_transaction false r
  | Cb ev a b :: r =>
      (if pending then [Cb ev a b] else []) ++ callbacks_in_transaction pending r
  | _ :: r => callbacks_in_transaction pending r
  end%list.

(** The callbacks delivered while the lock was held. *)
Fixpoint callbacks_under_lock (locked : bool) (tr : list effect) : list effect :=
  match tr with
  | [] => []
  | Lock :: r => callbacks_under_lock true r
  | Unlock :: r => callbacks_under_lock false r
  | Cb ev a b :: r =>
      (if locked then [Cb ev a b] else []) ++ callbacks_under_lock locked r
  | _ :: r => callbacks_under_lock locked r
  end%list.

Definition is_chat_modified (e : effect) : bool :=
  match e with Cb MR_EVENT_CHAT_MODIFIED _ _ => true | _ => false end.

(** An event for a row of [msgs]: [INCOMING_MSG] or [MSGS_CHANGED]. *)
Definition is_row_event (e : effect) : bool :=
  match e with
  | Cb MR_EVENT_INCOMING_MSG _ _ | Cb MR_EVENT_MSGS_CHANGED _ _ => true
  | _ => false
  end.

Definition is_msg_read (e : effect) : bool :=
  match e with Cb MR_EVENT_MSG_READ _ _ => true | _ => false end.

Definition is_callback (e : effect) : bool :=
  match e with Cb _ _ _ => true | _ => false end.

(** What a call added to the trace. *)
Definition new_trace (before after : mrmailbox_t) : list effect :=
  skipn (List.length (m_trace before)) (m_trace after).

(** The event the claim on the per-row event predicts, from the locals at
    the end and the configuration the call started with. *)
Definition claimed_row_event (ths : mrmailbox_t) (flags : Z) (l : locals)
  : option event_code :=
  if (incoming l && negb (imap_seen flags))%bool then
    if from_id_blocked l then None
    else if chat_id l =? MR_CHAT_ID_DEADDROP then
      if mrsqlite3_get_config_int__ (m_sql ths) "show_deaddrop" 0 =? 0
      then Some MR_EVENT_MSGS_CHANGED
      else Some MR_EVENT_INCOMING_MSG
    else Some MR_EVENT_INCOMING_MSG
  else Some MR_EVENT_MSGS_CHANGED.

(** The Message-ID of a header: that of its last [Message-ID] field. *)
Definition header_mid_step (acc : option string) (field : option mailimf_field)
  : option string :=
  match field with
  | Some (MAILIMF_FIELD_MESSAGE_ID (Some mid_value)) => Some (safe_strdup mid_value)
  | _ => acc
  end.

Definition header_mid (fields : list (option mailimf_field)) : option string :=
  fold_left header_mid_step fields None.

(** The callbacks the code after [cleanup] makes for the queues of the
    locals: one for every created row if an event is to be sent, then one
    [MSG_READ] for every read receipt. *)
Definition row_callbacks (l : locals) : list effect :=
  match create_event_to_send l with
  | Some ev => map (fun d => Cb ev (fst d) (snd d)) (pairs (created_db_entries l))
  | None => []
  end.

Definition read_callbacks (l : locals) : list effect :=
  map (fun d => Cb MR_EVENT_MSG_READ (fst d) (snd d)) (pairs (rr_event_to_send l)).

Definition callbacks (tr : list effect) : list effect := filter is_callback tr.


(** The lock and the transaction over a trace, as the store expects them:
    the lock is not taken twice, a transaction is begun under the lock and
    with none open, it is committed or rolled back while open, and the lock
    is released with no transaction open. The result is whether the lock is
    held and a transaction open at the end; [None] is a trace that breaks the
    order. [locked] and [pending] tell how the trace starts. *)
Fixpoint lock_protocol (locked pending : bool) (tr : list effect)
  : option (bool * bool) :=
  match tr with
  | [] => Some (locked, pending)
  | Lock :: r => if locked then None else lock_protocol true pending r
  | Unlock :: r =>
      if (locked && negb pending)%bool then lock_protocol false pending r else None
  | Begin :: r =>
      if (locked && negb pending)%bool then lock_protocol locked true r else None
  | Commit :: r | Rollback :: r =>
      if pending then lock_protocol locked false r else None
  | Cb _ _ _ :: r => lock_protocol locked pending r
  end.

(** *** Misc. *)

(** [mrmailbox_wake_lock]; [None] is the NULL mailbox. *)
Definition mrmailbox_wake_lock (mailbox : option mrmailbox_t) : option mrmailbox_t :=
  match mailbox with
  | None => None
  | Some mailbox =>
      let mailbox :=
        mkMailbox (m_sql mailbox) (m_saved mailbox) (wrap_int (m_wake_lock mailbox + 1))
                  (time_now mailbox) (s_last_smeared_timestamp mailbox)
                  (m_trace mailbox) in
      Some (if m_wake_lock mailbox =? 1
            then m_cb mailbox MR_EVENT_WAKE_LOCK 1 0
            else mailbox)
  end.

(** [mrmailbox_wake_unlock]. *)
Definition mrmailbox_wake_unlock (mailbox : option mrmailbox_t) : option mrmailbox_t :=
  match mailbox with
  | None => None
  | Some mailbox =>
      let mailbox :=
        if m_wake_lock mailbox =? 1
        then m_cb mailbox MR_EVENT_WAKE_LOCK 0 0
        else mailbox in
      Some (mkMailbox (m_sql mailbox) (m_saved mailbox)
                      (wrap_int (m_wake_lock mailbox - 1))
                      (time_now mailbox) (s_last_smeared_timestamp mailbox)
                      (m_trace mailbox))
  end.

End Receive.

(** *** Sequences of wake lock calls *)

Inductive wake_call := Wake_lock | Wake_unlock.

Definition wake_step (mailbox : mrmailbox_t) (c : wake_call) : mrmailbox_t :=
  match (match c with
         | Wake_lock => mrmailbox_wake_lock (Some mailbox)
         | Wake_unlock => mrmailbox_wake_unlock (Some mailbox)
         end) with
  | Some m => m
  | None => mailbox
  end.

Definition wake_run (mailbox : mrmailbox_t) (calls : list wake_call) : mrmailbox_t :=
  fold_left wake_step calls mailbox.

(** The events the claim on the wake lock predicts for a sequence of calls
    that starts with the counter at [counter]: [WAKE_LOCK(1)] when a lock
    finds the counter at 0, [WAKE_LOCK(0)] when an unlock finds it at 1. *)
Fixpoint wake_events (counter : Z) (calls : list wake_call) : list effect :=
  match calls with
  | [] => []
  | Wake_lock :: r =>
      (if counter =? 0 then [Cb MR_EVENT_WAKE_LOCK 1 0] else [])
        ++ wake_events (wrap_int (counter + 1)) r
  | Wake_unlock :: r =>
      (if counter =? 1 then [Cb MR_EVENT_WAKE_LOCK 0 0] else [])
        ++ wake_events (wrap_int (counter - 1)) r
  end%list.

(** The counter after a sequence of calls: one up a lock, one down an unlock,
    with no floor at zero. *)
Fixpoint wake_counter (counter : Z) (calls : list wake_call) : Z :=
  match calls with
  | [] => counter
  | Wake_lock :: r => wake_counter (wrap_int (counter + 1)) r
  | Wake_unlock :: r => wake_counter (wrap_int (counter - 1)) r
  end.

(** Calls that pair up: every unlock closes a lock that is open, and all are
    closed at the end. [open] counts the locks open at the start. *)
Fixpoint paired (open : nat) (calls : list wake_call) : bool :=
  match calls with
  | [] => Nat.eqb open 0
  | Wake_lock :: r => paired (S open) r
  | Wake_unlock :: r =>
      match open with
      | O => false
      | S o => paired o r
      end
  end.

(** Wake lock events that take turns: an acquire ([WAKE_LOCK(1)]) only when
    the lock is not held, a release ([WAKE_LOCK(0)]) only when it is, and
    nothing held at the end. *)
Fixpoint alternating (held : bool) (evs : list effect) : bool :=
  match evs with
  | [] => negb held
  | Cb MR_EVENT_WAKE_LOCK 1 0 :: r => negb held && alternating true r
  | Cb MR_EVENT_WAKE_LOCK 0 0 :: r => held && alternating false r
  | _ => false
  end.

(** *** Misc.: resetting the tables *)

(** The tables [mrmailbox_reset_tables] empties that no other function of
    the file reads; what their rows hold does not matter here. *)
Record other_tables := mkOther {
  jobs : list Z;
  acpeerstates : list Z;
  keypairs : list Z
}.

(** [keyname LIKE 'prefix%'] of SQLite, for a prefix that holds no wildcard:
    LIKE does not tell the case of ASCII letters apart. *)
Definition like_prefix (keyname prefix : string) : bool :=
  String.prefix (C.strlower prefix) (C.strlower keyname).

Section Reset.
Context {X : Externals}.

(** [MR_MSG_ID_LAST_SPECIAL] of mrmsg.h (not under src/). *)
Variable MR_MSG_ID_LAST_SPECIAL : Z.

(** The six statements under [bits & 8]:
    [DELETE FROM contacts WHERE id>MR_CONTACT_ID_LAST_SPECIAL;]
    [DELETE FROM chats WHERE id>MR_CHAT_ID_LAST_SPECIAL;]
    [DELETE FROM chats_contacts;]
    [DELETE FROM msgs WHERE id>MR_MSG_ID_LAST_SPECIAL;]
    [DELETE FROM config WHERE keyname LIKE 'imap.%' OR keyname LIKE 'configured%';]
    [DELETE FROM leftgrps;] *)
Definition reset_rows (sql : sqlite3) : sqlite3 :=
  mkSql
    (filter (fun kv => negb (like_prefix (fst kv) "imap."
                             || like_prefix (fst kv) "configured")) (config sql))
    (filter (fun c => negb (MR_CONTACT_ID_LAST_SPECIAL <? c_id c)) (contacts sql))
    (filter (fun c => negb (MR_CHAT_ID_LAST_SPECIAL <? ch_id c)) (chats sql))
    []
    (filter (fun m => negb (MR_MSG_ID_LAST_SPECIAL <? msg_id m)) (msgs sql))
    []
    (io_script sql).

(** [mrmailbox_reset_tables]: the mailbox, the other tables and the value
    returned. The log calls are left out. *)
Definition mrmailbox_reset_tables (ths : mrmailbox_t) (other : other_tables)
  (bits : Z) : mrmailbox_t * other_tables * Z :=
  let ths := mrsqlite3_lock ths in
  let other :=
    if negb (Z.land bits 1 =? 0)
    then mkOther [] (acpeerstates other) (keypairs other) else other in
  let other :=
    if negb (Z.land bits 2 =? 0) then mkOther (jobs other) [] [] else other in
  let ths :=
    if negb (Z.land bits 8 =? 0) then set_sql ths (reset_rows (m_sql ths)) else ths in
  let ths := mrsqlite3_unlock ths in
  let ths := m_cb ths MR_EVENT_MSGS_CHANGED 0 0 in
  (ths, other, 1).

End Reset.

End Mr.

(** ** What the steps keep

    The relations between two states of the rows, of the mailbox and of the
    locals that the statements on [lookup_group_by_grpid__] and on
    [receive_imf] are phrased with. *)

Module Invariants.
Import C Mr.
Open Scope Z_scope.

Section WithExternals.
Context {X : Externals}.

(** Rows that differ in the member lists only. *)
Definition same_but_members (a b : sqlite3) : Prop :=
  config b = config a /\ contacts b = contacts a /\ chats b = chats a /\
  msgs b = msgs a /\ leftgrps b = leftgrps a /\ io_script b = io_script a.

(** The condition to create a group, in the words of the claim. *)
Definition creation_allowed (g : grp_locals) (create_as_needed : bool)
  (group_explicitly_left : bool) (self_addr : string) : Prop :=
  create_as_needed = true /\
  grpname g <> None /\
  X_MrRemoveFromGrp g = None /\
  (group_explicitly_left = false \/
   exists a, X_MrAddToGrp g = Some a /\ strcasecmp_eq self_addr a = true).

(** *** The group id of a header, in the words of the claim

    A Message-ID carries a group id when it reads [Gr.<id>.<more>] with an
    id of 11 bytes; the id ends at the first dot after [Gr.]. *)
Definition group_mid (mid id : string) : Prop :=
  exists more,
    mid = "Gr." ++ id ++ String "."%char more /\
    strlen id = 11%nat /\ strchr id "."%char = None.

Definition no_group_mid (mid : option string) : Prop :=
  forall m id, mid = Some m -> ~ group_mid m id.

(** A list of Message-IDs gives the group id of the first of them that
    carries one. *)
Inductive first_group_mid : list (option string) -> string -> Prop :=
| First_here mid rest id :
    group_mid mid id -> first_group_mid (Some mid :: rest) id
| First_later m rest id :
    no_group_mid m -> first_group_mid rest id -> first_group_mid (m :: rest) id.

(** What each of the four places of a header gives; where a header has a
    field twice, its last one counts. *)
Definition explicit_gives (fields : list (option mailimf_field)) (id : string) : Prop :=
  exists name value,
    last_match is_grpid_header fields
    = Some (Some (MAILIMF_FIELD_OPTIONAL_FIELD (Some (mkOptional (Some name) value)))) /\
    id = safe_strdup value.

Definition message_id_gives (fields : list (option mailimf_field)) (id : string) : Prop :=
  exists mid,
    last_match is_message_id fields
    = Some (Some (MAILIMF_FIELD_MESSAGE_ID (Some (Some mid)))) /\
    group_mid mid id.

Definition in_reply_to_gives (fields : list (option mailimf_field)) (id : string) : Prop :=
  exists mids,
    last_match is_in_reply_to fields
    = Some (Some (MAILIMF_FIELD_IN_REPLY_TO (Some (Some mids)))) /\
    first_group_mid mids id.

Definition references_gives (fields : list (option mailimf_field)) (id : string) : Prop :=
  exists mids,
    last_match is_references fields
    = Some (Some (MAILIMF_FIELD_REFERENCES (Some (Some mids)))) /\
    first_group_mid mids id.

(** The group id of a header by the priority of the claim: that of the
    explicit header; with none there, that of the Message-ID; with none
    there, that of In-Reply-To; with none there, that of References. *)
Definition chosen_grpid (fields : list (option mailimf_field)) (id : string) : Prop :=
  explicit_gives fields id \/
  (forall i, ~ explicit_gives fields i) /\
  (message_id_gives fields id \/
   (forall i, ~ message_id_gives fields i) /\
   (in_reply_to_gives fields id \/
    (forall i, ~ in_reply_to_gives fields i) /\ references_gives fields id)).

(** The rows hold a chat of the group id under the chat id. *)
Definition chat_of_group (sql : sqlite3) (grpid : string) (chat_id : Z) : Prop :=
  exists ch,
    In ch (chats sql) /\ ch_grpid ch = Some grpid /\ to_uint32 (ch_id ch) = chat_id.

(** Rows that agree on the configuration, on whether the store is failing
    and on the messages. *)
Definition sql_kept (a b : sqlite3) : Prop :=
  config b = config a /\ io_error b = io_error a /\ msgs b = msgs a.

(** A step that keeps the saved rows, the clock and [sql_kept], and adds
    nothing to the trace but [CHAT_MODIFIED] callbacks. *)
Definition quiet (a b : mrmailbox_t) : Prop :=
  m_saved b = m_saved a /\ time_now b = time_now a /\
  sql_kept (m_sql a) (m_sql b) /\
  exists extra, m_trace b = (m_trace a ++ extra)%list /\
                forallb is_chat_modified extra = true.

(** The locals the code after [cleanup] reads. *)
Definition ctl_kept (l l' : locals) : Prop :=
  db_locked l' = db_locked l /\
  transaction_pending l' = transaction_pending l /\
  created_db_entries l' = created_db_entries l /\
  create_event_to_send l' = create_event_to_send l /\
  rr_event_to_send l' = rr_event_to_send l.

(** The locals the choice of the event reads. *)
Definition row_kept (l l' : locals) : Prop :=
  incoming l' = incoming l /\
  from_id_blocked l' = from_id_blocked l /\
  chat_id l' = chat_id l /\
  state l' = state l.

(** The state a mail gets with its direction. *)
Definition state_for (flags : Z) (l : locals) : msg_state :=
  if incoming l then (if imap_seen flags then MR_IN_SEEN else MR_IN_FRESH)
  else MR_OUT_DELIVERED.

(** A step that adds nothing to the trace and keeps the saved rows, the
    configuration and whether the store is failing. *)
Definition settled (a b : mrmailbox_t) : Prop :=
  m_saved b = m_saved a /\
  config (m_sql b) = config (m_sql a) /\
  io_error (m_sql b) = io_error (m_sql a) /\
  m_trace b = m_trace a.

(** The locals after [cleanup] reads, but for the queue of created rows. *)
Definition flags_kept (l l' : locals) : Prop :=
  db_locked l' = db_locked l /\
  transaction_pending l' = transaction_pending l /\
  create_event_to_send l' = create_event_to_send l /\
  rr_event_to_send l' = rr_event_to_send l /\
  rfc724_mid l' = rfc724_mid l.

(** What the dedup reads of a row. *)
Definition triple (m : msg) : string * string * Z :=
  (msg_rfc724_mid m, msg_server_folder m, msg_server_uid m).

Definition triples (sql : sqlite3) : list (string * string * Z) :=
  map triple (msgs sql).

Definition lookup_triple (mid : string) (trs : list (string * string * Z))
  : option (string * Z) :=
  match find (fun t => String.eqb (fst (fst t)) mid) trs with
  | Some t => Some (snd (fst t), snd t)
  | None => None
  end.

(** What the loop over the reports keeps of the locals: all but the queue of
    read receipts. *)
Definition report_kept (l l' : locals) : Prop :=
  row_kept l l' /\
  db_locked l' = db_locked l /\
  transaction_pending l' = transaction_pending l /\
  created_db_entries l' = created_db_entries l /\
  create_event_to_send l' = create_event_to_send l.

(** A list of ids that grew at its end, as the walks over the addresses of a
    header let it: what was there is kept in place, what was added is new,
    is there once, and is not 0. *)
Definition grown (ids ids' : list Z) : Prop :=
  exists added,
    ids' = (ids ++ added)%list /\ NoDup added /\
    forall x, In x added -> ~ In x ids /\ x <> 0.

Section Outcome.
Variable ths : mrmailbox_t.
Variable mime_parser : mrmimeparser_t.
Variable server_folder : string.
Variable server_uid : Z.
Variable flags : Z.

Let tb : mrmailbox_t := mrsqlite3_begin_transaction__ (mrsqlite3_lock ths).

(** The mailbox and the locals at [cleanup], by the way taken: no header; no
    part; no Message-ID to be had; the mail is known under the same folder
    and uid; it is known under another (rolled back, then moved); an INSERT
    step fails, at the first row or at a later one; the rows are stored and
    committed. *)
Inductive outcome : mrmailbox_t -> locals -> Prop :=
| O_no_header :
    m_header mime_parser = None ->
    outcome ths locals_init
| O_no_parts fields ths1 ths2 l :
    m_header mime_parser = Some fields ->
    m_parts mime_parser = [] ->
    quiet tb ths1 -> settled ths1 ths2 ->
    triples (m_sql ths2) = triples (m_sql ths1) ->
    db_locked l = true -> created_db_entries l = [] ->
    outcome (mrsqlite3_commit__ ths2) (set_transaction_pending l false)
| O_no_mid fields ths1 l :
    m_header mime_parser = Some fields ->
    header_mid fields = None ->
    quiet tb ths1 ->
    db_locked l = true -> transaction_pending l = true ->
    created_db_entries l = [] -> rr_event_to_send l = [] ->
    outcome ths1 l
| O_known fields ths1 l mid :
    m_header mime_parser = Some fields ->
    m_parts mime_parser <> [] ->
    quiet tb ths1 ->
    (forall m, header_mid fields = Some m -> mid = m) ->
    lookup_triple mid (triples (m_sql ths1)) = Some (server_folder, server_uid) ->
    db_locked l = true -> transaction_pending l = true ->
    created_db_entries l = [] -> rr_event_to_send l = [] ->
    outcome ths1 l
| O_moved fields ths1 l mid old_folder old_uid :
    m_header mime_parser = Some fields ->
    m_parts mime_parser <> [] ->
    quiet tb ths1 ->
    (forall m, header_mid fields = Some m -> mid = m) ->
    lookup_triple mid (triples (m_sql ths1)) = Some (old_folder, old_uid) ->
    (negb (strcmp_eq old_folder server_folder)
     || negb (old_uid =? server_uid))%bool = true ->
    db_locked l = true ->
    created_db_entries l = [] -> rr_event_to_send l = [] ->
    outcome (set_sql (mrsqlite3_rollback__ ths1)
                     (mrmailbox_update_server_uid__
                        (m_sql (mrsqlite3_rollback__ ths1)) mid
                        server_folder server_uid))
            (set_transaction_pending l false)
| O_io_failed fields ths1 ths2 l mid :
    m_header mime_parser = Some fields ->
    m_parts mime_parser <> [] ->
    io_error (m_sql ths) = true ->
    quiet tb ths1 ->
    (forall m, header_mid fields = Some m -> mid = m) ->
    lookup_triple mid (triples (m_sql ths1)) = None ->
    settled ths1 ths2 ->
    db_locked l = true -> transaction_pending l = true ->
    create_event_to_send l = Some MR_EVENT_MSGS_CHANGED ->
    rr_event_to_send l = [] ->
    outcome ths2 l
| O_stored fields ths1 ths2 l mid rest :
    m_header mime_parser = Some fields ->
    m_parts mime_parser <> [] ->
    quiet tb ths1 ->
    (forall m, header_mid fields = Some m -> mid = m) ->
    lookup_triple mid (triples (m_sql ths1)) = None ->
    settled ths1 ths2 ->
    triples (m_sql ths2)
    = (triples (m_sql ths1) ++ (mid, server_folder, server_uid) :: rest)%list ->
    db_locked l = true ->
    created_db_entries l <> [] ->
    create_event_to_send l = claimed_row_event ths flags l ->
    outcome (mrsqlite3_commit__ ths2) (set_transaction_pending l false).

End Outcome.

End WithExternals.

End Invariants.

(** ** Sample values and mails *)

Module Samples.
Import C Mr.
Open Scope Z_scope.

Definition decimal (z : Z) : string := NilZero.string_of_uint (N.to_uint (Z.to_N z)).

(** One choice of the parameters: the reserved ids 1 to 9 with the deaddrop,
    the outgoing deaddrop and the trash as the first three chats, origin
    ranks in the order of the spec, and string functions that leave ASCII
    text as it is. *)
Definition sample_externals : Externals := {|
  MR_CONTACT_ID_LAST_SPECIAL := 9;
  MR_CHAT_ID_DEADDROP := 1;
  MR_CHAT_ID_TO_DEADDROP := 2;
  MR_CHAT_ID_TRASH := 3;
  MR_CHAT_ID_LAST_SPECIAL := 9;
  MR_IMAP_SEEN := 1;
  MR_INVALID_TIMESTAMP := 0;
  MR_MAX_SECONDS_TO_LEND_FROM_FUTURE := 5;
  MR_ORIGIN_INCOMING_UNKNOWN_FROM := 16;
  MR_ORIGIN_INCOMING_CC := 32;
  MR_ORIGIN_INCOMING_TO := 64;
  MR_ORIGIN_INCOMING_REPLY_TO := 256;
  MR_ORIGIN_OUTGOING_BCC := 4096;
  MR_ORIGIN_OUTGOING_CC := 8192;
  MR_ORIGIN_OUTGOING_TO := 16384;
  mr_decode_header_string := fun v => v;
  mr_normalize_name := fun v => v;
  mr_create_incoming_rfc724_mid := fun stamp from_id to_list =>
    match to_list with
    | [] => None
    | _ => Some (decimal stamp ++ "-" ++ decimal from_id ++ "-"
                 ++ decimal (fold_right Z.max 0 to_list) ++ "@stub")
    end;
  mrmsg_get_summarytext_by_raw := fun _ m _ => safe_strdup m;
  mr_ghost_rfc724_mid := fun id => "G@" ++ decimal id;
  mr_ghost_param := fun id => "G=" ++ decimal id;
  MR_CHAT_ID_LAST_SPECIAL_nonneg := Zle_0_pos 9
|}.

#[local] Existing Instance sample_externals.

Definition special_chat (id : Z) : chat := mkChat id MR_CHAT_NORMAL "special" None.
Definition special_msg (id : Z) : msg :=
  mkMsg id "" "" 0 0 0 0 0 MR_MSG_TEXT MR_STATE_UNDEFINED false "" "" "" 0.

Definition self_contact : contact := mkContact 1 "" "me@example.org" 0 false.
Definition alice : contact := mkContact 10 "Alice" "alice@example.org" 16384 false.
Definition bob : contact := mkContact 11 "Bob" "bob@example.org" 16384 false.
Definition mallory : contact := mkContact 12 "Mallory" "mallory@example.org" 16384 true.

(** A store as it is after the account was configured: the last of the
    reserved chats and messages, the own address, three contacts met before
    (one of them blocked). *)
Definition sample_sql : sqlite3 := {|
  config := [("configured_addr", "me@example.org")];
  contacts := [self_contact; alice; bob; mallory];
  chats := [special_chat 9];
  chats_contacts := [];
  msgs := [special_msg 9];
  leftgrps := [];
  io_script := []
|}.

Definition sample_mailbox : mrmailbox_t := {|
  m_sql := sample_sql;
  m_saved := None;
  m_wake_lock := 0;
  time_now := 1500000000;
  s_last_smeared_timestamp := 0;
  m_trace := []
|}.

Definition mb (addr : string) : option mailimf_mailbox := Some (mkMb None addr).
Definition to_ (addr : string) : option mailimf_address :=
  Some (MAILIMF_ADDRESS_MAILBOX (mb addr)).
Definition opt (name value : string) : option mailimf_field :=
  Some (MAILIMF_FIELD_OPTIONAL_FIELD (Some (mkOptional (Some name) (Some value)))).
Definition message_id (mid : string) : option mailimf_field :=
  Some (MAILIMF_FIELD_MESSAGE_ID (Some (Some mid))).
Definition from_ (addrs : list string) : option mailimf_field :=
  Some (MAILIMF_FIELD_FROM (Some (map mb addrs))).
Definition to_field (addrs : list string) : option mailimf_field :=
  Some (MAILIMF_FIELD_TO (Some (map to_ addrs))).
Definition date (stamp : Z) : option mailimf_field :=
  Some (MAILIMF_FIELD_ORIG_DATE (Some stamp)).
Definition text_part (txt : string) : mrmimepart_t :=
  mkPart MR_MSG_TEXT (Some txt) txt "" (Z.of_nat (String.length txt)).

Definition mail (fields : list (option mailimf_field)) (msgr : bool) : mrmimeparser_t :=
  mkParser (Some fields) [text_part "hello"] [] msgr (Some "subject").

(** A mail of Alice to the user, sent by a messenger, that creates a group. *)
Definition group_mail : mrmimeparser_t :=
  mail [Some MAILIMF_FIELD_RETURN_PATH; from_ ["alice@example.org"];
        to_field ["me@example.org"]; message_id "m1@example.org";
        date 1400000000;
        opt "Chat-Group-ID" "abcdefghij1"; opt "Chat-Group-Name" "Team"] true.

(** The same with a member added. *)
Definition group_add_mail : mrmimeparser_t :=
  mail [Some MAILIMF_FIELD_RETURN_PATH; from_ ["alice@example.org"];
        to_field ["me@example.org"; "bob@example.org"]; message_id "m2@example.org";
        date 1400000000;
        opt "Chat-Group-ID" "abcdefghij1"; opt "Chat-Group-Name" "Team";
        opt "Chat-Group-Member-Added" "bob@example.org"] true.

(** A mail of Alice that adds the user to the group again. *)
Definition readd_mail : mrmimeparser_t :=
  mail [Some MAILIMF_FIELD_RETURN_PATH; from_ ["alice@example.org"];
        to_field ["me@example.org"]; message_id "m9@example.org";
        date 1400000000;
        opt "Chat-Group-ID" "abcdefghij1"; opt "Chat-Group-Name" "Team";
        opt "Chat-Group-Member-Added" "me@example.org"] true.

(** The sample store with the scripted results of the INSERT steps to come. *)
Definition with_io_script (ths : mrmailbox_t) (script : list bool) : mrmailbox_t :=
  set_sql ths
    (mkSql (config (m_sql ths)) (contacts (m_sql ths)) (chats (m_sql ths))
           (chats_contacts (m_sql ths)) (msgs (m_sql ths)) (leftgrps (m_sql ths))
           script).

(** The sample mailbox after the user left the group of the sample mails,
    at a moment the next INSERT step fails. *)
Definition left_group_mailbox : mrmailbox_t :=
  set_sql sample_mailbox
    (mkSql (config sample_sql) (contacts sample_sql) (chats sample_sql)
           (chats_contacts sample_sql) (msgs sample_sql) ["abcdefghij1"] [true]).

(** A mail whose From: names the user first and Bob second. *)
Definition two_from_mail : mrmimeparser_t :=
  mail [Some MAILIMF_FIELD_RETURN_PATH;
        from_ ["me@example.org"; "bob@example.org"];
        to_field ["alice@example.org"]; message_id "m3@example.org";
        date 1400000000] false.


(** The mailbox after the group of [group_mail] was created. *)
Definition mailbox_with_group : mrmailbox_t :=
  receive_imf sample_mailbox group_mail "INBOX" 7 0.

Fixpoint repeat_char (c : ascii) (n : nat) : string :=
  match n with
  | O => EmptyString
  | S n' => String c (repeat_char c n')
  end.

Definition name199 : string := repeat_char "a" 199.
Definition name200 : string := repeat_char "a" 200.

(** A mail of Alice that renames the group. *)
Definition rename_mail (name : string) : mrmimeparser_t :=
  mail [Some MAILIMF_FIELD_RETURN_PATH; from_ ["alice@example.org"];
        to_field ["me@example.org"]; message_id "m5@example.org";
        date 1400000100;
        opt "Chat-Group-ID" "abcdefghij1"; opt "Chat-Group-Name" name;
        opt "Chat-Group-Name-Changed" "1"] true.

(** A mail whose From: names Bob first and the user last. *)
Definition self_last_mail : mrmimeparser_t :=
  mail [Some MAILIMF_FIELD_RETURN_PATH;
        from_ ["bob@example.org"; "me@example.org"];
        to_field ["alice@example.org"]; message_id "m6@example.org";
        date 1400000000] false.




(** What [grp_find_or_create] leaves for the mail that creates the group. *)
Definition created_mailbox : mrmailbox_t :=
  match grp_find_or_create sample_mailbox (grp_walk (fld_list group_mail))
                           "abcdefghij1" true 10 with
  | GrpChat m _ _ _ => m
  | GrpReturn m _ => m
  end.

(** A mail of Alice with two parts. *)
Definition two_part_mail : mrmimeparser_t :=
  mkParser
    (Some [Some MAILIMF_FIELD_RETURN_PATH; from_ ["alice@example.org"];
           to_field ["me@example.org"]; message_id "m5@example.org";
           date 1400000000])
    [text_part "hello"; text_part "world"] [] false (Some "subject").

(** A mail of a sender the user never met. *)
Definition stranger_mail : mrmimeparser_t :=
  mail [Some MAILIMF_FIELD_RETURN_PATH; from_ ["eve@example.org"];
        to_field ["me@example.org"]; message_id "m6@example.org";
        date 1400000000] false.

(** A read receipt of Alice for the message [m7@example.org]. *)
Definition mdn_mail : mrmimeparser_t :=
  mkParser
    (Some [Some MAILIMF_FIELD_RETURN_PATH; from_ ["alice@example.org"];
           to_field ["me@example.org"]; message_id "m8@example.org";
           date 1400000000])
    [text_part "read"]
    [Some (mkReport (Some "disposition-notification")
             [None;
              Some (mkReportPart true "disposition-notification"
                      (Some "m7@example.org"))])]
    false (Some "subject").

(** The sample mailbox with a message the user sent and with read receipts
    switched off. *)
Definition mailbox_without_mdns : mrmailbox_t :=
  set_sql sample_mailbox
    (mkSql (("mdns_enabled", "0") :: config sample_sql) (contacts sample_sql)
           (chats sample_sql) (chats_contacts sample_sql)
           (msgs sample_sql
            ++ [mkMsg 10 "m7@example.org" "Sent" 3 10 1 10 1400000000 MR_MSG_TEXT
                      MR_OUT_DELIVERED true "hi" "" "" 2])
           (leftgrps sample_sql) []).

End Samples.

(** * Theorems *)

Module ArmorFacts.
Import C Armor.

Lemma append_empty_r (s : string) : s ++ EmptyString = s.
Proof. induction s as [|c s IH]; simpl; [reflexivity | now rewrite IH]. Qed.

Lemma append_assoc (a b c : string) : (a ++ b) ++ c = a ++ (b ++ c).
Proof. induction a as [|x a IH]; simpl; [reflexivity | now rewrite IH]. Qed.

Lemma unlines_split_lines (s : string) :
  unlines (fst (split_lines s)) (snd (split_lines s)) = s.
Proof.
  induction s as [|c r IH]; simpl; [reflexivity|].
  destruct (split_lines r) as [ls tail]; simpl in IH.
  destruct (Ascii.eqb c LF) eqn:E.
  - apply Ascii.eqb_eq in E; subst c; simpl. now rewrite IH.
  - destruct ls as [|l ls']; simpl in *; now rewrite IH.
Qed.

Lemma scan_walk (p1 : string) : forall line out,
  scan p1 line out =
  match split_lines p1 with
  | ([], _) => (out, None)
  | (l :: ls, tail) => walk ((line ++ l) :: ls) tail out
  end.
Proof.
  induction p1 as [|c r IH]; intros line out; simpl; [reflexivity|].
  pose proof (unlines_split_lines r) as U.
  destruct (split_lines r) as [ls tail] eqn:S; simpl in U.
  destruct (Ascii.eqb c LF) eqn:E.
  - rewrite append_empty_r.
    assert (W : forall o, scan r EmptyString o = walk ls tail o).
    { intro o. rewrite IH. destruct ls; reflexivity. }
    destruct (ret_headerline out).
    + destruct (strspn_all line PGP_WS); [now rewrite U|].
      destruct (strchr line ":"%char) as [[n v]|]; [apply W|].
      simpl. now rewrite U.
    + destruct (is_headerline (dc_trim line)); apply W.
  - rewrite IH. destruct ls as [|l ls']; [reflexivity|].
    now rewrite append_assoc.
Qed.

Lemma header_line_headerline name value out :
  ret_headerline (header_line name value out) = ret_headerline out.
Proof.
  unfold header_line.
  destruct (strcasecmp_eq _ _); [reflexivity|].
  destruct (strcasecmp_eq _ _); reflexivity.
Qed.

Lemma walk_in_headers (ls : list string) tail : forall out h,
  ret_headerline out = Some h ->
  ret_headerline (fst (walk ls tail out)) = Some h /\
  snd (walk ls tail out) = find_body ls tail.
Proof.
  induction ls as [|l ls IH]; intros out h H; simpl; [now split|].
  rewrite H.
  destruct (strspn_all l PGP_WS); [now split|].
  destruct (strchr l ":"%char) as [[n v]|]; [|now split].
  apply IH. now rewrite header_line_headerline.
Qed.

Lemma walk_before_begin (ls : list string) tail : forall out,
  ret_headerline out = None ->
  match find_begin ls with
  | None =>
      ret_headerline (fst (walk ls tail out)) = None /\
      snd (walk ls tail out) = None
  | Some (h, after) =>
      ret_headerline (fst (walk ls tail out)) = Some h /\
      snd (walk ls tail out) = find_body after tail
  end.
Proof.
  induction ls as [|l ls IH]; intros out H; simpl; [now split|].
  rewrite H.
  destruct (is_headerline (dc_trim l)).
  - now apply walk_in_headers.
  - now apply IH.
Qed.

Lemma scan_view (text : string) :
  let r := scan text EmptyString no_slices in
  match split_lines text with
  | (ls, tail) =>
      match find_begin ls with
      | None => ret_headerline (fst r) = None /\ snd r = None
      | Some (h, after) =>
          ret_headerline (fst r) = Some h /\ snd r = find_body after tail
      end
  end.
Proof.
  cbv zeta. rewrite scan_walk.
  destruct (split_lines text) as [ls tail].
  destruct ls as [|l ls]; [now split|].
  exact (walk_before_begin (l :: ls) tail no_slices eq_refl).
Qed.

(** The result, by what the lines of the text hold. *)
Lemma dc_split_armored_data_view (buf : string) :
  let r := dc_split_armored_data (Some buf) true in
  match view (normalised buf) with
  | Block h body =>
      fst r = true /\
      ret_headerline (snd r) = Some h /\
      ret_base64 (snd r) = Some (dc_trim body)
  | _ => fst r = false /\ ret_base64 (snd r) = None
  end.
Proof.
  cbv zeta. unfold dc_split_armored_data, view, normalised.
  cbn [negb].
  pose proof (scan_view (dc_remove_cr_chars (c_str buf))) as V. cbv zeta in V.
  destruct (scan (dc_remove_cr_chars (c_str buf)) EmptyString no_slices)
    as [out base64] eqn:S.
  destruct (split_lines (dc_remove_cr_chars (c_str buf))) as [ls tail].
  simpl fst in V; simpl snd in V.
  assert (B0 : ret_base64 out = None).
  { pose proof (f_equal fst S) as S1. simpl in S1. subst out.
    rewrite scan_walk.
    destruct (split_lines (dc_remove_cr_chars (c_str buf))) as [[|l ls'] tl];
      [reflexivity|].
    assert (W : forall ls0 o, ret_base64 o = None ->
                ret_base64 (fst (walk ls0 tl o)) = None).
    { induction ls0 as [|x xs IH]; intros o Ho; simpl; [exact Ho|].
      destruct (ret_headerline o).
      - destruct (strspn_all x PGP_WS); [exact Ho|].
        destruct (strchr x ":"%char) as [[n v]|]; [|exact Ho].
        apply IH. unfold header_line.
        destruct (strcasecmp_eq _ _); [exact Ho|].
        destruct (strcasecmp_eq _ _); exact Ho.
      - destruct (is_headerline (dc_trim x)); apply IH; exact Ho. }
    apply W. reflexivity. }
  destruct (find_begin ls) as [[h after]|].
  - destruct V as [Vh Vb]. rewrite Vh, Vb.
    destruct (find_body after tail) as [from_body|].
    + destruct (strstr from_body "-----END ") as [[body p1]|].
      * unfold strncmp_prefix.
        destruct (String.prefix (advance 11 h) (advance 9 p1));
          cbn [negb fst snd ret_headerline ret_base64].
        -- repeat split; try congruence; auto.
        -- repeat split; auto.
      * cbn [fst snd]. repeat split; auto.
    + cbn [fst snd]. repeat split; auto.
  - destruct V as [Vh Vb]. rewrite Vh. cbn [fst snd]. repeat split; auto.
Qed.

(** The armor scenario of the spec. *)
Example dc_split_armored_data_scenario :
  dc_split_armored_data (Some scenario_block) true =
    (true, mkSlices (Some "-----BEGIN PGP MESSAGE-----") None
                    (Some "mutual") (Some "AAAA")).
Proof. vm_compute. reflexivity. Qed.

(** *** Reading back a well-formed block *)

Lemma mem_ascii_append c (a b : string) :
  mem_ascii c (a ++ b) = (mem_ascii c a || mem_ascii c b)%bool.
Proof.
  induction a as [|x a IH]; cbn [append mem_ascii]; [reflexivity|].
  now rewrite IH, orb_assoc.
Qed.

Lemma c_str_without_nul (s : string) : mem_ascii NUL s = false -> c_str s = s.
Proof.
  induction s as [|c s IH]; cbn [mem_ascii c_str]; [reflexivity|].
  intros H. apply orb_false_iff in H. destruct H as [Hc Hs].
  rewrite Ascii.eqb_sym, Hc. now rewrite (IH Hs).
Qed.

Lemma remove_cr_without_cr (s : string) :
  mem_ascii CR s = false -> dc_remove_cr_chars s = s.
Proof.
  induction s as [|c s IH]; cbn [mem_ascii dc_remove_cr_chars]; [reflexivity|].
  intros H. apply orb_false_iff in H. destruct H as [Hc Hs].
  rewrite Ascii.eqb_sym, Hc. now rewrite (IH Hs).
Qed.

Lemma strlen_append (a b : string) : strlen (a ++ b) = (strlen a + strlen b)%nat.
Proof.
  unfold strlen. induction a as [|c a IH]; cbn; [reflexivity | now rewrite IH].
Qed.

Lemma advance_append (a b : string) : advance (strlen a) (a ++ b) = b.
Proof. induction a as [|c a IH]; cbn; [reflexivity | exact IH]. Qed.

Lemma prefix_append (a b : string) : String.prefix a (a ++ b) = true.
Proof.
  induction a as [|c a IH]; cbn; [now destruct b|].
  destruct (ascii_dec c c) as [_|N]; [exact IH | now contradiction N].
Qed.

(** One full line in front of the scanning loop. *)
Lemma scan_line (l : string) : forall rest line out,
  mem_ascii LF l = false ->
  scan (l ++ String LF rest) line out =
  match ret_headerline out with
  | None =>
      if is_headerline (dc_trim (line ++ l)) then
        scan rest EmptyString
             (mkSlices (Some (dc_trim (line ++ l))) (ret_setupcodebegin out)
                       (ret_preferencrypt out) (ret_base64 out))
      else scan rest EmptyString out
  | Some _ =>
      if strspn_all (line ++ l) PGP_WS then (out, Some rest)
      else match strchr (line ++ l) ":"%char with
           | None => (out, Some ((line ++ l) ++ String LF rest))
           | Some (name, value) =>
               scan rest EmptyString (header_line name value out)
           end
  end.
Proof.
  induction l as [|c l IH]; intros rest line out H.
  - cbn [append scan]. rewrite Ascii.eqb_refl, append_empty_r. reflexivity.
  - cbn [mem_ascii] in H. apply orb_false_iff in H. destruct H as [Hc Hl].
    cbn [append scan]. rewrite Ascii.eqb_sym, Hc. rewrite (IH _ _ _ Hl).
    rewrite append_assoc. reflexivity.
Qed.

Lemma rtrim_append_kept (s t : string) :
  t <> EmptyString -> dc_rtrim t = t -> dc_rtrim (s ++ t) = s ++ t.
Proof.
  intros Ne Ht. induction s as [|c s IH]; cbn [append dc_rtrim]; [exact Ht|].
  rewrite IH.
  assert (E : String.eqb (s ++ t) EmptyString = false).
  { destruct s; [destruct t; [now contradiction Ne | reflexivity] | reflexivity]. }
  rewrite E, andb_false_r. reflexivity.
Qed.

Lemma trim_begin_line (tag : string) : dc_trim (begin_line tag) = begin_line tag.
Proof.
  unfold dc_trim, begin_line. cbn [append dc_ltrim isspace].
  change (String "-" (String "-" (String "-" (String "-" (String "-"
            (String "B" (String "E" (String "G" (String "I" (String "N"
            (String " " (tag ++ "-----"))))))))))))
    with (("-----BEGIN " ++ tag) ++ "-----").
  apply rtrim_append_kept; [discriminate | reflexivity].
Qed.

Lemma begin_line_is_headerline (tag : string) : is_headerline (begin_line tag) = true.
Proof.
  unfold is_headerline, strncmp_prefix, strncmp_suffix.
  apply andb_true_iff. split.
  - unfold begin_line. apply prefix_append.
  - unfold begin_line. rewrite <- append_assoc.
    rewrite strlen_append.
    replace (strlen ("-----BEGIN " ++ tag) + strlen "-----" - strlen "-----")%nat
      with (strlen ("-----BEGIN " ++ tag)) by lia.
    rewrite advance_append. reflexivity.
Qed.

Lemma prefix_cut (s : string) : forall needle t,
  mem_ascii LF needle = false ->
  String.prefix needle (s ++ String LF t) = true -> String.prefix needle s = true.
Proof.
  induction s as [|x s IH]; intros [|c n] t H; cbn [append String.prefix];
    try reflexivity.
  - cbn [mem_ascii] in H. apply orb_false_iff in H. destruct H as [Hc _].
    apply Ascii.eqb_neq in Hc.
    destruct (ascii_dec c LF) as [E|_]; [|discriminate]. now contradiction Hc.
  - cbn [mem_ascii] in H. apply orb_false_iff in H. destruct H as [_ Hn].
    destruct (ascii_dec c x); [|discriminate]. now apply IH.
Qed.

(** The first occurrence of a marker that holds no line feed, in a text whose
    first lines do not hold the marker. *)
Lemma strstr_skip (body : string) : forall needle tail,
  strstr body needle = None ->
  mem_ascii LF needle = false ->
  String.prefix needle tail = true ->
  strstr (body ++ String LF tail) needle = Some (body ++ String LF EmptyString, tail).
Proof.
  induction body as [|x body IH]; intros needle tail Hn Hlf Hp.
  - cbn [append]. cbn [strstr].
    assert (P0 : String.prefix needle (String LF tail) = false).
    { destruct (String.prefix needle (String LF tail)) eqn:P; [|reflexivity].
      pose proof (prefix_cut EmptyString needle tail Hlf P) as P'.
      cbn [strstr] in Hn. rewrite P' in Hn. discriminate Hn. }
    rewrite P0.
    assert (T : strstr tail needle = Some (EmptyString, tail)).
    { destruct tail; cbn [strstr]; now rewrite Hp. }
    now rewrite T.
  - cbn [append]. cbn [strstr] in *.
    destruct (String.prefix needle (String x body)) eqn:P; [discriminate|].
    assert (P0 : String.prefix needle (String x (body ++ String LF tail)) = false).
    { destruct (String.prefix needle (String x (body ++ String LF tail))) eqn:Q;
        [|reflexivity].
      pose proof (prefix_cut (String x body) needle tail Hlf Q) as P'.
      congruence. }
    rewrite P0.
    destruct (strstr body needle) as [[b a]|] eqn:S; [discriminate|].
    now rewrite (IH needle tail S Hlf Hp).
Qed.

Lemma rtrim_line_feed (s : string) : dc_rtrim (s ++ String LF EmptyString) = dc_rtrim s.
Proof.
  induction s as [|c s IH]; [reflexivity|].
  cbn [append dc_rtrim]. now rewrite IH.
Qed.

Lemma trim_line_feed (s : string) : dc_trim (s ++ String LF EmptyString) = dc_trim s.
Proof.
  unfold dc_trim. induction s as [|c s IH]; [reflexivity|].
  cbn [append dc_ltrim]. destruct (isspace c); [exact IH|].
  exact (rtrim_line_feed (String c s)).
Qed.

Lemma one_line_spec (s : string) :
  one_line s = true ->
  mem_ascii NUL s = false /\ mem_ascii CR s = false /\ mem_ascii LF s = false.
Proof.
  unfold one_line. intros H.
  apply andb_true_iff in H. destruct H as [H H3].
  apply andb_true_iff in H. destruct H as [H1 H2].
  apply negb_true_iff in H1, H2, H3. now repeat split.
Qed.

Lemma header_value_spec (v : string) :
  header_value (Some v) = true ->
  (mem_ascii NUL v = false /\ mem_ascii CR v = false /\ mem_ascii LF v = false) /\
  dc_trim v = v.
Proof.
  unfold header_value. intros H. apply andb_true_iff in H. destruct H as [H1 H2].
  split; [now apply one_line_spec | now apply String.eqb_eq].
Qed.

Lemma scan_setupcode (value : option string) (rest : string) (out : slices) h :
  header_value value = true ->
  ret_headerline out = Some h ->
  scan (armor_header "Passphrase-Begin" value rest) EmptyString out =
  scan rest EmptyString
       (mkSlices (ret_headerline out)
                 (match value with Some v => Some v | None => ret_setupcodebegin out end)
                 (ret_preferencrypt out) (ret_base64 out)).
Proof.
  intros Hv Hh. destruct value as [v|]; [|now destruct out].
  destruct (header_value_spec v Hv) as [(_ & _ & Lf) Tr].
  unfold armor_header. rewrite scan_line
    by (rewrite !mem_ascii_append, Lf; reflexivity).
  rewrite Hh. cbn [append].
  match goal with
  | |- context [strspn_all ?l PGP_WS] => change (strspn_all l PGP_WS) with false
  end.
  match goal with
  | |- context [strchr ?l ?c] =>
      change (strchr l c) with (Some ("Passphrase-Begin", String " " v))
  end.
  cbv iota beta. unfold header_line.
  change (strcasecmp_eq (dc_trim "Passphrase-Begin") "Passphrase-Begin") with true.
  cbv iota.
  change (dc_trim (String " " v)) with (dc_trim v). rewrite Tr, ?Hh. reflexivity.
Qed.

Lemma scan_preferencrypt (value : option string) (rest : string) (out : slices) h :
  header_value value = true ->
  ret_headerline out = Some h ->
  scan (armor_header "Autocrypt-Prefer-Encrypt" value rest) EmptyString out =
  scan rest EmptyString
       (mkSlices (ret_headerline out) (ret_setupcodebegin out)
                 (match value with Some v => Some v | None => ret_preferencrypt out end)
                 (ret_base64 out)).
Proof.
  intros Hv Hh. destruct value as [v|]; [|now destruct out].
  destruct (header_value_spec v Hv) as [(_ & _ & Lf) Tr].
  unfold armor_header. rewrite scan_line
    by (rewrite !mem_ascii_append, Lf; reflexivity).
  rewrite Hh. cbn [append].
  match goal with
  | |- context [strspn_all ?l PGP_WS] => change (strspn_all l PGP_WS) with false
  end.
  match goal with
  | |- context [strchr ?l ?c] =>
      change (strchr l c) with (Some ("Autocrypt-Prefer-Encrypt", String " " v))
  end.
  cbv iota beta. unfold header_line.
  change (strcasecmp_eq (dc_trim "Autocrypt-Prefer-Encrypt") "Passphrase-Begin")
    with false.
  change (strcasecmp_eq (dc_trim "Autocrypt-Prefer-Encrypt")
            "Autocrypt-Prefer-Encrypt") with true.
  cbv iota.
  change (dc_trim (String " " v)) with (dc_trim v). rewrite Tr, ?Hh. reflexivity.
Qed.

Lemma scan_block tag setupcode prefer rest :
  one_line tag = true ->
  header_value setupcode = true -> header_value prefer = true ->
  scan (begin_line tag ++
        String LF (armor_header "Passphrase-Begin" setupcode
                     (armor_header "Autocrypt-Prefer-Encrypt" prefer
                        (String LF rest))))
       EmptyString no_slices
  = (mkSlices (Some (begin_line tag)) setupcode prefer None, Some rest).
Proof.
  intros Ht Hs Hp. destruct (one_line_spec tag Ht) as (_ & _ & Lf).
  rewrite scan_line
    by (unfold begin_line; rewrite !mem_ascii_append, Lf; reflexivity).
  cbn [ret_headerline no_slices append ret_setupcodebegin ret_preferencrypt ret_base64].
  rewrite trim_begin_line, begin_line_is_headerline.
  rewrite (scan_setupcode setupcode _
             (mkSlices (Some (begin_line tag)) None None None)
             (begin_line tag) Hs eq_refl).
  cbn [ret_headerline ret_setupcodebegin ret_preferencrypt ret_base64].
  rewrite (scan_preferencrypt prefer _
             (mkSlices (Some (begin_line tag))
                       (match setupcode with Some v => Some v | None => None end)
                       None None)
             (begin_line tag) Hp eq_refl).
  cbn [ret_headerline ret_setupcodebegin ret_preferencrypt ret_base64 scan].
  rewrite Ascii.eqb_refl. cbn [ret_headerline strspn_all].
  destruct setupcode, prefer; reflexivity.
Qed.

Lemma armor_text_without (c : ascii) tag setupcode prefer body :
  c = NUL \/ c = CR ->
  mem_ascii c tag = false ->
  (forall v, setupcode = Some v -> mem_ascii c v = false) ->
  (forall v, prefer = Some v -> mem_ascii c v = false) ->
  mem_ascii c body = false ->
  mem_ascii c (armor_text tag setupcode prefer body) = false.
Proof.
  intros Hc Ht Hs Hp Hb.
  unfold armor_text, begin_line, end_line, armor_header.
  destruct setupcode as [s|], prefer as [p|];
    repeat (rewrite mem_ascii_append; cbn [mem_ascii append]);
    rewrite ?(Hs s eq_refl), ?(Hp p eq_refl), ?Ht, ?Hb;
    destruct Hc as [-> | ->]; reflexivity.
Qed.

Lemma scan_without_line_feed (p1 : string) : forall line out,
  mem_ascii LF p1 = false -> scan p1 line out = (out, None).
Proof.
  induction p1 as [|c r IH]; intros line out H; [reflexivity|].
  cbn [mem_ascii] in H. apply orb_false_iff in H. destruct H as [Hc Hr].
  cbn [scan]. rewrite Ascii.eqb_sym, Hc. now apply IH.
Qed.

(** Only lines that end in a line feed are read: on a buffer whose text
    holds no line feed, such as a BEGIN line alone, the function fails and
    writes no slice. *)
Theorem dc_split_armored_data_needs_line_feed (buf : string) :
  mem_ascii LF (normalised buf) = false ->
  dc_split_armored_data (Some buf) true = (false, no_slices).
Proof.
  intros H. unfold dc_split_armored_data, normalised in *. cbn [negb].
  rewrite (scan_without_line_feed _ EmptyString no_slices H). reflexivity.
Qed.

(** A BEGIN line without its line feed. *)
Lemma dc_split_armored_data_needs_line_feed_witness :
  dc_split_armored_data (Some "-----BEGIN PGP MESSAGE-----") true = (false, no_slices).
Proof.
  apply (dc_split_armored_data_needs_line_feed "-----BEGIN PGP MESSAGE-----").
  vm_compute. reflexivity.
Defined.

(** [dc_split_armored_data] reads a well-formed block back: for a tag that
    fits on a line, header values that fit on a line and have no white space
    at their ends, and a body without NUL, CR, white space at its ends or END
    marker, the function succeeds on the block made of them and returns the
    BEGIN line, the two header values (NULL for a header that is not there)
    and the body. *)
Theorem dc_split_armored_data_reads_block tag setupcode prefer body :
  one_line tag = true ->
  header_value setupcode = true ->
  header_value prefer = true ->
  armor_body body = true ->
  dc_split_armored_data (Some (armor_text tag setupcode prefer body)) true
  = (true, mkSlices (Some (begin_line tag)) setupcode prefer (Some body)).
Proof.
  intros Ht Hs Hp Hb.
  destruct (one_line_spec tag Ht) as (Tn & Tc & _).
  unfold armor_body in Hb.
  apply andb_true_iff in Hb. destruct Hb as [Hb Hend].
  apply andb_true_iff in Hb. destruct Hb as [Hb Htrim].
  apply andb_true_iff in Hb. destruct Hb as [Bn Bc].
  apply negb_true_iff in Bn, Bc. apply String.eqb_eq in Htrim.
  destruct (strstr body "-----END ") as [[b a]|] eqn:NoEnd; [discriminate Hend|].
  assert (Vs : forall v, setupcode = Some v ->
                 (mem_ascii NUL v = false /\ mem_ascii CR v = false)).
  { intros v E. rewrite E in Hs.
    destruct (header_value_spec v Hs) as [(A & B & _) _]. now split. }
  assert (Vp : forall v, prefer = Some v ->
                 (mem_ascii NUL v = false /\ mem_ascii CR v = false)).
  { intros v E. rewrite E in Hp.
    destruct (header_value_spec v Hp) as [(A & B & _) _]. now split. }
  unfold dc_split_armored_data. cbn [negb].
  rewrite c_str_without_nul
    by (apply armor_text_without;
        [now left | exact Tn | intros v E; apply (Vs v E)
         | intros v E; apply (Vp v E) | exact Bn]).
  rewrite remove_cr_without_cr
    by (apply armor_text_without;
        [now right | exact Tc | intros v E; apply (Vs v E)
         | intros v E; apply (Vp v E) | exact Bc]).
  unfold armor_text. rewrite (scan_block tag setupcode prefer _ Ht Hs Hp).
  cbn [ret_headerline ret_setupcodebegin ret_preferencrypt].
  assert (P : String.prefix "-----END " (end_line tag ++ String LF EmptyString) = true).
  { unfold end_line. rewrite append_assoc. apply prefix_append. }
  rewrite (strstr_skip body "-----END " _ NoEnd eq_refl P).
  assert (T : strncmp_prefix (advance 9 (end_line tag ++ String LF EmptyString))
                             (advance 11 (begin_line tag)) = true).
  { unfold strncmp_prefix, end_line, begin_line. cbn [append advance].
    apply prefix_append. }
  rewrite T. cbn [negb]. rewrite trim_line_feed, Htrim. reflexivity.
Qed.

(** A setup message block with both headers and a body of two lines. *)
Lemma dc_split_armored_data_reads_block_witness :
  dc_split_armored_data
    (Some (armor_text "PGP MESSAGE" (Some "12") (Some "mutual")
             ("AAAA" ++ String LF "BBBB"))) true
  = (true, mkSlices (Some "-----BEGIN PGP MESSAGE-----") (Some "12") (Some "mutual")
                    (Some ("AAAA" ++ String LF "BBBB"))).
Proof.
  apply (dc_split_armored_data_reads_block "PGP MESSAGE" (Some "12") (Some "mutual")
           ("AAAA" ++ String LF "BBBB"));
    vm_compute; reflexivity.
Defined.

(** *** The parts of a block and the tests of the scanning loop *)

Lemma prefix_split (a : string) : forall s,
  String.prefix a s = true -> exists r, s = a ++ r.
Proof.
  induction a as [|c a IH]; intros s H.
  - exists s. reflexivity.
  - destruct s as [|x s]; [discriminate H|].
    cbn [String.prefix] in H. destruct (ascii_dec c x) as [E|_]; [|discriminate H].
    destruct (IH s H) as (r & ->). exists r. now subst.
Qed.

Lemma prefix_iff (a s : string) :
  String.prefix a s = true <-> exists r, s = a ++ r.
Proof.
  split; [apply prefix_split|]. intros (r & ->). apply prefix_append.
Qed.

Lemma advance_suffix (n : nat) : forall s t,
  (n <= strlen s)%nat -> advance n s = t ->
  exists front, s = front ++ t /\ strlen front = n.
Proof.
  induction n as [|n IH]; intros s t L H.
  - exists EmptyString. cbn in H. now subst.
  - destruct s as [|c s]; [cbn in L; lia|].
    cbn [advance] in H. cbn [strlen String.length] in L.
    destruct (IH s t) as (front & E & Lf); [unfold strlen; lia | exact H|].
    exists (String c front). split; [cbn; now rewrite E|].
    unfold strlen in *. cbn [String.length]. now rewrite Lf.
Qed.

Lemma append_cancel_r (a b c : string) : a ++ c = b ++ c -> a = b.
Proof.
  intros H.
  assert (L : strlen a = strlen b).
  { apply (f_equal strlen) in H. rewrite !strlen_append in H. lia. }
  revert b H L. induction a as [|x a IH]; intros [|y b] H L;
    try (cbn in L; discriminate L); [reflexivity|].
  cbn [append] in H. inversion H as [[Hx Hr]]. f_equal.
  apply IH; [exact Hr|]. unfold strlen in *. cbn [String.length] in L. lia.
Qed.

Lemma append_same_length (a : string) : forall b c d,
  a ++ c = b ++ d -> strlen a = strlen b -> a = b /\ c = d.
Proof.
  induction a as [|x a IH]; intros [|y b] c d H L;
    try (cbn in L; discriminate L); [now split|].
  cbn [append] in H. inversion H as [[Hx Hr]].
  destruct (IH b c d Hr) as [-> ->]; [|now split].
  unfold strlen in *. cbn [String.length] in L. lia.
Qed.

Lemma begin_line_inj (t t' : string) : begin_line t = begin_line t' -> t = t'.
Proof.
  unfold begin_line. intros H. cbn [append] in H.
  inversion H as [E]. now apply append_cancel_r in E.
Qed.

(** The test on the header line holds of the lines [-----BEGIN tag-----],
    and of no other. *)
Lemma is_headerline_iff (h : string) :
  is_headerline h = true <-> exists tag, h = begin_line tag.
Proof.
  split; [|intros (tag & ->); apply begin_line_is_headerline].
  unfold is_headerline, strncmp_prefix, strncmp_suffix.
  intros H. apply andb_true_iff in H. destruct H as [P S].
  apply prefix_split in P. destruct P as (rest & ->).
  apply String.eqb_eq in S. rewrite strlen_append in S.
  change (strlen "-----BEGIN ") with 11%nat in S.
  change (strlen "-----") with 5%nat in S.
  destruct (Nat.le_gt_cases 5 (strlen rest)) as [Ge | Lt].
  - replace (11 + strlen rest - 5)%nat with (11 + (strlen rest - 5))%nat in S by lia.
    cbn [append advance Nat.add] in S.
    destruct (advance_suffix (strlen rest - 5) rest "-----") as (tag & E & _);
      [lia | exact S|].
    exists tag. unfold begin_line. now rewrite E.
  - exfalso. unfold strlen in Lt.
    destruct rest as [|c1 [|c2 [|c3 [|c4 [|c5 rest]]]]];
      cbn in S; try discriminate S.
    cbn [String.length] in Lt. lia.
Qed.

Lemma begin_at_find (ls : list string) (tag : string) (after : list string) :
  begin_at ls tag after <-> find_begin ls = Some (begin_line tag, after).
Proof.
  split.
  - intros H. induction H as [l ls tag E | l ls tag after N _ IH]; cbn [find_begin].
    + rewrite E, begin_line_is_headerline. reflexivity.
    + destruct (is_headerline (dc_trim l)) eqn:Hl; [|exact IH].
      apply is_headerline_iff in Hl. destruct Hl as (t & Hl).
      exfalso. exact (N t Hl).
  - revert tag after. induction ls as [|l ls IH]; intros tag after H;
      cbn [find_begin] in H; [discriminate H|].
    destruct (is_headerline (dc_trim l)) eqn:Hl.
    + inversion H as [[E1 E2]]. subst after. now apply Begin_here.
    + apply Begin_later; [|now apply IH].
      intros t E. rewrite E, begin_line_is_headerline in Hl. discriminate Hl.
Qed.

Lemma find_begin_tag (ls : list string) h after :
  find_begin ls = Some (h, after) -> exists tag, h = begin_line tag.
Proof.
  induction ls as [|l ls IH]; cbn [find_begin]; [discriminate|].
  destruct (is_headerline (dc_trim l)) eqn:Hl; [|exact IH].
  intros H. inversion H; subst. now apply is_headerline_iff.
Qed.

Lemma strspn_all_blank (l : string) : strspn_all l PGP_WS = true <-> blank l.
Proof.
  unfold blank. induction l as [|x l IH]; cbn [strspn_all mem_ascii].
  - split; [intros _ c H; discriminate H | reflexivity].
  - rewrite andb_true_iff, IH. split.
    + intros [Hx Hl] c Hc. apply orb_true_iff in Hc. destruct Hc as [E | Hc].
      * apply Ascii.eqb_eq in E. now subst.
      * now apply Hl.
    + intros H. split.
      * apply H. now rewrite Ascii.eqb_refl.
      * intros c Hc. apply H. rewrite Hc. apply orb_true_r.
Qed.

Lemma strchr_colon (l : string) (c : ascii) :
  (exists name value, l = name ++ String c value) <-> strchr l c <> None.
Proof.
  split.
  - intros (name & value & ->). induction name as [|x name IH]; cbn [append strchr].
    + rewrite Ascii.eqb_refl. discriminate.
    + destruct (Ascii.eqb x c); [discriminate|].
      destruct (strchr (name ++ String c value) c) as [[b a]|];
        [discriminate | now contradiction IH].
  - induction l as [|x l IH]; cbn [strchr]; [intros H; now contradiction H|].
    destruct (Ascii.eqb x c) eqn:E.
    + intros _. apply Ascii.eqb_eq in E. subst x. now exists EmptyString, l.
    + destruct (strchr l c) as [[b a]|]; [|intros H; now contradiction H].
      intros _. destruct IH as (name & value & ->); [discriminate|].
      now exists (String x name), value.
Qed.

Lemma body_at_find (ls : list string) (tail from : string) :
  body_at ls tail from <-> find_body ls tail = Some from.
Proof.
  split.
  - intros H. induction H as [l ls tail B | l ls tail NB NC | l ls tail from NB Cn _ IH];
      cbn [find_body].
    + apply strspn_all_blank in B. now rewrite B.
    + destruct (strspn_all l PGP_WS) eqn:B;
        [apply strspn_all_blank in B; contradiction|].
      destruct (strchr l ":"%char) as [[n v]|] eqn:Sc; [|reflexivity].
      exfalso. apply NC. apply strchr_colon. rewrite Sc. discriminate.
    + destruct (strspn_all l PGP_WS) eqn:B;
        [apply strspn_all_blank in B; contradiction|].
      apply strchr_colon in Cn.
      destruct (strchr l ":"%char) as [[n v]|]; [exact IH | now contradiction Cn].
  - revert from. induction ls as [|l ls IH]; intros from H; cbn [find_body] in H;
      [discriminate H|].
    destruct (strspn_all l PGP_WS) eqn:B.
    + inversion H; subst. apply Body_after_blank. now apply strspn_all_blank.
    + assert (NB : ~ blank l)
        by (intros Bl; apply strspn_all_blank in Bl; congruence).
      destruct (strchr l ":"%char) as [[n v]|] eqn:Sc.
      * apply Body_after_header; [exact NB | | now apply IH].
        apply strchr_colon. rewrite Sc. discriminate.
      * inversion H; subst. apply Body_with_line; [exact NB|].
        intros Cn. apply strchr_colon in Cn. now contradiction Cn.
Qed.

Lemma strstr_first (needle : string) : forall hay body p1,
  strstr hay needle = Some (body, p1) ->
  exists rest,
    p1 = needle ++ rest /\ hay = body ++ needle ++ rest /\
    forall b r, hay = b ++ needle ++ r -> (strlen body <= strlen b)%nat.
Proof.
  induction hay as [|x hay IH]; intros body p1 H.
  - cbn [strstr] in H.
    destruct (String.prefix needle EmptyString) eqn:P; [|discriminate H].
    inversion H; subst. apply prefix_split in P. destruct P as (rest & P).
    exists rest. split; [exact P|]. split; [exact P|]. intros b r _. cbn. lia.
  - cbn [strstr] in H.
    destruct (String.prefix needle (String x hay)) eqn:P.
    + inversion H; subst. apply prefix_split in P. destruct P as (rest & P).
      exists rest. split; [exact P|]. split; [exact P|]. intros b r _. cbn. lia.
    + destruct (strstr hay needle) as [[b0 a0]|] eqn:S; [|discriminate H].
      inversion H; subst. destruct (IH b0 p1 eq_refl) as (rest & E1 & E2 & Min).
      exists rest. split; [exact E1|]. split; [cbn [append]; now rewrite <- E2|].
      intros b r E. destruct b as [|y b].
      * exfalso. cbn [append] in E. rewrite E, prefix_append in P. discriminate P.
      * cbn [append] in E. inversion E as [[Ey Er]].
        specialize (Min b r Er). unfold strlen in *. cbn [String.length]. lia.
Qed.

Lemma strstr_none (needle : string) : forall hay,
  strstr hay needle = None -> forall b r, hay <> b ++ needle ++ r.
Proof.
  induction hay as [|x hay IH]; intros H b r E.
  - cbn [strstr] in H.
    destruct (String.prefix needle EmptyString) eqn:P; [discriminate H|].
    destruct b; [|discriminate E]. cbn [append] in E.
    rewrite E, prefix_append in P. discriminate P.
  - cbn [strstr] in H.
    destruct (String.prefix needle (String x hay)) eqn:P; [discriminate H|].
    destruct (strstr hay needle) as [[b0 a0]|] eqn:S; [discriminate H|].
    destruct b as [|y b].
    + cbn [append] in E. rewrite E, prefix_append in P. discriminate P.
    + cbn [append] in E. inversion E as [[Ey Er]]. exact (IH eq_refl b r Er).
Qed.

Lemma end_at_strstr (from body rest : string) :
  end_at from body rest
  <-> strstr from "-----END " = Some (body, "-----END " ++ rest).
Proof.
  unfold end_at. split.
  - intros [E Min].
    destruct (strstr from "-----END ") as [[b0 p1]|] eqn:S.
    + destruct (strstr_first _ _ _ _ S) as (r0 & E1 & E2 & Min0).
      pose proof (Min b0 r0 E2) as L1. pose proof (Min0 body rest E) as L2.
      assert (Lb : strlen body = strlen b0) by lia.
      rewrite E in E2. subst p1.
      destruct (append_same_length _ _ _ _ E2 Lb) as [-> E3].
      now rewrite E3.
    + exfalso. exact (strstr_none _ _ S body rest E).
  - intros S. destruct (strstr_first _ _ _ _ S) as (r0 & E1 & E2 & Min).
    assert (r0 = rest).
    { apply (f_equal (advance 9)) in E1. cbn in E1. now symmetry. }
    subst r0. split; assumption.
Qed.

Lemma closes_prefix (tag rest : string) :
  closes tag rest
  <-> String.prefix (advance 11 (begin_line tag)) (advance 9 ("-----END " ++ rest))
      = true.
Proof.
  unfold closes, begin_line. cbn [append advance].
  rewrite prefix_iff. split; intros (more & E); exists more.
  - rewrite E. fold (append "-----" more). now rewrite append_assoc.
  - rewrite E. fold (append "-----" more). now rewrite append_assoc.
Qed.

(** C1, as amended. On every buffer [dc_split_armored_data] fails exactly
    when no complete line of the text reads [-----BEGIN tag-----] once
    trimmed; or when, behind the first such line, no body starts: no
    complete line is blank or without a colon; or when no [-----END ] comes
    where the body starts; or when the text behind the first [-----END ] does
    not start with the tag and five dashes. An empty body is no failure.
    Where the text has all four parts, the function succeeds and fills the
    header line with the BEGIN line and the base64 slice with the trimmed
    body. *)
Theorem dc_split_armored_data_fails_exactly (buf : string) :
  let r := dc_split_armored_data (Some buf) true in
  let ls := fst (split_lines (normalised buf)) in
  let tail := snd (split_lines (normalised buf)) in
  (fst r = false <->
   (forall tag after, ~ begin_at ls tag after) \/
   (exists tag after,
       begin_at ls tag after /\
       ((forall from, ~ body_at after tail from) \/
        (exists from,
            body_at after tail from /\
            ((forall body rest, ~ end_at from body rest) \/
             (exists body rest, end_at from body rest /\ ~ closes tag rest)))))) /\
  (forall tag after from body rest,
      begin_at ls tag after -> body_at after tail from ->
      end_at from body rest -> closes tag rest ->
      fst r = true /\
      ret_headerline (snd r) = Some (begin_line tag) /\
      ret_base64 (snd r) = Some (dc_trim body)).
Proof.
  intros r ls tail.
  pose proof (dc_split_armored_data_view buf) as V. cbv zeta in V. fold r in V.
  unfold view in V.
  destruct (split_lines (normalised buf)) as [ls0 tail0] eqn:Sp.
  cbn [fst snd] in ls, tail. subst ls tail.
  destruct (find_begin ls0) as [[h after]|] eqn:FB.
  - destruct (find_begin_tag _ _ _ FB) as (tag & ->).
    assert (Bg : begin_at ls0 tag after) by (now apply begin_at_find).
    assert (BgU : forall t a, begin_at ls0 t a -> t = tag /\ a = after).
    { intros t a H. apply begin_at_find in H. rewrite FB in H.
      split; [apply begin_line_inj|]; congruence. }
    destruct (find_body after tail0) as [from|] eqn:FBo.
    + assert (Bo : body_at after tail0 from) by (now apply body_at_find).
      assert (BoU : forall f, body_at after tail0 f -> f = from).
      { intros f H. apply body_at_find in H. congruence. }
      destruct (strstr from "-----END ") as [[body p1]|] eqn:SS.
      * destruct (strstr_first _ _ _ _ SS) as (rest & -> & _ & _).
        assert (En : end_at from body rest) by (now apply end_at_strstr).
        assert (EnU : forall b r1, end_at from b r1 -> b = body /\ r1 = rest).
        { intros b r1 H. apply end_at_strstr in H. rewrite SS in H.
          assert (E1 : b = body) by congruence.
          assert (E2 : "-----END " ++ r1 = "-----END " ++ rest) by congruence.
          split; [exact E1|].
          apply (f_equal (advance 9)) in E2. exact E2. }
        destruct (String.prefix (advance 11 (begin_line tag))
                                (advance 9 ("-----END " ++ rest))) eqn:P.
        -- assert (Cl : closes tag rest) by (now apply closes_prefix).
           destruct V as (V1 & V2 & V3). split.
           ++ split; [intros H; congruence|].
              intros [N | (t & a & B1 & [N | (f & B2 & [N | (b & r0 & B3 & N)])])];
                exfalso.
              ** exact (N _ _ Bg).
              ** destruct (BgU _ _ B1) as [-> ->]. exact (N _ Bo).
              ** destruct (BgU _ _ B1) as [-> ->]. rewrite (BoU _ B2) in N.
                 exact (N _ _ En).
              ** destruct (BgU _ _ B1) as [-> ->]. rewrite (BoU _ B2) in B3.
                 destruct (EnU _ _ B3) as [-> ->]. exact (N Cl).
           ++ intros t a f b r0 B1 B2 B3 B4.
              destruct (BgU _ _ B1) as [-> ->]. rewrite (BoU _ B2) in B3.
              destruct (EnU _ _ B3) as [-> ->]. split; [exact V1|]. split; assumption.
        -- assert (NCl : ~ closes tag rest)
             by (intros Cl; apply closes_prefix in Cl; congruence).
           destruct V as (V1 & V2). split.
           ++ split; [|intros _; exact V1].
              intros _. right. exists tag, after. split; [exact Bg|].
              right. exists from. split; [exact Bo|].
              right. exists body, rest. split; assumption.
           ++ intros t a f b r0 B1 B2 B3 B4. exfalso.
              destruct (BgU _ _ B1) as [-> ->]. rewrite (BoU _ B2) in B3.
              destruct (EnU _ _ B3) as [-> ->]. exact (NCl B4).
      * assert (NEn : forall b r0, ~ end_at from b r0).
        { intros b r0 H. apply end_at_strstr in H. congruence. }
        destruct V as (V1 & V2). split.
        -- split; [|intros _; exact V1].
           intros _. right. exists tag, after. split; [exact Bg|].
           right. exists from. split; [exact Bo|]. left. exact NEn.
        -- intros t a f b r0 B1 B2 B3 B4. exfalso.
           destruct (BgU _ _ B1) as [-> ->]. rewrite (BoU _ B2) in B3.
           exact (NEn _ _ B3).
    + assert (NBo : forall f, ~ body_at after tail0 f).
      { intros f H. apply body_at_find in H. congruence. }
      destruct V as (V1 & V2). split.
      * split; [|intros _; exact V1].
        intros _. right. exists tag, after. split; [exact Bg|]. left. exact NBo.
      * intros t a f b r0 B1 B2 B3 B4. exfalso.
        destruct (BgU _ _ B1) as [-> ->]. exact (NBo _ B2).
  - assert (NBg : forall t a, ~ begin_at ls0 t a).
    { intros t a H. apply begin_at_find in H. congruence. }
    destruct V as (V1 & V2). split.
    + split; [|intros _; exact V1]. intros _. left. exact NBg.
    + intros t a f b r0 B1 B2 B3 B4. exfalso. exact (NBg _ _ B1).
Qed.

(** C1, the claim as stated fails: a block with nothing between the blank
    line and the END line has the pair, the same tag twice and an empty body,
    so the claim has the function fail; the function succeeds with an empty
    base64 slice. *)
Lemma dc_split_armored_data_empty_body_succeeds :
  claimed_failure (normalised empty_block) /\
  begin_at (fst (split_lines (normalised empty_block))) "X"
           [EmptyString; "-----END X-----"] /\
  body_at [EmptyString; "-----END X-----"]
          (snd (split_lines (normalised empty_block)))
          ("-----END X-----" ++ String LF EmptyString) /\
  end_at ("-----END X-----" ++ String LF EmptyString) EmptyString
         ("X-----" ++ String LF EmptyString) /\
  closes "X" ("X-----" ++ String LF EmptyString) /\
  dc_split_armored_data (Some empty_block) true =
    (true, mkSlices (Some "-----BEGIN X-----") None None (Some EmptyString)).
Proof.
  split; [|split; [|split; [|split; [|split]]]].
  - intros tag after from body rest B1 B2 B3 B4.
    apply begin_at_find in B1.
    assert (F1 : find_begin (fst (split_lines (normalised empty_block)))
                 = Some ("-----BEGIN X-----", [EmptyString; "-----END X-----"]))
      by (vm_compute; reflexivity).
    assert (after = [EmptyString; "-----END X-----"]) by congruence. subst after.
    apply body_at_find in B2.
    assert (F2 : find_body [EmptyString; "-----END X-----"]
                           (snd (split_lines (normalised empty_block)))
                 = Some ("-----END X-----" ++ String LF EmptyString))
      by (vm_compute; reflexivity).
    assert (from = "-----END X-----" ++ String LF EmptyString) by congruence.
    subst from. apply end_at_strstr in B3.
    assert (F3 : strstr ("-----END X-----" ++ String LF EmptyString) "-----END "
                 = Some (EmptyString, "-----END X-----" ++ String LF EmptyString))
      by (vm_compute; reflexivity).
    assert (body = EmptyString) by congruence. subst body. reflexivity.
  - apply begin_at_find. vm_compute. reflexivity.
  - apply body_at_find. vm_compute. reflexivity.
  - apply end_at_strstr. vm_compute. reflexivity.
  - exists (String LF EmptyString). reflexivity.
  - vm_compute. reflexivity.
Qed.

(** What stands in the place of the empty body among the causes: with no
    line behind the BEGIN line that a line feed ends, no body starts, and the
    function fails although the END line of the same tag is there. *)
Example dc_split_armored_data_bare_pair_fails :
  begin_at (fst (split_lines (normalised bare_pair))) "X" [] /\
  snd (split_lines (normalised bare_pair)) = "-----END X-----" /\
  (forall from, ~ body_at [] "-----END X-----" from) /\
  fst (dc_split_armored_data (Some bare_pair) true) = false.
Proof.
  split; [|split; [|split]].
  - apply begin_at_find. vm_compute. reflexivity.
  - vm_compute. reflexivity.
  - intros from H. inversion H.
  - vm_compute. reflexivity.
Qed.

End ArmorFacts.


(** ** The wake lock *)

Module WakeFacts.
Import Mr.
Open Scope Z_scope.

Lemma wrap_int_id (z : Z) : int_range z -> wrap_int z = z.
Proof.
  unfold int_range, wrap_int. intros H.
  rewrite Z.mod_small; lia.
Qed.

Lemma wrap_int_range (z : Z) : int_range (wrap_int z).
Proof.
  unfold int_range, wrap_int.
  pose proof (Z.mod_pos_bound (z + 2 ^ 31) (2 ^ 32) ltac:(lia)). lia.
Qed.

(** After an increment the counter is 1 exactly when it was 0. *)
Lemma wrap_succ_is_one (c : Z) :
  int_range c -> (wrap_int (c + 1) =? 1) = (c =? 0).
Proof.
  intros H. unfold int_range in H.
  destruct (Z.eq_dec c (2 ^ 31 - 1)) as [E|E].
  - subst c. reflexivity.
  - rewrite wrap_int_id by (unfold int_range; lia).
    destruct (Z.eqb_spec (c + 1) 1), (Z.eqb_spec c 0); lia.
Qed.

Lemma wake_step_lock (mailbox : mrmailbox_t) :
  int_range (m_wake_lock mailbox) ->
  m_wake_lock (wake_step mailbox Wake_lock) = wrap_int (m_wake_lock mailbox + 1) /\
  m_trace (wake_step mailbox Wake_lock) =
    (m_trace mailbox ++
     (if m_wake_lock mailbox =? 0 then [Cb MR_EVENT_WAKE_LOCK 1 0] else []))%list.
Proof.
  intros H. unfold wake_step, mrmailbox_wake_lock. cbn [m_wake_lock].
  rewrite (wrap_succ_is_one _ H).
  destruct (m_wake_lock mailbox =? 0); cbn; split; try reflexivity.
  now rewrite app_nil_r.
Qed.

Lemma wake_step_unlock (mailbox : mrmailbox_t) :
  m_wake_lock (wake_step mailbox Wake_unlock) = wrap_int (m_wake_lock mailbox - 1) /\
  m_trace (wake_step mailbox Wake_unlock) =
    (m_trace mailbox ++
     (if m_wake_lock mailbox =? 1 then [Cb MR_EVENT_WAKE_LOCK 0 0] else []))%list.
Proof.
  unfold wake_step, mrmailbox_wake_unlock.
  destruct (m_wake_lock mailbox =? 1); cbn; split; try reflexivity.
  now rewrite app_nil_r.
Qed.

(** C10. Over any sequence of [mrmailbox_wake_lock] and
    [mrmailbox_wake_unlock] calls on a mailbox, [WAKE_LOCK(1)] is fired by
    exactly the locks that find the counter at 0 and [WAKE_LOCK(0)] by
    exactly the unlocks that find it at 1; the counter has no floor, so an
    unlock at 0 leaves -1 and the lock after it fires nothing. *)
Theorem wake_lock_events (mailbox : mrmailbox_t) (calls : list wake_call) :
  int_range (m_wake_lock mailbox) ->
  m_trace (wake_run mailbox calls) =
    (m_trace mailbox ++ wake_events (m_wake_lock mailbox) calls)%list /\
  m_wake_lock (wake_run mailbox calls) = wake_counter (m_wake_lock mailbox) calls /\
  (m_wake_lock mailbox = 0 ->
   m_wake_lock (wake_run mailbox [Wake_unlock]) = -1 /\
   m_wake_lock (wake_run mailbox [Wake_unlock; Wake_lock]) = 0 /\
   m_trace (wake_run mailbox [Wake_unlock; Wake_lock]) = m_trace mailbox).
Proof.
  intros H. split; [|split].
  - revert mailbox H. induction calls as [|c r IH]; intros mailbox H.
    + cbn. now rewrite app_nil_r.
    + change (wake_run mailbox (c :: r)) with (wake_run (wake_step mailbox c) r).
      destruct c.
      * destruct (wake_step_lock mailbox H) as [Hc Ht].
        rewrite IH by (rewrite Hc; apply wrap_int_range).
        rewrite Ht, Hc. cbn [wake_events]. now rewrite <- app_assoc.
      * destruct (wake_step_unlock mailbox) as [Hc Ht].
        rewrite IH by (rewrite Hc; apply wrap_int_range).
        rewrite Ht, Hc. cbn [wake_events]. now rewrite <- app_assoc.
  - revert mailbox H. induction calls as [|c r IH]; intros mailbox H.
    + reflexivity.
    + change (wake_run mailbox (c :: r)) with (wake_run (wake_step mailbox c) r).
      destruct c.
      * destruct (wake_step_lock mailbox H) as [Hc _].
        rewrite IH by (rewrite Hc; apply wrap_int_range).
        now rewrite Hc.
      * destruct (wake_step_unlock mailbox) as [Hc _].
        rewrite IH by (rewrite Hc; apply wrap_int_range).
        now rewrite Hc.
  - intros Z0. destruct mailbox as [sql saved w now last tr].
    cbn in Z0. subst w. repeat split.
Qed.

(** A run of the theorem on six calls from a fresh mailbox. *)
Lemma wake_lock_events_witness :
  int_range (m_wake_lock Samples.sample_mailbox) /\
  m_trace (wake_run Samples.sample_mailbox
             [Wake_lock; Wake_lock; Wake_unlock; Wake_unlock; Wake_unlock; Wake_lock])
  = [Cb MR_EVENT_WAKE_LOCK 1 0; Cb MR_EVENT_WAKE_LOCK 0 0].
Proof.
  assert (R : int_range (m_wake_lock Samples.sample_mailbox))
    by (unfold int_range; simpl; lia).
  split; [exact R|].
  exact (proj1 (wake_lock_events Samples.sample_mailbox
                  [Wake_lock; Wake_lock; Wake_unlock; Wake_unlock; Wake_unlock; Wake_lock]
                  R)).
Defined.

Lemma wake_run_paired (calls : list wake_call) : forall (open : nat) mailbox,
  m_wake_lock mailbox = Z.of_nat open ->
  Z.of_nat open + Z.of_nat (List.length calls) < 2 ^ 31 ->
  paired open calls = true ->
  m_wake_lock (wake_run mailbox calls) = 0 /\
  exists evs,
    m_trace (wake_run mailbox calls) = (m_trace mailbox ++ evs)%list /\
    alternating (negb (Nat.eqb open 0)) evs = true.
Proof.
  induction calls as [|c r IH]; intros open mailbox Hc Hb Hp.
  - cbn [paired] in Hp. apply Nat.eqb_eq in Hp. subst open.
    split; [exact Hc|]. exists []. split; [now rewrite app_nil_r | reflexivity].
  - change (wake_run mailbox (c :: r)) with (wake_run (wake_step mailbox c) r).
    cbn [List.length] in Hb.
    assert (R : int_range (m_wake_lock mailbox)) by (unfold int_range; lia).
    destruct c.
    + destruct (wake_step_lock mailbox R) as [C T].
      rewrite wrap_int_id in C by (unfold int_range; lia).
      destruct (IH (S open) (wake_step mailbox Wake_lock)) as (F & evs & E & A).
      * rewrite C, Hc. lia.
      * lia.
      * exact Hp.
      * split; [exact F|]. rewrite E, T, <- app_assoc. eexists. split; [reflexivity|].
        rewrite Hc. destruct open as [|o]; cbn [Nat.eqb negb] in *.
        -- cbn [Z.of_nat Z.eqb app alternating negb andb]. exact A.
        -- replace (Z.of_nat (S o) =? 0) with false
             by (symmetry; apply Z.eqb_neq; lia).
           exact A.
    + destruct open as [|o]; [discriminate Hp|]. cbn [paired] in Hp.
      destruct (wake_step_unlock mailbox) as [C T].
      rewrite wrap_int_id in C by (unfold int_range; lia).
      destruct (IH o (wake_step mailbox Wake_unlock)) as (F & evs & E & A).
      * rewrite C, Hc. lia.
      * lia.
      * exact Hp.
      * split; [exact F|]. rewrite E, T, <- app_assoc. eexists. split; [reflexivity|].
        rewrite Hc. cbn [Nat.eqb negb]. destruct o as [|o'].
        -- cbn [Z.of_nat Pos.of_succ_nat Z.eqb Pos.eqb app alternating andb].
           exact A.
        -- replace (Z.of_nat (S (S o')) =? 1) with false
             by (symmetry; apply Z.eqb_neq; lia).
           exact A.
Qed.

(** Calls that pair up give events that take turns: over any sequence of
    lock and unlock calls in which every unlock closes an open lock and all
    locks are closed at the end, started with the counter at 0 and shorter
    than [2^31], the callback sees acquires and releases strictly in turn,
    starting with an acquire and ending with a release, and the counter is
    back at 0. *)
Theorem wake_lock_paired_calls (mailbox : mrmailbox_t) (calls : list wake_call) :
  m_wake_lock mailbox = 0 ->
  Z.of_nat (List.length calls) < 2 ^ 31 ->
  paired 0 calls = true ->
  m_wake_lock (wake_run mailbox calls) = 0 /\
  exists evs,
    m_trace (wake_run mailbox calls) = (m_trace mailbox ++ evs)%list /\
    alternating false evs = true.
Proof.
  intros Hc Hb Hp.
  destruct (wake_run_paired calls 0 mailbox Hc Hb Hp) as (F & evs & E & A).
  split; [exact F|]. exists evs. split; [exact E | exact A].
Qed.

(** The paired calls theorem on nested and repeated pairs. *)
Lemma wake_lock_paired_calls_witness :
  m_wake_lock
    (wake_run Samples.sample_mailbox
       [Wake_lock; Wake_lock; Wake_unlock; Wake_unlock; Wake_lock; Wake_unlock]) = 0.
Proof.
  refine (proj1 (wake_lock_paired_calls Samples.sample_mailbox
                   [Wake_lock; Wake_lock; Wake_unlock; Wake_unlock; Wake_lock;
                    Wake_unlock] _ _ _)).
  - reflexivity.
  - cbn. lia.
  - reflexivity.
Defined.

End WakeFacts.

(** ** The group resolver *)

Module GroupFacts.
Import C Mr Invariants.
Open Scope Z_scope.

Section WithExternals.
Context {X : Externals}.

Lemma grp_walk_snoc (fields : list (option mailimf_field)) (f : option mailimf_field) :
  grp_walk (fields ++ [f]) = grp_field (grp_walk fields) f.
Proof. unfold grp_walk. now rewrite fold_left_app. Qed.

Lemma last_match_snoc {A : Type} (p : A -> bool) (l : list A) (x : A) :
  last_match p (l ++ [x]) = if p x then Some x else last_match p l.
Proof. unfold last_match. now rewrite rev_app_distr. Qed.

(** A local that every round either sets from the field or leaves alone holds
    what the last setting field gave. *)
Lemma walk_candidate (proj : grp_locals -> option string)
  (p : option mailimf_field -> bool) (val : option mailimf_field -> option string) :
  proj grp_locals_init = None ->
  (forall g f, proj (grp_field g f) = if p f then val f else proj g) ->
  forall fields, proj (grp_walk fields) = candidate p val fields.
Proof.
  intros H0 Hstep fields. induction fields as [|f fields IH] using rev_ind.
  - exact H0.
  - rewrite grp_walk_snoc, Hstep. unfold candidate in *.
    rewrite last_match_snoc. destruct (p f); [reflexivity | exact IH].
Qed.

Ltac field_cases f :=
  destruct f as [[ | d | d | d | d | d | [m|] | [m|] | [m|] | [[[n|] v]|] | ]|];
  try reflexivity.

Ltac name_cases :=
  unfold grp_field;
  repeat match goal with
         | |- context [name_is ?n ?a ?b] => destruct (name_is n a b) eqn:?
         end; try reflexivity; try discriminate.

Lemma grpid1_step g f :
  grpid1 (grp_field g f) = if is_grpid_header f then grpid_header_value f else grpid1 g.
Proof.
  field_cases f. unfold is_grpid_header, grpid_header_value. name_cases.
Qed.

Lemma grpid2_step g f :
  grpid2 (grp_field g f) = if is_message_id f then message_id_value f else grpid2 g.
Proof. field_cases f. name_cases. Qed.

Lemma grpid3_step g f :
  grpid3 (grp_field g f) = if is_in_reply_to f then in_reply_to_value f else grpid3 g.
Proof. field_cases f. name_cases. Qed.

Lemma grpid4_step g f :
  grpid4 (grp_field g f) = if is_references f then references_value f else grpid4 g.
Proof. field_cases f. name_cases. Qed.

Lemma grp_select_claimed (fields : list (option mailimf_field)) :
  grp_select (grp_walk fields) = claimed_grpid fields.
Proof.
  unfold grp_select, claimed_grpid.
  rewrite (walk_candidate grpid1 _ _ eq_refl grpid1_step).
  rewrite (walk_candidate grpid2 _ _ eq_refl grpid2_step).
  rewrite (walk_candidate grpid3 _ _ eq_refl grpid3_step).
  rewrite (walk_candidate grpid4 _ _ eq_refl grpid4_step).
  simpl.
  destruct (candidate is_grpid_header _ _); [reflexivity|].
  destruct (candidate is_message_id _ _); [reflexivity|].
  destruct (candidate is_in_reply_to _ _); [reflexivity|].
  destruct (candidate is_references _ _); reflexivity.
Qed.

Lemma strchr_split (s : string) (c : ascii) (b a : string) :
  strchr s c = Some (b, a) -> s = b ++ String c a.
Proof.
  revert b. induction s as [|x s IH]; intros b H; simpl in H; [discriminate|].
  destruct (Ascii.eqb x c) eqn:E.
  - apply Ascii.eqb_eq in E. inversion H; subst. reflexivity.
  - destruct (strchr s c) as [[b' a']|]; [|discriminate].
    inversion H; subst. simpl. f_equal. now apply IH.
Qed.

(** A Message-ID that yields a group id has the form [Gr.<id>.<more>] with an
    id of [MR_VALID_ID_LEN] bytes. *)
Lemma extract_grpid_form (mid id : string) :
  extract_grpid_from_messageid (Some mid) = Some id ->
  exists more, mid = "Gr." ++ id ++ String "."%char more /\ strlen id = 11%nat.
Proof.
  unfold extract_grpid_from_messageid.
  destruct (Nat.ltb (strlen mid) 8) eqn:Len; [discriminate|].
  apply Nat.ltb_ge in Len.
  destruct mid as [|c0 [|c1 [|c2 rest]]]; try (cbn in Len; lia).
  unfold char_at. cbn [String.get orb].
  destruct (Ascii.eqb c0 "G") eqn:E0; [|discriminate].
  destruct (Ascii.eqb c1 "r") eqn:E1; [|discriminate].
  destruct (Ascii.eqb c2 ".") eqn:E2; [|discriminate].
  apply Ascii.eqb_eq in E0, E1, E2. subst. cbn [negb orb advance].
  destruct (strchr rest ".") as [[b a]|] eqn:S; [|discriminate].
  destruct (Nat.eqb (strlen b) MR_VALID_ID_LEN) eqn:L; [|discriminate].
  cbn [negb]. intros H. inversion H; subst.
  exists a. split.
  - cbn. now rewrite (strchr_split _ _ _ _ S).
  - now apply Nat.eqb_eq in L.
Qed.

(** *** Frames: what the member list functions leave alone *)

Lemma same_but_members_refl a : same_but_members a a.
Proof. repeat split. Qed.

Lemma same_but_members_trans a b c :
  same_but_members a b -> same_but_members b c -> same_but_members a c.
Proof.
  unfold same_but_members. intros (?&?&?&?&?&?) (?&?&?&?&?&?).
  repeat split; congruence.
Qed.

Lemma add_contact_to_chat_frame sql chat_id contact_id :
  same_but_members sql (mrmailbox_add_contact_to_chat__ sql chat_id contact_id).
Proof.
  unfold mrmailbox_add_contact_to_chat__.
  destruct (mrmailbox_is_contact_in_chat__ _ _ _); repeat split.
Qed.

Lemma contact_addr_equals_frame a b id addr :
  same_but_members a b ->
  mrmailbox_contact_addr_equals__ b id addr = mrmailbox_contact_addr_equals__ a id addr.
Proof.
  intros (_&Hc&_). unfold mrmailbox_contact_addr_equals__, find_contact.
  now rewrite Hc.
Qed.

Lemma grp_keeps_frame a b self_addr skip id :
  same_but_members a b -> grp_keeps b self_addr skip id = grp_keeps a self_addr skip id.
Proof.
  intros H. unfold grp_keeps. rewrite (contact_addr_equals_frame a b) by exact H.
  destruct skip; [|reflexivity].
  now rewrite (contact_addr_equals_frame a b) by exact H.
Qed.

Lemma grp_add_to_list_frame to_list : forall sql chat_id self_addr skip,
  same_but_members sql (grp_add_to_list sql chat_id self_addr skip to_list).
Proof.
  unfold grp_add_to_list.
  induction to_list as [|t r IH]; intros sql chat_id self_addr skip; simpl.
  - apply same_but_members_refl.
  - eapply same_but_members_trans; [|apply IH].
    destruct (grp_keeps sql self_addr skip t).
    + apply add_contact_to_chat_frame.
    + apply same_but_members_refl.
Qed.

Lemma grp_recreate_member_list_frame mailbox g chat_id self_addr from_id to_list :
  same_but_members
    (m_sql mailbox)
    (m_sql (grp_recreate_member_list mailbox g chat_id self_addr from_id to_list)).
Proof.
  unfold grp_recreate_member_list. cbn [m_cb emit m_sql set_sql].
  eapply same_but_members_trans; [|apply grp_add_to_list_frame].
  eapply same_but_members_trans;
    [|match goal with
      | |- same_but_members _ (if ?c then _ else _) =>
          destruct c; [apply add_contact_to_chat_frame | apply same_but_members_refl]
      end].
  eapply same_but_members_trans;
    [|match goal with
      | |- same_but_members _ (if ?c then _ else _) =>
          destruct c; [apply add_contact_to_chat_frame | apply same_but_members_refl]
      end].
  repeat split.
Qed.

Lemma existsb_map_same {A : Type} (p : A -> bool) (f : A -> A) (l : list A) :
  (forall x, p (f x) = p x) -> existsb p (map f l) = existsb p l.
Proof.
  intros H. induction l as [|x l IH]; simpl; [reflexivity|]. now rewrite H, IH.
Qed.

Lemma has_group_chat_update_name sql name chat_id grpid :
  has_group_chat (update_chat_name sql name chat_id) grpid = has_group_chat sql grpid.
Proof.
  unfold has_group_chat, update_chat_name. cbn [chats set_chats].
  apply existsb_map_same. intros c. destruct (ch_id c =? chat_id); reflexivity.
Qed.

Lemma has_group_chat_commands mailbox g chat_id recreate grpid :
  has_group_chat (m_sql (fst (grp_commands mailbox g chat_id recreate))) grpid
  = has_group_chat (m_sql mailbox) grpid.
Proof.
  unfold grp_commands.
  destruct (X_MrAddToGrp g), (X_MrRemoveFromGrp g); try reflexivity.
  destruct (X_MrGrpNameChanged g); [|reflexivity].
  destruct (grpname g) as [name|]; [|reflexivity].
  destruct (Nat.ltb (strlen name) 200); [|reflexivity].
  cbn [fst m_cb emit m_sql set_sql]. apply has_group_chat_update_name.
Qed.

Lemma has_group_chat_frame a b grpid :
  same_but_members a b -> has_group_chat b grpid = has_group_chat a grpid.
Proof. intros (_&_&Hc&_). unfold has_group_chat. now rewrite Hc. Qed.

Lemma no_group_chat_select sql grpid :
  has_group_chat sql grpid = false -> select_chat_by_grpid sql grpid = 0.
Proof.
  unfold has_group_chat, select_chat_by_grpid. intros H.
  destruct (find _ (chats sql)) as [c|] eqn:F; [|reflexivity].
  apply find_some in F. destruct F as [Hin Hp].
  assert (E : existsb (fun c => match ch_grpid c with
                                | Some v => String.eqb v grpid
                                | None => false
                                end) (chats sql) = true)
    by (apply existsb_exists; eauto).
  congruence.
Qed.

Lemma grp_should_create_allowed g create_as_needed left self_addr :
  grp_should_create g 0 create_as_needed left self_addr = true
  <-> creation_allowed g create_as_needed left self_addr.
Proof.
  unfold grp_should_create, creation_allowed. cbn [Z.eqb andb].
  destruct create_as_needed, (grpname g), (X_MrRemoveFromGrp g), left,
    (X_MrAddToGrp g) as [a|]; cbn;
    try destruct (strcasecmp_eq self_addr a) eqn:E;
    split; intros H;
    try discriminate; try reflexivity;
    repeat match goal with
           | H : _ /\ _ |- _ => destruct H
           | H : _ \/ _ |- _ => destruct H
           | H : exists _, _ |- _ => destruct H
           end;
    try congruence;
    try (repeat split; try congruence; try (left; reflexivity);
         try (right; eexists; split; [reflexivity | assumption])).
Qed.

(** *** The step of an INSERT statement *)

Lemma insert_step_kept sql sql' :
  insert_step sql = Some sql' ->
  config sql' = config sql /\ contacts sql' = contacts sql /\
  chats sql' = chats sql /\ chats_contacts sql' = chats_contacts sql /\
  msgs sql' = msgs sql /\ leftgrps sql' = leftgrps sql /\
  io_error sql' = io_error sql.
Proof.
  unfold insert_step, io_error. intros H.
  destruct (io_script sql) as [|[|] later] eqn:S; inversion H; subst.
  - rewrite S. repeat split.
  - repeat split.
Qed.

Lemma insert_step_fails sql : insert_step sql = None -> io_error sql = true.
Proof.
  unfold insert_step, io_error.
  destruct (io_script sql) as [|[|] later]; try discriminate. reflexivity.
Qed.

Lemma insert_step_works sql :
  io_error sql = false -> exists sql', insert_step sql = Some sql'.
Proof.
  intros E. destruct (insert_step sql) as [sql'|] eqn:S; [now exists sql'|].
  apply insert_step_fails in S. congruence.
Qed.

Lemma in_update_chat_name sql name chat_id c :
  In c (chats sql) -> ch_name c = name ->
  In c (chats (update_chat_name sql name chat_id)).
Proof.
  intros Hin Hn. unfold update_chat_name. cbn [chats set_chats].
  apply in_map_iff. exists c. split; [|exact Hin].
  destruct (ch_id c =? chat_id); [|reflexivity].
  destruct c as [i t n gid]. cbn in *. now subst.
Qed.

Lemma in_chats_commands mailbox g chat_id recreate c :
  In c (chats (m_sql mailbox)) -> ch_name c = safe_strdup (grpname g) ->
  In c (chats (m_sql (fst (grp_commands mailbox g chat_id recreate)))).
Proof.
  intros Hin Hn. unfold grp_commands.
  destruct (X_MrAddToGrp g), (X_MrRemoveFromGrp g); try exact Hin.
  destruct (X_MrGrpNameChanged g); [|exact Hin].
  destruct (grpname g) as [name|]; [|exact Hin].
  destruct (Nat.ltb (strlen name) 200); [|exact Hin].
  cbn [fst m_cb emit m_sql set_sql]. now apply in_update_chat_name.
Qed.

(** C3, as amended. With a group id in the header and no chat of that id,
    the resolver creates the group chat exactly when creation is allowed, a
    group name is given, no member is removed, the group was not left or the
    added member is the own address, and the INSERT step does not fail; the
    new chat is a group chat with the name and the group id of the header.
    If no chat exists after that and the group was left, the mailbox is as
    it was, and the resolver returns the trash chat when it did not try to
    create the chat, and 0 when it tried and the INSERT step failed. *)
Theorem lookup_group_creates_only_if_allowed (mailbox : mrmailbox_t)
  (mime_parser : mrmimeparser_t) (create_as_needed : bool) (from_id : Z)
  (to_list : list Z) (grpid : string) :
  grp_select (grp_walk (fld_list mime_parser)) = Some grpid ->
  has_group_chat (m_sql mailbox) grpid = false ->
  let g := grp_walk (fld_list mime_parser) in
  let left := mrmailbox_group_explicitly_left__ (m_sql mailbox) grpid in
  let allowed := creation_allowed g create_as_needed left (configured_addr mailbox) in
  let r := lookup_group_by_grpid__ mailbox mime_parser create_as_needed from_id to_list in
  (has_group_chat (m_sql (fst r)) grpid = true <->
   allowed /\ insert_step (m_sql mailbox) <> None) /\
  (has_group_chat (m_sql (fst r)) grpid = true ->
   In (mkChat (next_rowid (map ch_id (chats (m_sql mailbox)))) MR_CHAT_GROUP
              (safe_strdup (grpname g)) (Some grpid))
      (chats (m_sql (fst r)))) /\
  (has_group_chat (m_sql (fst r)) grpid = false -> left = true ->
   fst r = mailbox /\
   (~ allowed -> snd r = MR_CHAT_ID_TRASH) /\
   (allowed -> snd r = 0)).
Proof.
  intros Hsel Hno g left allowed r. subst r allowed. unfold lookup_group_by_grpid__.
  cbv zeta. rewrite Hsel. fold g. unfold grp_find_or_create. cbv zeta.
  rewrite (no_group_chat_select _ _ Hno). cbn [Z.eqb negb andb].
  fold left.
  pose proof (grp_should_create_allowed g create_as_needed left (configured_addr mailbox)) as A.
  destruct (grp_should_create g 0 create_as_needed left (configured_addr mailbox)) eqn:SC.
  - assert (Al : creation_allowed g create_as_needed left (configured_addr mailbox))
      by (now apply A).
    unfold insert_group_chat.
    destruct (insert_step (m_sql mailbox)) as [sql0|] eqn:IS.
    + destruct (insert_step_kept _ _ IS) as (_ & _ & Ch & _).
      rewrite Ch.
      set (rowid := next_rowid (map ch_id (chats (m_sql mailbox)))).
      set (row := mkChat rowid MR_CHAT_GROUP (safe_strdup (grpname g)) (Some grpid)).
      set (sql1 := set_chats sql0 (chats (m_sql mailbox) ++ [row])).
      assert (New : has_group_chat sql1 grpid = true).
      { unfold has_group_chat, sql1. cbn [chats set_chats]. rewrite existsb_app.
        cbn. rewrite String.eqb_refl. now rewrite orb_true_r. }
      assert (Row : In row (chats sql1)).
      { unfold sql1. cbn [chats set_chats]. apply in_or_app. right. now left. }
      destruct (to_uint32 rowid <=? MR_CHAT_ID_LAST_SPECIAL).
      * cbn [fst snd m_sql set_sql]. rewrite New.
        split; [split; [intros _; split; [exact Al | discriminate] | reflexivity]|].
        split; [intros _; exact Row | intros; discriminate].
      * pose proof (has_group_chat_commands (set_sql mailbox sql1) g
                      (to_uint32 rowid) true grpid) as HC.
        pose proof (in_chats_commands (set_sql mailbox sql1) g (to_uint32 rowid)
                      true row Row eq_refl) as HR.
        destruct (grp_commands (set_sql mailbox sql1) g (to_uint32 rowid) true)
          as [mb1 rc] eqn:GC.
        cbn [fst m_sql set_sql] in HC, HR. rewrite New in HC.
        set (fin := if rc
                    then grp_recreate_member_list
                           mb1 g (to_uint32 rowid) (configured_addr mailbox)
                           from_id to_list
                    else mb1).
        assert (Fr : same_but_members (m_sql mb1) (m_sql fin)).
        { unfold fin. destruct rc; [|apply same_but_members_refl].
          apply grp_recreate_member_list_frame. }
        assert (Fin : has_group_chat (m_sql fin) grpid = true)
          by (rewrite (has_group_chat_frame _ _ _ Fr); exact HC).
        assert (RowFin : In row (chats (m_sql fin)))
          by (destruct Fr as (_ & _ & Chs & _); rewrite Chs; exact HR).
        match goal with
        | |- context [if ?c then _ else (_, _)] => destruct c
        end;
          [match goal with
           | |- context [if ?c then (_, 0) else _] => destruct c
           end|];
          cbn [fst snd]; rewrite Fin;
          (split; [split; [intros _; split; [exact Al | discriminate] | reflexivity]|]);
          (split; [intros _; exact RowFin | intros; discriminate]).
    + cbn [fst snd]. rewrite Hno.
      split; [split; [discriminate | intros [_ N]; congruence]|].
      split; [discriminate|]. intros _ _.
      split; [reflexivity|]. split; [intros N; contradiction | reflexivity].
  - assert (NAl : ~ creation_allowed g create_as_needed left (configured_addr mailbox))
      by (intros Al; apply A in Al; discriminate).
    pose proof MR_CHAT_ID_LAST_SPECIAL_nonneg as NN.
    destruct (Z.leb_spec 0 MR_CHAT_ID_LAST_SPECIAL); [|lia].
    cbn [fst snd]. rewrite Hno. split.
    + split; [discriminate | intros [? _]; contradiction].
    + split; [discriminate|]. intros _ L.
      split; [reflexivity|].
      split; [intros _; now rewrite L | intros Al; contradiction].
Qed.

(** C4, as amended. For a group chat that exists and has the sender as a
    member, with neither an Added nor a Removed header: if the Name-Changed
    header is present and the decoded group name is shorter than 200 bytes,
    the chat gets that name and one [CHAT_MODIFIED] event is emitted; a name
    of 200 bytes or more changes nothing. *)
Theorem lookup_group_renames_below_200 (mailbox : mrmailbox_t)
  (mime_parser : mrmimeparser_t) (create_as_needed : bool) (from_id : Z)
  (to_list : list Z) (grpid : string) (chat_id : Z) (name : string) :
  let g := grp_walk (fld_list mime_parser) in
  grp_select g = Some grpid ->
  select_chat_by_grpid (m_sql mailbox) grpid = chat_id ->
  MR_CHAT_ID_LAST_SPECIAL < chat_id ->
  mrmailbox_is_contact_in_chat__ (m_sql mailbox) chat_id from_id = true ->
  X_MrAddToGrp g = None ->
  X_MrRemoveFromGrp g = None ->
  X_MrGrpNameChanged g = true ->
  grpname g = Some name ->
  let r := lookup_group_by_grpid__ mailbox mime_parser create_as_needed from_id to_list in
  ((strlen name < 200)%nat ->
   fst r = m_cb (set_sql mailbox (update_chat_name (m_sql mailbox) name chat_id))
                MR_EVENT_CHAT_MODIFIED chat_id 0 /\
   forall c, In c (chats (m_sql (fst r))) -> ch_id c = chat_id -> ch_name c = name) /\
  ((200 <= strlen name)%nat -> fst r = mailbox).
Proof.
  intros g Hsel Hchat Hsp Hin HA HR HN HG r. subst r.
  pose proof MR_CHAT_ID_LAST_SPECIAL_nonneg as NN.
  unfold lookup_group_by_grpid__. cbv zeta. fold g. rewrite Hsel.
  unfold grp_find_or_create. cbv zeta. rewrite Hchat, Hin.
  assert (Z0 : (chat_id =? 0) = false) by (apply Z.eqb_neq; lia).
  unfold grp_should_create. rewrite Z0. cbn [negb andb].
  assert (LS : (chat_id <=? MR_CHAT_ID_LAST_SPECIAL) = false) by (apply Z.leb_gt; lia).
  rewrite LS. unfold grp_commands. rewrite HA, HR, HN, HG.
  split.
  - intros L. apply Nat.ltb_lt in L. rewrite L.
    assert (E : forall b : bool,
              fst (if b
                   then if 3 <? mrmailbox_get_chat_contact_count__
                                  (m_sql (m_cb (set_sql mailbox
                                                  (update_chat_name (m_sql mailbox) name chat_id))
                                               MR_EVENT_CHAT_MODIFIED chat_id 0)) chat_id
                        then (m_cb (set_sql mailbox
                                      (update_chat_name (m_sql mailbox) name chat_id))
                                   MR_EVENT_CHAT_MODIFIED chat_id 0, 0)
                        else (m_cb (set_sql mailbox
                                      (update_chat_name (m_sql mailbox) name chat_id))
                                   MR_EVENT_CHAT_MODIFIED chat_id 0, chat_id)
                   else (m_cb (set_sql mailbox
                                 (update_chat_name (m_sql mailbox) name chat_id))
                              MR_EVENT_CHAT_MODIFIED chat_id 0, chat_id))
              = m_cb (set_sql mailbox (update_chat_name (m_sql mailbox) name chat_id))
                     MR_EVENT_CHAT_MODIFIED chat_id 0).
    { intros [|]; [|reflexivity]. now destruct (3 <? _). }
    rewrite E. split; [reflexivity|].
    intros c Hc Hid. cbn [m_cb emit m_sql set_sql update_chat_name chats set_chats] in Hc.
    apply in_map_iff in Hc. destruct Hc as (c0 & Hc0 & _).
    destruct (ch_id c0 =? chat_id) eqn:Q.
    + subst c. reflexivity.
    + subst c. apply Z.eqb_neq in Q. contradiction.
  - intros L. apply Nat.ltb_ge in L. rewrite L.
    match goal with
    | |- fst (if ?b then _ else _) = _ => destruct b
    end; [|reflexivity].
    now destruct (3 <? _).
Qed.

(** *** Membership after the member list was rebuilt *)

Lemma existsb_filter {A : Type} (p q : A -> bool) (l : list A) :
  existsb p (filter q l) = existsb (fun x => q x && p x)%bool l.
Proof.
  induction l as [|x l IH]; simpl; [reflexivity|].
  destruct (q x); simpl; now rewrite IH.
Qed.

Lemma existsb_ext {A : Type} (p q : A -> bool) (l : list A) :
  (forall x, p x = q x) -> existsb p l = existsb q l.
Proof.
  intros H. induction l as [|x l IH]; simpl; [reflexivity|]. now rewrite H, IH.
Qed.

Lemma in_chat_after_delete sql chat_id ch c :
  mrmailbox_is_contact_in_chat__ (delete_chat_contacts sql chat_id) ch c
  = (negb (ch =? chat_id) && mrmailbox_is_contact_in_chat__ sql ch c)%bool.
Proof.
  unfold mrmailbox_is_contact_in_chat__, delete_chat_contacts.
  cbn [chats_contacts set_chats_contacts]. rewrite existsb_filter.
  induction (chats_contacts sql) as [|[a b] l IH]; simpl.
  - now rewrite andb_false_r.
  - rewrite IH.
    destruct (Z.eqb_spec a chat_id), (Z.eqb_spec a ch), (Z.eqb_spec ch chat_id);
      simpl; try lia; try reflexivity;
      destruct (b =? c); simpl; try reflexivity.
    all: now rewrite ?andb_false_r, ?andb_true_r.
Qed.

Lemma in_chat_after_add sql chat_id contact_id ch c :
  mrmailbox_is_contact_in_chat__ (mrmailbox_add_contact_to_chat__ sql chat_id contact_id) ch c
  = (mrmailbox_is_contact_in_chat__ sql ch c
     || ((ch =? chat_id) && (c =? contact_id)))%bool.
Proof.
  unfold mrmailbox_add_contact_to_chat__.
  destruct (mrmailbox_is_contact_in_chat__ sql chat_id contact_id) eqn:E.
  - destruct (Z.eqb_spec ch chat_id), (Z.eqb_spec c contact_id); subst; simpl;
      rewrite ?orb_false_r; try reflexivity.
    now rewrite E.
  - unfold mrmailbox_is_contact_in_chat__.
    cbn [chats_contacts set_chats_contacts]. rewrite existsb_app. simpl.
    rewrite orb_false_r. f_equal.
    rewrite (Z.eqb_sym chat_id ch), (Z.eqb_sym contact_id c). reflexivity.
Qed.

Lemma in_chat_after_add_to_list to_list : forall sql chat_id self_addr skip ch c,
  mrmailbox_is_contact_in_chat__ (grp_add_to_list sql chat_id self_addr skip to_list) ch c
  = (mrmailbox_is_contact_in_chat__ sql ch c
     || ((ch =? chat_id)
         && existsb (fun t => (c =? t) && grp_keeps sql self_addr skip t) to_list))%bool.
Proof.
  unfold grp_add_to_list.
  induction to_list as [|t r IH]; intros sql chat_id self_addr skip ch c; simpl.
  - now rewrite andb_false_r, orb_false_r.
  - rewrite IH.
    assert (K : forall x,
              grp_keeps (if grp_keeps sql self_addr skip t
                         then mrmailbox_add_contact_to_chat__ sql chat_id t
                         else sql) self_addr skip x
              = grp_keeps sql self_addr skip x).
    { intros x. apply grp_keeps_frame. destruct (grp_keeps sql self_addr skip t).
      - apply add_contact_to_chat_frame.
      - apply same_but_members_refl. }
    rewrite (existsb_ext _ _ _ (fun x => f_equal (andb (c =? x)) (K x))).
    destruct (grp_keeps sql self_addr skip t).
    + rewrite in_chat_after_add.
      destruct (mrmailbox_is_contact_in_chat__ sql ch c), (ch =? chat_id), (c =? t);
        reflexivity.
    + destruct (mrmailbox_is_contact_in_chat__ sql ch c), (ch =? chat_id), (c =? t);
        reflexivity.
Qed.

(** The members of every chat after [grp_recreate_member_list]. *)
Lemma in_chat_after_recreate mailbox g chat_id self_addr from_id to_list ch c :
  let skip := X_MrRemoveFromGrp g in
  let keeps := grp_keeps (m_sql mailbox) self_addr skip in
  mrmailbox_is_contact_in_chat__
    (m_sql (grp_recreate_member_list mailbox g chat_id self_addr from_id to_list)) ch c
  = ((negb (ch =? chat_id) && mrmailbox_is_contact_in_chat__ (m_sql mailbox) ch c)
     || ((ch =? chat_id)
         && (((c =? MR_CONTACT_ID_SELF)
              && match skip with
                 | None => true
                 | Some a => negb (strcasecmp_eq self_addr a)
                 end)
             || ((c =? from_id) && (MR_CONTACT_ID_LAST_SPECIAL <? from_id)
                 && keeps from_id)
             || existsb (fun t => (c =? t) && keeps t) to_list)))%bool.
Proof.
  intros skip keeps. unfold grp_recreate_member_list.
  cbn [m_cb emit m_sql set_sql]. fold skip.
  set (s0 := delete_chat_contacts (m_sql mailbox) chat_id).
  assert (F0 : same_but_members (m_sql mailbox) s0) by (repeat split).
  set (s1 := if match skip with
                | None => true
                | Some a => negb (strcasecmp_eq self_addr a)
                end
             then mrmailbox_add_contact_to_chat__ s0 chat_id MR_CONTACT_ID_SELF
             else s0).
  assert (F1 : same_but_members (m_sql mailbox) s1).
  { eapply same_but_members_trans; [exact F0|]. unfold s1.
    destruct (match skip with None => true | Some a => _ end).
    - apply add_contact_to_chat_frame.
    - apply same_but_members_refl. }
  set (s2 := if ((MR_CONTACT_ID_LAST_SPECIAL <? from_id)
                 && grp_keeps s1 self_addr skip from_id)%bool
             then mrmailbox_add_contact_to_chat__ s1 chat_id from_id
             else s1).
  assert (F2 : same_but_members (m_sql mailbox) s2).
  { eapply same_but_members_trans; [exact F1|]. unfold s2.
    destruct (_ && _)%bool.
    - apply add_contact_to_chat_frame.
    - apply same_but_members_refl. }
  rewrite in_chat_after_add_to_list.
  rewrite (existsb_ext _ _ _
             (fun x => f_equal (andb (c =? x))
                         (grp_keeps_frame _ _ self_addr skip x F2))).
  fold keeps.
  assert (E2 : mrmailbox_is_contact_in_chat__ s2 ch c
               = (mrmailbox_is_contact_in_chat__ s1 ch c
                  || ((ch =? chat_id) && (c =? from_id)
                      && (MR_CONTACT_ID_LAST_SPECIAL <? from_id)
                      && keeps from_id))%bool).
  { unfold s2. rewrite (grp_keeps_frame _ _ self_addr skip from_id F1). fold keeps.
    destruct (MR_CONTACT_ID_LAST_SPECIAL <? from_id), (keeps from_id); cbn [andb];
      rewrite ?in_chat_after_add, ?andb_false_r, ?andb_true_r, ?orb_false_r;
      reflexivity. }
  assert (E1 : mrmailbox_is_contact_in_chat__ s1 ch c
               = (mrmailbox_is_contact_in_chat__ s0 ch c
                  || ((ch =? chat_id) && (c =? MR_CONTACT_ID_SELF)
                      && match skip with
                         | None => true
                         | Some a => negb (strcasecmp_eq self_addr a)
                         end))%bool).
  { unfold s1.
    destruct (match skip with None => true | Some a => _ end);
      rewrite ?in_chat_after_add, ?andb_false_r, ?andb_true_r, ?orb_false_r;
      reflexivity. }
  rewrite E2, E1. unfold s0. rewrite in_chat_after_delete.
  destruct (ch =? chat_id), (mrmailbox_is_contact_in_chat__ (m_sql mailbox) ch c),
    (c =? MR_CONTACT_ID_SELF), (c =? from_id),
    (MR_CONTACT_ID_LAST_SPECIAL <? from_id), (keeps from_id),
    (match skip with None => true | Some a => negb (strcasecmp_eq self_addr a) end),
    (existsb (fun t => (c =? t) && keeps t)%bool to_list);
    reflexivity.
Qed.

Lemma grp_commands_members mailbox g chat_id recreate :
  chats_contacts (m_sql (fst (grp_commands mailbox g chat_id recreate)))
  = chats_contacts (m_sql mailbox) /\
  contacts (m_sql (fst (grp_commands mailbox g chat_id recreate)))
  = contacts (m_sql mailbox).
Proof.
  unfold grp_commands.
  destruct (X_MrAddToGrp g), (X_MrRemoveFromGrp g); try (split; reflexivity).
  destruct (X_MrGrpNameChanged g); [|split; reflexivity].
  destruct (grpname g) as [name|]; [|split; reflexivity].
  destruct (Nat.ltb (strlen name) 200); split; reflexivity.
Qed.

Lemma grp_commands_recreate mailbox g chat_id recreate :
  recreate = true \/ X_MrAddToGrp g <> None \/ X_MrRemoveFromGrp g <> None ->
  snd (grp_commands mailbox g chat_id recreate) = true.
Proof.
  unfold grp_commands. intros H.
  destruct (X_MrAddToGrp g), (X_MrRemoveFromGrp g); try reflexivity.
  destruct H as [H|[H|H]]; try congruence. subst recreate.
  destruct (X_MrGrpNameChanged g); [|reflexivity].
  destruct (grpname g) as [name|]; [|reflexivity].
  destruct (Nat.ltb (strlen name) 200); reflexivity.
Qed.

Lemma grp_find_or_create_self_addr mailbox g grpid create_as_needed from_id
  mailbox1 chat_id self_addr created :
  grp_find_or_create mailbox g grpid create_as_needed from_id
  = GrpChat mailbox1 chat_id self_addr created ->
  self_addr = configured_addr mailbox.
Proof.
  unfold grp_find_or_create. cbv zeta.
  destruct (_ && _)%bool; [discriminate|].
  destruct (grp_should_create _ _ _ _ _).
  - destruct (insert_group_chat _ _ _) as [[sql rowid]|]; [|discriminate].
    destruct (_ <=? _); [discriminate|]. intros H. now inversion H.
  - destruct (_ <=? _); [discriminate|]. intros H. now inversion H.
Qed.

Lemma grp_keeps_spec sql self_addr skip c :
  grp_keeps sql self_addr skip c = true <->
  mrmailbox_contact_addr_equals__ sql c self_addr = false /\
  (forall a, skip = Some a -> mrmailbox_contact_addr_equals__ sql c a = false).
Proof.
  unfold grp_keeps.
  destruct (mrmailbox_contact_addr_equals__ sql c self_addr); cbn [negb andb].
  - split; [discriminate | intros [? _]; discriminate].
  - destruct skip as [a|].
    + destruct (mrmailbox_contact_addr_equals__ sql c a) eqn:E; cbn [negb].
      * split; [discriminate|]. intros [_ H]. specialize (H a eq_refl). congruence.
      * split; [|reflexivity]. intros _. split; [reflexivity|].
        intros a' Ha. inversion Ha; subst. exact E.
    + split; [|reflexivity]. intros _. split; [reflexivity | discriminate].
Qed.

(** C5. Whenever the resolver rebuilds the member list of a chat (the chat
    was just created, or an Added or Removed header is present), the
    members of the chat afterwards are exactly: the user, unless the own
    address is the removed one; the sender, if its id is above the reserved
    ones and its address is neither the own nor the removed one; and every
    id of [to_list] whose address is neither the own nor the removed one.
    Former members are gone, other chats keep their members. *)
Theorem lookup_group_recreates_member_list (mailbox : mrmailbox_t)
  (mime_parser : mrmimeparser_t) (create_as_needed : bool) (from_id : Z)
  (to_list : list Z) (grpid : string) (mailbox1 : mrmailbox_t) (chat_id : Z)
  (self_addr : string) (created : bool) :
  let g := grp_walk (fld_list mime_parser) in
  grp_select g = Some grpid ->
  grp_find_or_create mailbox g grpid create_as_needed from_id
  = GrpChat mailbox1 chat_id self_addr created ->
  created = true \/ X_MrAddToGrp g <> None \/ X_MrRemoveFromGrp g <> None ->
  let r := lookup_group_by_grpid__ mailbox mime_parser create_as_needed from_id to_list in
  let skip := X_MrRemoveFromGrp g in
  let keeps c :=
    mrmailbox_contact_addr_equals__ (m_sql mailbox1) c self_addr = false /\
    (forall a, skip = Some a ->
               mrmailbox_contact_addr_equals__ (m_sql mailbox1) c a = false) in
  self_addr = configured_addr mailbox /\
  (forall c,
     mrmailbox_is_contact_in_chat__ (m_sql (fst r)) chat_id c = true <->
     (c = MR_CONTACT_ID_SELF /\
      (forall a, skip = Some a -> strcasecmp_eq self_addr a = false)) \/
     (c = from_id /\ MR_CONTACT_ID_LAST_SPECIAL < from_id /\ keeps from_id) \/
     (In c to_list /\ keeps c)) /\
  (forall ch c,
     ch <> chat_id ->
     mrmailbox_is_contact_in_chat__ (m_sql (fst r)) ch c
     = mrmailbox_is_contact_in_chat__ (m_sql mailbox1) ch c) /\
  (exists tr, m_trace (fst r) = (tr ++ [Cb MR_EVENT_CHAT_MODIFIED chat_id 0])%list).
Proof.
  intros g Hsel Hfind Hwhy r skip keeps.
  split; [exact (grp_find_or_create_self_addr _ _ _ _ _ _ _ _ _ Hfind)|].
  subst r. unfold lookup_group_by_grpid__. cbv zeta. fold g. rewrite Hsel, Hfind.
  pose proof (grp_commands_members mailbox1 g chat_id created) as [Mcc Mc].
  pose proof (grp_commands_recreate mailbox1 g chat_id created Hwhy) as Rc.
  destruct (grp_commands mailbox1 g chat_id created) as [mb2 rc].
  cbn [fst snd] in Mcc, Mc, Rc. subst rc.
  set (mb3 := grp_recreate_member_list mb2 g chat_id self_addr from_id to_list).
  assert (E : fst (if (Nat.eqb (List.length to_list) 1
                       && negb (m_is_send_by_messenger mime_parser))%bool
                   then if 3 <? mrmailbox_get_chat_contact_count__ (m_sql mb3) chat_id
                        then (mb3, 0) else (mb3, chat_id)
                   else (mb3, chat_id)) = mb3).
  { destruct (_ && _)%bool; [|reflexivity]. now destruct (3 <? _). }
  rewrite E. clear E.
  assert (In2 : forall ch c,
            mrmailbox_is_contact_in_chat__ (m_sql mb2) ch c
            = mrmailbox_is_contact_in_chat__ (m_sql mailbox1) ch c).
  { intros ch c. unfold mrmailbox_is_contact_in_chat__. now rewrite Mcc. }
  assert (K2 : forall c,
            grp_keeps (m_sql mb2) self_addr skip c = true <-> keeps c).
  { intros c. rewrite grp_keeps_spec. unfold keeps.
    unfold mrmailbox_contact_addr_equals__, find_contact. rewrite Mc. tauto. }
  split; [|split].
  - intros c. unfold mb3. rewrite in_chat_after_recreate. fold skip.
    rewrite Z.eqb_refl. cbn [negb andb orb].
    rewrite !orb_true_iff, !andb_true_iff, existsb_exists.
    rewrite Z.eqb_eq, Z.eqb_eq, Z.ltb_lt, K2.
    split.
    + intros [[[Hs Hk]|[[Hf Hl] Hk]]|(t & Ht & Hk)].
      * left. split; [exact Hs|]. intros a Ha. rewrite Ha in Hk.
        now apply negb_true_iff in Hk.
      * right. left. tauto.
      * right. right. apply andb_true_iff in Hk. destruct Hk as [Hc Hk].
        apply Z.eqb_eq in Hc. subst t. split; [exact Ht | now apply K2].
    + intros [[Hs Hk]|[(Hf & Hl & Hk)|[Hin Hk]]].
      * left. left. split; [exact Hs|].
        destruct skip as [a|]; [|reflexivity].
        apply negb_true_iff. now apply Hk.
      * left. right. tauto.
      * right. exists c. split; [exact Hin|].
        apply andb_true_iff. split; [apply Z.eqb_refl | now apply K2].
  - intros ch c Hne. unfold mb3. rewrite in_chat_after_recreate.
    apply Z.eqb_neq in Hne. rewrite Hne. cbn [negb andb orb].
    rewrite orb_false_r. apply In2.
  - exists (m_trace mb2). reflexivity.
Qed.

(** *** Which chat the resolver hands out *)

(** The resolver hands out an ordinary chat only for a group the sender
    belongs to, or for one it has just made: whenever the chat id returned is
    neither 0 nor the trash chat, the header names a group id, the id
    returned lies above the reserved ones, and either the chat of that group
    existed with the sender among its members, or no chat of the group
    existed, creation was asked for and the header gives a group name. *)
Theorem lookup_group_returns_member_chat (mailbox : mrmailbox_t)
  (mime_parser : mrmimeparser_t) (create_as_needed : bool) (from_id : Z)
  (to_list : list Z) :
  let g := grp_walk (fld_list mime_parser) in
  let r := lookup_group_by_grpid__ mailbox mime_parser create_as_needed from_id to_list in
  snd r <> 0 -> snd r <> MR_CHAT_ID_TRASH ->
  exists grpid,
    grp_select g = Some grpid /\
    MR_CHAT_ID_LAST_SPECIAL < snd r /\
    ((select_chat_by_grpid (m_sql mailbox) grpid = snd r /\
      mrmailbox_is_contact_in_chat__ (m_sql mailbox) (snd r) from_id = true) \/
     (select_chat_by_grpid (m_sql mailbox) grpid = 0 /\
      create_as_needed = true /\ grpname g <> None)).
Proof.
  intros g r. subst r. unfold lookup_group_by_grpid__. cbv zeta. fold g.
  destruct (grp_select g) as [grpid|]; [|intros H; now contradiction H].
  unfold grp_find_or_create. cbv zeta.
  set (chat := select_chat_by_grpid (m_sql mailbox) grpid).
  destruct (negb (chat =? 0)
            && negb (mrmailbox_is_contact_in_chat__ (m_sql mailbox) chat from_id))%bool
    eqn:NonMember; [intros H; now contradiction H|].
  set (left := mrmailbox_group_explicitly_left__ (m_sql mailbox) grpid).
  assert (Tail : forall mailbox1 chat1 recreate r,
             r = (let '(mailbox2, recreate2) := grp_commands mailbox1 g chat1 recreate in
                  let mailbox3 :=
                    if recreate2
                    then grp_recreate_member_list mailbox2 g chat1
                           (configured_addr mailbox) from_id to_list
                    else mailbox2 in
                  if (Nat.eqb (List.length to_list) 1
                      && negb (m_is_send_by_messenger mime_parser))%bool
                  then
                    if 3 <? mrmailbox_get_chat_contact_count__ (m_sql mailbox3) chat1
                    then (mailbox3, 0)
                    else (mailbox3, chat1)
                  else (mailbox3, chat1)) ->
             snd r <> 0 -> snd r = chat1).
  { intros mailbox1 chat1 recreate r ->.
    destruct (grp_commands mailbox1 g chat1 recreate) as [mailbox2 recreate2].
    cbv zeta.
    destruct (Nat.eqb (List.length to_list) 1
              && negb (m_is_send_by_messenger mime_parser))%bool; [|reflexivity].
    match goal with |- context [3 <? ?c] => destruct (3 <? c) end;
      [intros H; now contradiction H | reflexivity]. }
  destruct (grp_should_create g chat create_as_needed left (configured_addr mailbox))
    eqn:SC.
  - assert (C0 : chat = 0).
    { unfold grp_should_create in SC. destruct (chat =? 0) eqn:Z0; [|discriminate SC].
      now apply Z.eqb_eq. }
    assert (Al : creation_allowed g create_as_needed left (configured_addr mailbox)).
    { apply grp_should_create_allowed. rewrite <- C0. exact SC. }
    destruct Al as (Cr & Gn & _).
    destruct (insert_group_chat (m_sql mailbox) (safe_strdup (grpname g)) grpid)
      as [[sql rowid]|].
    + destruct (to_uint32 rowid <=? MR_CHAT_ID_LAST_SPECIAL) eqn:Sp.
      * cbn [snd]. destruct left; intros H0 HT; [now contradiction HT|now contradiction H0].
      * intros H0 _. apply Z.leb_gt in Sp.
        match type of H0 with snd ?r <> 0 => rewrite (Tail _ _ _ r eq_refl H0) end.
        exists grpid. split; [reflexivity|]. split; [exact Sp|]. right.
        repeat split; assumption.
    + cbn [snd]. intros H0. rewrite C0 in H0. now contradiction H0.
  - destruct (chat <=? MR_CHAT_ID_LAST_SPECIAL) eqn:Sp.
    + cbn [snd]. destruct left; intros H0 HT; [now contradiction HT|now contradiction H0].
    + intros H0 _. apply Z.leb_gt in Sp.
      match type of H0 with snd ?r <> 0 => rewrite (Tail _ _ _ r eq_refl H0) end.
      exists grpid. split; [reflexivity|]. split; [exact Sp|]. left.
      split; [reflexivity|].
      pose proof MR_CHAT_ID_LAST_SPECIAL_nonneg as NN.
      assert (Z0 : (chat =? 0) = false) by (apply Z.eqb_neq; lia).
      rewrite Z0 in NonMember. cbn [negb andb] in NonMember.
      now apply negb_false_iff in NonMember.
Qed.

(** *** Group ids in Message-IDs *)

Lemma strchr_append (s : string) (c : ascii) (more : string) :
  strchr s c = None -> strchr (s ++ String c more) c = Some (s, more).
Proof.
  induction s as [|x s IH]; cbn [append strchr].
  - intros _. now rewrite Ascii.eqb_refl.
  - destruct (Ascii.eqb x c); [discriminate|].
    destruct (strchr s c) as [[b a]|]; [discriminate|].
    intros _. now rewrite IH.
Qed.

Lemma strchr_before (s : string) (c : ascii) : forall b a,
  strchr s c = Some (b, a) -> strchr b c = None.
Proof.
  induction s as [|x s IH]; intros b a; cbn [strchr]; [discriminate|].
  destruct (Ascii.eqb x c) eqn:E.
  - intros H. inversion H. reflexivity.
  - destruct (strchr s c) as [[b' a']|]; [|discriminate].
    intros H. inversion H; subst. cbn [strchr]. rewrite E.
    now rewrite (IH _ _ eq_refl).
Qed.

(** Which Message-IDs carry a group id: exactly those of the form
    [Gr.<id>.<more>] whose id has [MR_VALID_ID_LEN] bytes and no dot; the id
    is then what [extract_grpid_from_messageid] returns. A NULL Message-ID
    carries none. *)
Theorem extract_grpid_exactly (mid id : string) :
  (extract_grpid_from_messageid (Some mid) = Some id <->
   exists more,
     mid = "Gr." ++ id ++ String "."%char more /\
     strlen id = MR_VALID_ID_LEN /\ strchr id "."%char = None) /\
  extract_grpid_from_messageid None = None.
Proof.
  split; [|reflexivity]. split.
  - intros H. destruct (extract_grpid_form mid id H) as (more & E & L).
    exists more. split; [exact E|]. split; [exact L|].
    subst mid. unfold extract_grpid_from_messageid in H.
    cbn [append advance char_at String.get] in H.
    destruct (Nat.ltb _ 8 || _ || _ || _)%bool; [discriminate|].
    destruct (strchr (id ++ String "."%char more) "."%char) as [[b a]|] eqn:S;
      [|discriminate].
    destruct (negb _); [discriminate|].
    inversion H; subst b. exact (strchr_before _ _ _ _ S).
  - intros (more & -> & L & Nd). unfold extract_grpid_from_messageid.
    cbn [append advance char_at String.get Ascii.eqb Bool.eqb negb orb].
    assert (Len : Nat.ltb (strlen (String "G" (String "r" (String "."
                    (id ++ String "."%char more))))) 8 = false).
    { apply Nat.ltb_ge. unfold strlen. cbn [String.length].
      fold (strlen (id ++ String "."%char more)).
      rewrite ArmorFacts.strlen_append, L.
      unfold MR_VALID_ID_LEN. lia. }
    rewrite Len. cbn [orb].
    rewrite (strchr_append id "."%char more Nd), L. reflexivity.
Qed.

(** *** The group id the resolver works with *)

Lemma extract_grpid_iff (mid id : string) :
  extract_grpid_from_messageid (Some mid) = Some id <-> group_mid mid id.
Proof.
  unfold group_mid. split.
  - intros H. destruct (extract_grpid_form mid id H) as (more & E & L).
    exists more. split; [exact E|]. split; [exact L|].
    subst mid. unfold extract_grpid_from_messageid in H.
    cbn [append advance char_at String.get] in H.
    destruct (Nat.ltb _ 8 || _ || _ || _)%bool; [discriminate|].
    destruct (strchr (id ++ String "."%char more) "."%char) as [[b a]|] eqn:S;
      [|discriminate].
    destruct (negb _); [discriminate|].
    inversion H; subst b. exact (strchr_before _ _ _ _ S).
  - intros (more & -> & L & Nd). unfold extract_grpid_from_messageid.
    cbn [append advance char_at String.get Ascii.eqb Bool.eqb negb orb].
    assert (Len : Nat.ltb (strlen (String "G" (String "r" (String "."
                    (id ++ String "."%char more))))) 8 = false).
    { apply Nat.ltb_ge. unfold strlen. cbn [String.length].
      fold (strlen (id ++ String "."%char more)).
      rewrite ArmorFacts.strlen_append, L. lia. }
    rewrite Len. cbn [orb].
    rewrite (strchr_append id "."%char more Nd), L. reflexivity.
Qed.

Lemma extract_grpid_none (mid : option string) :
  extract_grpid_from_messageid mid = None <-> no_group_mid mid.
Proof.
  unfold no_group_mid. split.
  - intros N m id -> G. apply extract_grpid_iff in G. congruence.
  - intros N. destruct mid as [m|]; [|reflexivity].
    destruct (extract_grpid_from_messageid (Some m)) as [id|] eqn:E; [|reflexivity].
    apply extract_grpid_iff in E. exfalso. exact (N m id eq_refl E).
Qed.

Lemma first_grpid_iff (mids : list (option string)) (id : string) :
  first_grpid mids = Some id <-> first_group_mid mids id.
Proof.
  induction mids as [|m rest IH]; cbn [first_grpid].
  - split; [discriminate | intros H; inversion H].
  - destruct (extract_grpid_from_messageid m) as [g|] eqn:E.
    + destruct m as [mid|]; [|discriminate E].
      apply extract_grpid_iff in E. split.
      * intros H. inversion H; subst. now apply First_here.
      * intros H. inversion H as [? ? ? G | ? ? ? N F]; subst.
        -- f_equal. destruct E as (m1 & E1 & L1 & D1). destruct G as (m2 & E2 & L2 & D2).
           rewrite E1 in E2. cbn [append] in E2. inversion E2 as [E3].
           clear - E3 D1 D2. revert id E3 D2.
           induction g as [|c g IHg]; intros id E3 D2.
           ++ destruct id as [|d id]; [reflexivity|].
              cbn [append] in E3. inversion E3; subst d.
              cbn [strchr] in D2. rewrite Ascii.eqb_refl in D2. discriminate D2.
           ++ cbn [strchr] in D1.
              destruct (Ascii.eqb c "."%char) eqn:Ec; [discriminate D1|].
              destruct id as [|d id].
              ** cbn [append] in E3. inversion E3; subst c.
                 rewrite Ascii.eqb_refl in Ec. discriminate Ec.
              ** cbn [append] in E3. inversion E3; subst d. f_equal.
                 cbn [strchr] in D2. rewrite Ec in D2.
                 apply IHg; [|assumption|].
                 --- destruct (strchr g "."%char) as [[? ?]|]; [discriminate D1|reflexivity].
                 --- destruct (strchr id "."%char) as [[? ?]|]; [discriminate D2|reflexivity].
        -- exfalso. exact (N mid g eq_refl E).
    + apply extract_grpid_none in E. rewrite IH. split.
      * intros H. now apply First_later.
      * intros H. inversion H as [? ? ? G | ? ? ? N F]; subst; [|exact F].
        exfalso. exact (E _ _ eq_refl G).
Qed.

Lemma last_match_sat {A : Type} (p : A -> bool) (l : list A) (x : A) :
  last_match p l = Some x -> p x = true.
Proof. unfold last_match. intros H. now apply find_some in H. Qed.

Lemma explicit_candidate fields id :
  candidate is_grpid_header grpid_header_value fields = Some id
  <-> explicit_gives fields id.
Proof.
  unfold candidate, explicit_gives.
  destruct (last_match is_grpid_header fields) as [f|] eqn:L.
  - pose proof (last_match_sat _ _ _ L) as P.
    destruct f as [[ | | | | | | | | | [[[n|] v]|] | ]|]; try discriminate P.
    cbn [grpid_header_value]. split.
    + intros H. inversion H. now exists n, v.
    + intros (n' & v' & E & ->). inversion E. reflexivity.
  - split; [discriminate | intros (n & v & E & _); discriminate E].
Qed.

Lemma message_id_candidate fields id :
  candidate is_message_id message_id_value fields = Some id
  <-> message_id_gives fields id.
Proof.
  unfold candidate, message_id_gives.
  destruct (last_match is_message_id fields) as [f|] eqn:L.
  - pose proof (last_match_sat _ _ _ L) as P.
    destruct f as [[ | | | | | | [m|] | | | | ]|]; try discriminate P.
    cbn [message_id_value]. split.
    + intros H. destruct m as [mid|]; [|discriminate H].
      exists mid. split; [reflexivity|]. now apply extract_grpid_iff.
    + intros (mid & E & G). inversion E. now apply extract_grpid_iff.
  - split; [discriminate | intros (mid & E & _); discriminate E].
Qed.

Lemma in_reply_to_candidate fields id :
  candidate is_in_reply_to in_reply_to_value fields = Some id
  <-> in_reply_to_gives fields id.
Proof.
  unfold candidate, in_reply_to_gives.
  destruct (last_match is_in_reply_to fields) as [f|] eqn:L.
  - pose proof (last_match_sat _ _ _ L) as P.
    destruct f as [[ | | | | | | | [m|] | | | ]|]; try discriminate P.
    cbn [in_reply_to_value]. unfold get_first_grpid_from_char_clist. split.
    + intros H. destruct m as [mids|]; [|discriminate H].
      exists mids. split; [reflexivity|]. now apply first_grpid_iff.
    + intros (mids & E & G). inversion E. now apply first_grpid_iff.
  - split; [discriminate | intros (mids & E & _); discriminate E].
Qed.

Lemma references_candidate fields id :
  candidate is_references references_value fields = Some id
  <-> references_gives fields id.
Proof.
  unfold candidate, references_gives.
  destruct (last_match is_references fields) as [f|] eqn:L.
  - pose proof (last_match_sat _ _ _ L) as P.
    destruct f as [[ | | | | | | | | [m|] | | ]|]; try discriminate P.
    cbn [references_value]. unfold get_first_grpid_from_char_clist. split.
    + intros H. destruct m as [mids|]; [|discriminate H].
      exists mids. split; [reflexivity|]. now apply first_grpid_iff.
    + intros (mids & E & G). inversion E. now apply first_grpid_iff.
  - split; [discriminate | intros (mids & E & _); discriminate E].
Qed.

Lemma candidate_none (c : option string) (gives : string -> Prop) :
  (forall id, c = Some id <-> gives id) ->
  (c = None <-> forall i, ~ gives i).
Proof.
  intros H. split.
  - intros -> i G. apply H in G. discriminate G.
  - intros N. destruct c as [v|]; [|reflexivity].
    exfalso. apply (N v). now apply H.
Qed.

(** The walk over the header leaves in [grpid] the group id that the claim
    chooses. *)
Lemma grp_select_chosen (fields : list (option mailimf_field)) (id : string) :
  grp_select (grp_walk fields) = Some id <-> chosen_grpid fields id.
Proof.
  rewrite grp_select_claimed. unfold claimed_grpid, chosen_grpid. cbn [first_present].
  pose proof (explicit_candidate fields) as E1.
  pose proof (message_id_candidate fields) as E2.
  pose proof (in_reply_to_candidate fields) as E3.
  pose proof (references_candidate fields) as E4.
  pose proof (candidate_none _ _ E1) as N1.
  pose proof (candidate_none _ _ E2) as N2.
  pose proof (candidate_none _ _ E3) as N3.
  destruct (candidate is_grpid_header grpid_header_value fields) as [c1|].
  { rewrite (E1 id). split; [now left|].
    intros [G | [N _]]; [exact G|]. exfalso. apply (N c1). now apply E1. }
  assert (X1 : forall i, ~ explicit_gives fields i) by (now apply N1).
  destruct (candidate is_message_id message_id_value fields) as [c2|].
  { rewrite (E2 id). split; [intros G; right; split; [exact X1 | now left]|].
    intros [G | [_ [G | [N _]]]]; [now apply X1 in G | exact G|].
    exfalso. apply (N c2). now apply E2. }
  assert (X2 : forall i, ~ message_id_gives fields i) by (now apply N2).
  destruct (candidate is_in_reply_to in_reply_to_value fields) as [c3|].
  { rewrite (E3 id). split.
    - intros G. right. split; [exact X1|]. right. split; [exact X2 | now left].
    - intros [G | [_ [G | [_ [G | [N _]]]]]];
        [now apply X1 in G | now apply X2 in G | exact G|].
      exfalso. apply (N c3). now apply E3. }
  assert (X3 : forall i, ~ in_reply_to_gives fields i) by (now apply N3).
  cbv iota.
  replace (match candidate is_references references_value fields with
           | Some v => Some v
           | None => None
           end)
    with (candidate is_references references_value fields)
    by (destruct (candidate is_references references_value fields); reflexivity).
  rewrite (E4 id). split.
  - intros G. right. split; [exact X1|]. right. split; [exact X2|].
    right. split; [exact X3 | exact G].
  - intros [G | [_ [G | [_ [G | [_ G]]]]]];
      [now apply X1 in G | now apply X2 in G | now apply X3 in G | exact G].
Qed.

Lemma select_chat_found sql grpid :
  select_chat_by_grpid sql grpid <> 0 ->
  chat_of_group sql grpid (select_chat_by_grpid sql grpid).
Proof.
  unfold select_chat_by_grpid, chat_of_group.
  destruct (find _ (chats sql)) as [c|] eqn:F; [|intros H; now contradiction H].
  intros _. apply find_some in F. destruct F as [Hin Hp].
  exists c. split; [exact Hin|]. split; [|reflexivity].
  destruct (ch_grpid c) as [v|]; [|discriminate Hp].
  apply String.eqb_eq in Hp. now subst.
Qed.

Lemma chat_of_group_update_name sql name chat_id grpid c :
  chat_of_group sql grpid c -> chat_of_group (update_chat_name sql name chat_id) grpid c.
Proof.
  intros (ch & Hin & G & I). unfold update_chat_name. cbn [chats set_chats].
  exists (if ch_id ch =? chat_id
          then mkChat (ch_id ch) (ch_type ch) name (ch_grpid ch) else ch).
  split; [apply in_map_iff; now exists ch|].
  destruct (ch_id ch =? chat_id); split; assumption.
Qed.

Lemma chat_of_group_commands mailbox g chat_id recreate grpid c :
  chat_of_group (m_sql mailbox) grpid c ->
  chat_of_group (m_sql (fst (grp_commands mailbox g chat_id recreate))) grpid c.
Proof.
  intros H. unfold grp_commands.
  destruct (X_MrAddToGrp g), (X_MrRemoveFromGrp g); try exact H.
  destruct (X_MrGrpNameChanged g); [|exact H].
  destruct (grpname g) as [name|]; [|exact H].
  destruct (Nat.ltb (strlen name) 200); [|exact H].
  cbn [fst m_cb emit m_sql set_sql]. now apply chat_of_group_update_name.
Qed.

Lemma chat_of_group_frame a b grpid c :
  same_but_members a b -> chat_of_group a grpid c -> chat_of_group b grpid c.
Proof. intros (_ & _ & Hc & _). unfold chat_of_group. now rewrite Hc. Qed.

(** The end of the resolver, from the group commands on: the chat id
    returned is the one it was entered with, or 0; and the chat of the group
    stays in the rows. *)
Lemma grp_tail mailbox1 g chat1 recreate self_addr from_id to_list
  (messenger : bool) grpid :
  let r :=
    let '(mailbox2, recreate2) := grp_commands mailbox1 g chat1 recreate in
    let mailbox3 :=
      if recreate2
      then grp_recreate_member_list mailbox2 g chat1 self_addr from_id to_list
      else mailbox2 in
    if (Nat.eqb (List.length to_list) 1 && negb messenger)%bool
    then
      if 3 <? mrmailbox_get_chat_contact_count__ (m_sql mailbox3) chat1
      then (mailbox3, 0)
      else (mailbox3, chat1)
    else (mailbox3, chat1) in
  (snd r <> 0 -> snd r = chat1) /\
  (messenger = true -> snd r = chat1) /\
  (chat_of_group (m_sql mailbox1) grpid chat1 ->
   chat_of_group (m_sql (fst r)) grpid chat1).
Proof.
  cbv zeta.
  pose proof (chat_of_group_commands mailbox1 g chat1 recreate grpid chat1) as K.
  destruct (grp_commands mailbox1 g chat1 recreate) as [mailbox2 recreate2].
  cbn [fst] in K.
  set (mailbox3 := if recreate2
                   then grp_recreate_member_list mailbox2 g chat1 self_addr
                          from_id to_list
                   else mailbox2).
  assert (K3 : chat_of_group (m_sql mailbox1) grpid chat1 ->
               chat_of_group (m_sql mailbox3) grpid chat1).
  { intros H. apply K in H. unfold mailbox3. destruct recreate2; [|exact H].
    eapply chat_of_group_frame; [apply grp_recreate_member_list_frame | exact H]. }
  destruct (Nat.eqb (List.length to_list) 1 && negb messenger)%bool eqn:One.
  - destruct (3 <? mrmailbox_get_chat_contact_count__ (m_sql mailbox3) chat1);
      cbn [fst snd].
    + split; [intros H; now contradiction H|]. split; [|exact K3].
      intros ->. rewrite andb_false_r in One. discriminate One.
    + split; [reflexivity|]. split; [reflexivity | exact K3].
  - cbn [fst snd]. split; [reflexivity|]. split; [reflexivity | exact K3].
Qed.

(** C2. The group id the resolver works with is the one the header gives
    by the priority explicit [Chat-Group-ID]/[X-MrGrpId] header, Message-ID,
    In-Reply-To, References, where a Message-ID gives an id exactly when it
    reads [Gr.<id>.<more>] with [strlen(id) == 11]. With no candidate the
    resolver returns 0 and leaves the mailbox alone. With the id chosen, a
    chat id returned that is not 0 is the trash chat for a group that was
    left, or the id of a chat that the rows then hold under that group id;
    and where the rows hold a chat of the chosen id above the reserved ids
    with the sender as a member, a mail of a messenger gets that chat. *)
Theorem lookup_group_grpid_priority (mailbox : mrmailbox_t)
  (mime_parser : mrmimeparser_t) (create_as_needed : bool) (from_id : Z)
  (to_list : list Z) :
  let fields := fld_list mime_parser in
  let r := lookup_group_by_grpid__ mailbox mime_parser create_as_needed from_id to_list in
  ((forall id, ~ chosen_grpid fields id) -> r = (mailbox, 0)) /\
  (forall id,
     chosen_grpid fields id ->
     (snd r <> 0 ->
      (snd r = MR_CHAT_ID_TRASH /\
       mrmailbox_group_explicitly_left__ (m_sql mailbox) id = true) \/
      chat_of_group (m_sql (fst r)) id (snd r)) /\
     (MR_CHAT_ID_LAST_SPECIAL < select_chat_by_grpid (m_sql mailbox) id ->
      mrmailbox_is_contact_in_chat__
        (m_sql mailbox) (select_chat_by_grpid (m_sql mailbox) id) from_id = true ->
      m_is_send_by_messenger mime_parser = true ->
      snd r = select_chat_by_grpid (m_sql mailbox) id)).
Proof.
  intros fields r. split.
  - intros N. subst r. unfold lookup_group_by_grpid__. cbv zeta. fold fields.
    destruct (grp_select (grp_walk fields)) as [id|] eqn:S; [|reflexivity].
    apply grp_select_chosen in S. exfalso. exact (N id S).
  - intros id Ch. apply grp_select_chosen in Ch.
    pose proof MR_CHAT_ID_LAST_SPECIAL_nonneg as NN.
    subst r. unfold lookup_group_by_grpid__. cbv zeta. fold fields. rewrite Ch.
    set (g := grp_walk fields).
    unfold grp_find_or_create. cbv zeta.
    set (chat := select_chat_by_grpid (m_sql mailbox) id).
    set (left := mrmailbox_group_explicitly_left__ (m_sql mailbox) id).
    destruct (negb (chat =? 0)
              && negb (mrmailbox_is_contact_in_chat__ (m_sql mailbox) chat from_id))%bool
      eqn:NonMember.
    { cbn [fst snd]. split; [intros H; now contradiction H|].
      intros Sp In _. rewrite In in NonMember.
      assert (Z0 : (chat =? 0) = false) by (apply Z.eqb_neq; lia).
      rewrite Z0 in NonMember. discriminate NonMember. }
    destruct (grp_should_create g chat create_as_needed left (configured_addr mailbox))
      eqn:SC.
    + assert (C0 : chat = 0).
      { unfold grp_should_create in SC.
        destruct (chat =? 0) eqn:Z0; [|discriminate SC]. now apply Z.eqb_eq. }
      unfold insert_group_chat.
      destruct (insert_step (m_sql mailbox)) as [sql0|] eqn:IS.
      * set (rowid := next_rowid (map ch_id (chats sql0))).
        set (sql1 := set_chats sql0
                       (chats sql0 ++ [mkChat rowid MR_CHAT_GROUP
                                              (safe_strdup (grpname g)) (Some id)])).
        destruct (to_uint32 rowid <=? MR_CHAT_ID_LAST_SPECIAL) eqn:Sp.
        -- cbn [fst snd]. split; [|intros H; lia].
           destruct left eqn:L; [|intros H; now contradiction H].
           intros _. left. split; reflexivity.
        -- assert (New : chat_of_group (m_sql (set_sql mailbox sql1)) id
                                       (to_uint32 rowid)).
           { exists (mkChat rowid MR_CHAT_GROUP (safe_strdup (grpname g)) (Some id)).
             split; [|split; reflexivity]. unfold sql1. cbn [m_sql set_sql chats set_chats].
             apply in_or_app. right. now left. }
           pose proof (grp_tail (set_sql mailbox sql1) g (to_uint32 rowid) true
                         (configured_addr mailbox) from_id to_list
                         (m_is_send_by_messenger mime_parser) id) as T.
           cbv zeta in T. destruct T as (T1 & _ & T3).
           split; [|intros H; lia].
           intros H0. right. rewrite (T1 H0). exact (T3 New).
      * cbn [fst snd]. split; [intros H; now contradiction H | intros H; lia].
    + destruct (chat <=? MR_CHAT_ID_LAST_SPECIAL) eqn:Sp.
      * cbn [fst snd]. split; [|intros H; apply Z.leb_le in Sp; lia].
        destruct left eqn:L; [|intros H; now contradiction H].
        intros _. left. split; reflexivity.
      * apply Z.leb_gt in Sp.
        assert (Old : chat_of_group (m_sql mailbox) id chat)
          by (apply select_chat_found; fold chat; lia).
        pose proof (grp_tail mailbox g chat false (configured_addr mailbox) from_id
                      to_list (m_is_send_by_messenger mime_parser) id) as T.
        cbv zeta in T. destruct T as (T1 & T2 & T3).
        split.
        -- intros H0. right. rewrite (T1 H0). exact (T3 Old).
        -- intros _ _ Msgr. exact (T2 Msgr).
Qed.

End WithExternals.

End GroupFacts.

(** ** The group resolver on the sample mails *)

Module GroupRuns.
Import C Mr Invariants Samples GroupFacts.
Open Scope Z_scope.
#[local] Existing Instance sample_externals.

(** The group of the sample mail is created: the theorem on creation, at the
    mail of Alice. *)
Lemma lookup_group_creates_only_if_allowed_witness :
  grp_select (grp_walk (fld_list group_mail)) = Some "abcdefghij1" /\
  has_group_chat (m_sql sample_mailbox) "abcdefghij1" = false /\
  has_group_chat
    (m_sql (fst (lookup_group_by_grpid__ sample_mailbox group_mail true 10 [])))
    "abcdefghij1" = true.
Proof.
  assert (H1 : grp_select (grp_walk (fld_list group_mail)) = Some "abcdefghij1")
    by reflexivity.
  assert (H2 : has_group_chat (m_sql sample_mailbox) "abcdefghij1" = false)
    by reflexivity.
  split; [exact H1|]. split; [exact H2|].
  apply (proj1 (lookup_group_creates_only_if_allowed
                  sample_mailbox group_mail true 10 [] "abcdefghij1" H1 H2)).
  split; [|discriminate].
  unfold creation_allowed. split; [reflexivity|]. split; [discriminate|].
  split; [reflexivity|]. left. reflexivity.
Defined.

(** C3, the claim as stated fails: the user left the group and is added
    again, so the resolver tries to create the chat; the INSERT step fails,
    no chat of the group exists afterwards, and the resolver returns 0, not
    the trash chat. *)
Lemma lookup_group_failed_insert_returns_0 :
  let r := lookup_group_by_grpid__ left_group_mailbox readd_mail true 10 [] in
  grp_select (grp_walk (fld_list readd_mail)) = Some "abcdefghij1" /\
  has_group_chat (m_sql left_group_mailbox) "abcdefghij1" = false /\
  mrmailbox_group_explicitly_left__ (m_sql left_group_mailbox) "abcdefghij1" = true /\
  has_group_chat (m_sql (fst r)) "abcdefghij1" = false /\
  snd r = 0 /\ snd r <> MR_CHAT_ID_TRASH.
Proof. cbv zeta. repeat split; vm_compute; congruence. Qed.

(** C4, the claim as stated fails: with a group name of exactly 200 bytes
    the chat is found (id 10) and nothing is changed, neither the name nor
    the trace; a name of 199 bytes is taken. *)
Lemma lookup_group_name_of_200_refused :
  strlen name200 = 200%nat /\
  lookup_group_by_grpid__ mailbox_with_group (rename_mail name200) true 10 []
  = (mailbox_with_group, 10) /\
  map ch_name
    (chats (m_sql (fst (lookup_group_by_grpid__
                          mailbox_with_group (rename_mail name199) true 10 []))))
  = ["special"; name199].
Proof. split; [|split]; vm_compute; reflexivity. Qed.

(** The renaming theorem at the sample mail with a name of 199 bytes. *)
Lemma lookup_group_renames_below_200_witness :
  fst (lookup_group_by_grpid__ mailbox_with_group (rename_mail name199) true 10 [])
  = m_cb (set_sql mailbox_with_group
            (update_chat_name (m_sql mailbox_with_group) name199 10))
         MR_EVENT_CHAT_MODIFIED 10 0.
Proof.
  refine (proj1 (proj1 (lookup_group_renames_below_200
                   mailbox_with_group (rename_mail name199) true 10 []
                   "abcdefghij1" 10 name199 _ _ _ _ _ _ _ _) _)).
  all: vm_compute; reflexivity.
Defined.

(** The member list theorem at the mail that creates the group: the user is
    a member of the new chat. *)
Lemma lookup_group_recreates_member_list_witness :
  mrmailbox_is_contact_in_chat__
    (m_sql (fst (lookup_group_by_grpid__ sample_mailbox group_mail true 10 [])))
    10 MR_CONTACT_ID_SELF = true.
Proof.
  assert (H2 : grp_find_or_create sample_mailbox (grp_walk (fld_list group_mail))
                                  "abcdefghij1" true 10
               = GrpChat created_mailbox 10 "me@example.org" true)
    by (vm_compute; reflexivity).
  apply (proj2 (proj1 (proj2 (lookup_group_recreates_member_list
                                sample_mailbox group_mail true 10 [] "abcdefghij1"
                                created_mailbox 10 "me@example.org" true
                                eq_refl H2 (or_introl eq_refl)))
                      MR_CONTACT_ID_SELF)).
  left. split; [reflexivity|]. intros a Ha. discriminate Ha.
Defined.

(** The chat the resolver hands out for the mail that creates the group: no
    chat of the group was there, and the mail may create it. *)
Lemma lookup_group_returns_member_chat_witness :
  exists grpid,
    grp_select (grp_walk (fld_list group_mail)) = Some grpid /\
    MR_CHAT_ID_LAST_SPECIAL
    < snd (lookup_group_by_grpid__ sample_mailbox group_mail true 10 []) /\
    ((select_chat_by_grpid (m_sql sample_mailbox) grpid
      = snd (lookup_group_by_grpid__ sample_mailbox group_mail true 10 []) /\
      mrmailbox_is_contact_in_chat__
        (m_sql sample_mailbox)
        (snd (lookup_group_by_grpid__ sample_mailbox group_mail true 10 [])) 10 = true) \/
     (select_chat_by_grpid (m_sql sample_mailbox) grpid = 0 /\
      true = true /\ grpname (grp_walk (fld_list group_mail)) <> None)).
Proof.
  apply (lookup_group_returns_member_chat sample_mailbox group_mail true 10 []);
    vm_compute; discriminate.
Defined.

End GroupRuns.


(** ** Ingestion: what the steps of [receive_imf] keep *)

Module ReceiveFacts.
Import C Mr Invariants GroupFacts.
Open Scope Z_scope.

Section WithExternals.
Context {X : Externals}.

Lemma sql_kept_refl a : sql_kept a a.
Proof. repeat split. Qed.

Lemma sql_kept_trans a b c : sql_kept a b -> sql_kept b c -> sql_kept a c.
Proof. unfold sql_kept. intros (?&?&?) (?&?&?). repeat split; congruence. Qed.

Lemma same_but_members_kept a b : same_but_members a b -> sql_kept a b.
Proof.
  intros (?&?&?&?&?&E). repeat split; try assumption.
  unfold io_error. now rewrite E.
Qed.

Lemma add_or_lookup_contact_kept sql name addr origin :
  sql_kept sql (fst (mrmailbox_add_or_lookup_contact__ sql name addr origin)).
Proof.
  unfold mrmailbox_add_or_lookup_contact__.
  destruct (find _ (contacts sql)); repeat split.
Qed.

Lemma scaleup_contact_origin_kept sql id origin :
  sql_kept sql (mrmailbox_scaleup_contact_origin__ sql id origin).
Proof. repeat split. Qed.

Lemma create_or_lookup_nchat_kept sql id :
  sql_kept sql (fst (mrmailbox_create_or_lookup_nchat_by_contact_id__ sql id)).
Proof.
  unfold mrmailbox_create_or_lookup_nchat_by_contact_id__.
  destruct (negb _); repeat split.
Qed.

Lemma quiet_refl a : quiet a a.
Proof.
  repeat split. exists []. split; [now rewrite app_nil_r | reflexivity].
Qed.

Lemma quiet_trans a b c : quiet a b -> quiet b c -> quiet a c.
Proof.
  intros (S1 & T1 & K1 & e1 & E1 & F1) (S2 & T2 & K2 & e2 & E2 & F2).
  split; [congruence|]. split; [congruence|].
  split; [eapply sql_kept_trans; eassumption|].
  exists (e1 ++ e2)%list. split.
  - now rewrite E2, E1, app_assoc.
  - now rewrite forallb_app, F1, F2.
Qed.

Lemma quiet_set_sql ths sql : sql_kept (m_sql ths) sql -> quiet ths (set_sql ths sql).
Proof.
  intros K. repeat split; try apply K.
  exists []. split; [cbn; now rewrite app_nil_r | reflexivity].
Qed.

Lemma quiet_chat_modified ths a b : quiet ths (m_cb ths MR_EVENT_CHAT_MODIFIED a b).
Proof.
  repeat split. exists [Cb MR_EVENT_CHAT_MODIFIED a b]. split; reflexivity.
Qed.

Lemma quiet_add_or_lookup_contact_by_addr ths name addr origin ids cs :
  quiet ths (fst (fst (add_or_lookup_contact_by_addr__ ths name addr origin ids cs))).
Proof.
  unfold add_or_lookup_contact_by_addr__. cbv zeta.
  destruct (strcasecmp_eq _ _); [apply quiet_refl|].
  pose proof (add_or_lookup_contact_kept
                (m_sql ths)
                (option_map (fun n => mr_normalize_name (mr_decode_header_string n)) name)
                addr origin) as K.
  destruct (mrmailbox_add_or_lookup_contact__ _ _ _ _) as [sql row_id].
  cbn [fst] in K.
  destruct (negb (row_id =? 0)); [destruct (negb _)|];
    cbn [fst]; now apply quiet_set_sql.
Qed.

Lemma quiet_mailbox_list mb_list : forall ths origin ids cs,
  quiet ths (fst (fst (add_or_lookup_contacts_by_mailbox_list__
                         ths mb_list origin ids cs))).
Proof.
  induction mb_list as [|[mb|] cur IH]; intros ths origin ids cs; simpl.
  - apply quiet_refl.
  - pose proof (quiet_add_or_lookup_contact_by_addr
                  ths (mb_display_name mb) (mb_addr_spec mb) origin ids cs) as Q.
    destruct (add_or_lookup_contact_by_addr__ _ _ _ _ _ _) as [[ths1 ids1] cs1].
    cbn [fst] in Q. eapply quiet_trans; [exact Q | apply IH].
  - apply IH.
Qed.

Lemma quiet_address_list adr_list : forall ths origin ids cs,
  quiet ths (fst (fst (add_or_lookup_contacts_by_address_list__
                         ths adr_list origin ids cs))).
Proof.
  induction adr_list as [|adr cur IH]; intros ths origin ids cs; simpl.
  - apply quiet_refl.
  - assert (Q : quiet ths
                  (fst (fst (match adr with
                             | Some (MAILIMF_ADDRESS_MAILBOX (Some mb)) =>
                                 add_or_lookup_contact_by_addr__
                                   ths (mb_display_name mb) (mb_addr_spec mb)
                                   origin ids cs
                             | Some (MAILIMF_ADDRESS_GROUP (Some (Some grp_mb_list))) =>
                                 add_or_lookup_contacts_by_mailbox_list__
                                   ths grp_mb_list origin ids cs
                             | _ => (ths, ids, cs)
                             end)))).
    { destruct adr as [[[mb|]|[[l|]|]]|]; try apply quiet_refl.
      - apply quiet_add_or_lookup_contact_by_addr.
      - apply quiet_mailbox_list. }
    destruct (match adr with Some _ => _ | None => _ end) as [[ths1 ids1] cs1].
    cbn [fst] in Q. eapply quiet_trans; [exact Q | apply IH].
Qed.

Lemma insert_group_chat_kept sql name grpid sql' rowid :
  insert_group_chat sql name grpid = Some (sql', rowid) -> sql_kept sql sql'.
Proof.
  unfold insert_group_chat. destruct (insert_step sql) as [sql0|] eqn:S; [|discriminate].
  intros H. inversion H; subst.
  destruct (insert_step_kept _ _ S) as (Cf & _ & _ & _ & Ms & _ & Io).
  split; [exact Cf|]. split; [exact Io | exact Ms].
Qed.

Lemma quiet_grp_commands mailbox g chat_id recreate :
  quiet mailbox (fst (grp_commands mailbox g chat_id recreate)).
Proof.
  unfold grp_commands.
  destruct (X_MrAddToGrp g), (X_MrRemoveFromGrp g); try apply quiet_refl.
  destruct (X_MrGrpNameChanged g); [|apply quiet_refl].
  destruct (grpname g) as [name|]; [|apply quiet_refl].
  destruct (Nat.ltb (strlen name) 200); [|apply quiet_refl].
  cbn [fst]. eapply quiet_trans; [|apply quiet_chat_modified].
  apply quiet_set_sql. repeat split.
Qed.

Lemma quiet_grp_recreate mailbox g chat_id self_addr from_id to_list :
  quiet mailbox (grp_recreate_member_list mailbox g chat_id self_addr from_id to_list).
Proof.
  pose proof (grp_recreate_member_list_frame mailbox g chat_id self_addr from_id to_list)
    as F.
  apply same_but_members_kept in F.
  unfold grp_recreate_member_list in *. cbv zeta in *.
  cbn [m_cb emit m_sql set_sql] in F.
  eapply quiet_trans; [|apply quiet_chat_modified].
  apply quiet_set_sql. exact F.
Qed.

Lemma quiet_grp_find_or_create mailbox g grpid create_as_needed from_id :
  match grp_find_or_create mailbox g grpid create_as_needed from_id with
  | GrpReturn m _ => quiet mailbox m
  | GrpChat m _ _ _ => quiet mailbox m
  end.
Proof.
  unfold grp_find_or_create. cbv zeta.
  destruct (_ && _)%bool; [apply quiet_refl|].
  destruct (grp_should_create _ _ _ _ _).
  - destruct (insert_group_chat _ _ _) as [[sql rowid]|] eqn:I; [|apply quiet_refl].
    apply insert_group_chat_kept in I.
    destruct (_ <=? _); now apply quiet_set_sql.
  - destruct (_ <=? _); apply quiet_refl.
Qed.

Lemma quiet_lookup_group mailbox mime_parser create_as_needed from_id to_list :
  quiet mailbox
        (fst (lookup_group_by_grpid__ mailbox mime_parser create_as_needed
                                      from_id to_list)).
Proof.
  unfold lookup_group_by_grpid__. cbv zeta.
  destruct (grp_select _) as [grpid|]; [|apply quiet_refl].
  pose proof (quiet_grp_find_or_create
                mailbox (grp_walk (fld_list mime_parser)) grpid create_as_needed from_id)
    as Q.
  destruct (grp_find_or_create _ _ _ _ _) as [m c|m c self rc]; [exact Q|].
  pose proof (quiet_grp_commands m (grp_walk (fld_list mime_parser)) c rc) as Q2.
  destruct (grp_commands _ _ _ _) as [m2 rc2]. cbn [fst] in Q2.
  assert (Q3 : quiet mailbox
                 (if rc2
                  then grp_recreate_member_list
                         m2 (grp_walk (fld_list mime_parser)) c self from_id to_list
                  else m2)).
  { eapply quiet_trans; [exact Q|]. eapply quiet_trans; [exact Q2|].
    destruct rc2; [apply quiet_grp_recreate | apply quiet_refl]. }
  destruct (_ && _)%bool; [destruct (3 <? _)|]; exact Q3.
Qed.

(** *** The locals over the steps *)

Lemma ctl_kept_refl l : ctl_kept l l.
Proof. repeat split. Qed.

Lemma ctl_kept_trans a b c : ctl_kept a b -> ctl_kept b c -> ctl_kept a c.
Proof.
  unfold ctl_kept. intros (?&?&?&?&?) (?&?&?&?&?). repeat split; congruence.
Qed.

Lemma row_kept_refl l : row_kept l l.
Proof. repeat split. Qed.

Lemma row_kept_trans a b c : row_kept a b -> row_kept b c -> row_kept a c.
Proof.
  unfold row_kept. intros (?&?&?&?) (?&?&?&?). repeat split; congruence.
Qed.

Ltac conj := repeat match goal with |- _ /\ _ => split end.

Ltac solve_step :=
  cbn [fst snd]; conj;
  first [ assumption
        | apply quiet_refl
        | reflexivity
        | (unfold ctl_kept; cbn; repeat split; reflexivity)
        | (cbn; congruence) ].

Lemma imf_from_ok ths fields l :
  quiet ths (fst (imf_from ths fields l)) /\
  ctl_kept l (snd (imf_from ths fields l)) /\
  rfc724_mid (snd (imf_from ths fields l)) = rfc724_mid l.
Proof.
  unfold imf_from.
  destruct (incoming l); [|solve_step].
  destruct (mr_find_mailimf_field sel_from fields) as [[frm|]|]; try solve_step.
  pose proof (quiet_mailbox_list frm ths MR_ORIGIN_INCOMING_UNKNOWN_FROM [] false) as Q.
  destruct (add_or_lookup_contacts_by_mailbox_list__ _ _ _ _ _) as [[ths1 ids] cs].
  cbn [fst] in Q.
  destruct cs; [solve_step|].
  destruct ids as [|first rest]; [solve_step|].
  cbv zeta. destruct (mrmailbox_is_known_contact__ _ _) as [known blocked].
  destruct known; solve_step.
Qed.

Lemma imf_to_ok ths fields l :
  quiet ths (fst (imf_to ths fields l)) /\
  ctl_kept l (snd (imf_to ths fields l)) /\
  rfc724_mid (snd (imf_to ths fields l)) = rfc724_mid l.
Proof.
  unfold imf_to.
  destruct (_ || _)%bool; [|solve_step].
  destruct (mr_find_mailimf_field sel_to fields) as [[adr|]|]; try solve_step.
  match goal with
  | |- context [add_or_lookup_contacts_by_address_list__ ?a ?b ?c ?d ?e] =>
      pose proof (quiet_address_list b a c d e) as Q;
      destruct (add_or_lookup_contacts_by_address_list__ a b c d e) as [[ths1 ids] cs]
  end.
  cbn [fst] in Q. solve_step.
Qed.

Lemma imf_rest_field_ok ths l field :
  quiet ths (fst (imf_rest_field (ths, l) field)) /\
  ctl_kept l (snd (imf_rest_field (ths, l) field)) /\
  rfc724_mid (snd (imf_rest_field (ths, l) field))
  = header_mid_step (rfc724_mid l) field /\
  incoming (snd (imf_rest_field (ths, l) field)) = incoming l /\
  from_id_blocked (snd (imf_rest_field (ths, l) field)) = from_id_blocked l.
Proof.
  unfold imf_rest_field, header_mid_step.
  destruct field as [[ | [d|] | d | d | [d|] | [d|] | [m|] | m | m | o | ]|];
    try solve_step.
  - match goal with
    | |- context [add_or_lookup_contacts_by_address_list__ ?a ?b ?c ?d ?e] =>
        pose proof (quiet_address_list b a c d e) as Q;
        destruct (add_or_lookup_contacts_by_address_list__ a b c d e) as [[ths1 ids] cs]
    end.
    cbn [fst] in Q. solve_step.
  - destruct (negb (incoming l)); [|solve_step].
    match goal with
    | |- context [add_or_lookup_contacts_by_address_list__ ?a ?b ?c ?d ?e] =>
        pose proof (quiet_address_list b a c d e) as Q;
        destruct (add_or_lookup_contacts_by_address_list__ a b c d e) as [[ths1 ids] cs]
    end.
    cbn [fst] in Q. solve_step.
Qed.

Lemma imf_rest_ok fields : forall ths l,
  quiet ths (fst (fold_left imf_rest_field fields (ths, l))) /\
  ctl_kept l (snd (fold_left imf_rest_field fields (ths, l))) /\
  rfc724_mid (snd (fold_left imf_rest_field fields (ths, l)))
  = fold_left header_mid_step fields (rfc724_mid l) /\
  incoming (snd (fold_left imf_rest_field fields (ths, l))) = incoming l /\
  from_id_blocked (snd (fold_left imf_rest_field fields (ths, l))) = from_id_blocked l.
Proof.
  induction fields as [|f fields IH]; intros ths l; cbn [fold_left].
  - solve_step.
  - destruct (imf_rest_field_ok ths l f) as (Q & C & R & I & B).
    destruct (imf_rest_field (ths, l) f) as [ths1 l1]. cbn [fst snd] in *.
    destruct (IH ths1 l1) as (Q' & C' & R' & I' & B').
    split; [eapply quiet_trans; eassumption|].
    split; [eapply ctl_kept_trans; eassumption|].
    split; [now rewrite R', R|]. split; congruence.
Qed.

Lemma header_mid_from fields : forall acc,
  fold_left header_mid_step fields acc
  = match header_mid fields with Some m => Some m | None => acc end.
Proof.
  unfold header_mid.
  induction fields as [|f fields IH]; intros acc; simpl; [reflexivity|].
  rewrite IH. rewrite (IH (header_mid_step None f)).
  destruct (fold_left header_mid_step fields None); [reflexivity|].
  destruct f as [[ | | | | | | [m|] | | | | ]|]; reflexivity.
Qed.

Lemma imf_choose_chat_ok ths mime_parser flags l :
  quiet ths (fst (imf_choose_chat ths mime_parser flags l)) /\
  ctl_kept l (snd (imf_choose_chat ths mime_parser flags l)) /\
  rfc724_mid (snd (imf_choose_chat ths mime_parser flags l)) = rfc724_mid l /\
  incoming (snd (imf_choose_chat ths mime_parser flags l)) = incoming l /\
  from_id_blocked (snd (imf_choose_chat ths mime_parser flags l)) = from_id_blocked l /\
  state (snd (imf_choose_chat ths mime_parser flags l)) = state_for flags l.
Proof.
  unfold imf_choose_chat, state_for. cbv zeta.
  destruct (incoming l) eqn:I.
  - match goal with
    | |- context [lookup_group_by_grpid__ ?a ?b ?c ?d ?e] =>
        pose proof (quiet_lookup_group a b c d e) as Q;
        destruct (lookup_group_by_grpid__ a b c d e) as [ths1 cid]
    end.
    cbn [fst] in Q.
    destruct (negb (cid =? 0)); [solve_step|].
    destruct (mrmailbox_lookup_real_nchat_by_contact_id__ _ _ =? 0); [|solve_step].
    destruct (_ && _)%bool.
    + match goal with
      | |- context [mrmailbox_create_or_lookup_nchat_by_contact_id__ ?a ?b] =>
          pose proof (create_or_lookup_nchat_kept a b) as K;
          destruct (mrmailbox_create_or_lookup_nchat_by_contact_id__ a b) as [sql id]
      end.
      cbn [fst] in K.
      assert (Q' : quiet ths (set_sql ths1 sql))
        by (eapply quiet_trans; [exact Q | now apply quiet_set_sql]).
      solve_step.
    + destruct (is_reply_to_known_message__ _ _); [|solve_step].
      match goal with
      | |- context [mrmailbox_create_or_lookup_nchat_by_contact_id__ ?a ?b] =>
          pose proof (create_or_lookup_nchat_kept a b) as K;
          destruct (mrmailbox_create_or_lookup_nchat_by_contact_id__ a b) as [sql id]
      end.
      cbn [fst] in K.
      assert (Q' : quiet ths (set_sql ths1 sql)).
      { eapply quiet_trans; [exact Q|]. apply quiet_set_sql.
        eapply sql_kept_trans; [apply scaleup_contact_origin_kept | exact K]. }
      solve_step.
  - cbn [to_list set_from_id set_state].
    destruct (to_list l) as [|first rest] eqn:TL.
    + cbn [chat_id set_from_id set_state].
      destruct (chat_id l =? 0); solve_step.
    + match goal with
      | |- context [lookup_group_by_grpid__ ?a ?b ?c ?d ?e] =>
          pose proof (quiet_lookup_group a b c d e) as Q;
          destruct (lookup_group_by_grpid__ a b c d e) as [ths1 cid]
      end.
      cbn [fst] in Q.
      destruct (negb (cid =? 0)).
      * match goal with
        | |- context [if ?c then _ else _] => destruct c
        end; solve_step.
      * destruct (_ && _)%bool.
        -- match goal with
           | |- context [mrmailbox_create_or_lookup_nchat_by_contact_id__ ?a ?b] =>
               pose proof (create_or_lookup_nchat_kept a b) as K;
               destruct (mrmailbox_create_or_lookup_nchat_by_contact_id__ a b) as [sql id]
           end.
           cbn [fst] in K.
           assert (Q' : quiet ths (set_sql ths1 sql))
             by (eapply quiet_trans; [exact Q | now apply quiet_set_sql]).
           match goal with
           | |- context [if ?c then _ else _] => destruct c
           end; solve_step.
        -- match goal with
           | |- context [if ?c then _ else _] => destruct c
           end; solve_step.
Qed.

Lemma quiet_correct_bad_timestamp ths chat_id from_id stamp fresh :
  quiet ths (fst (correct_bad_timestamp__ ths chat_id from_id stamp fresh)).
Proof.
  unfold correct_bad_timestamp__. cbv zeta.
  destruct (mr_smeared_time__ ths <=? _); [|apply quiet_refl].
  unfold mr_create_smeared_timestamp__. cbn [fst].
  repeat split. exists []. split; [cbn; now rewrite app_nil_r | reflexivity].
Qed.

Lemma imf_prepare_ok ths mime_parser fields flags l :
  quiet ths (fst (imf_prepare ths mime_parser fields flags l)) /\
  ctl_kept l (snd (imf_prepare ths mime_parser fields flags l)) /\
  rfc724_mid (snd (imf_prepare ths mime_parser fields flags l))
  = fold_left header_mid_step fields (rfc724_mid l) /\
  incoming (snd (imf_prepare ths mime_parser fields flags l)) = incoming l /\
  from_id_blocked (snd (imf_prepare ths mime_parser fields flags l)) = from_id_blocked l /\
  state (snd (imf_prepare ths mime_parser fields flags l))
  = state_for flags (snd (imf_prepare ths mime_parser fields flags l)).
Proof.
  unfold imf_prepare.
  destruct (imf_rest_ok fields ths l) as (Q1 & C1 & R1 & I1 & B1).
  destruct (fold_left imf_rest_field fields (ths, l)) as [ths1 l1].
  cbn [fst snd] in *.
  destruct (imf_choose_chat_ok ths1 mime_parser flags l1) as (Q2 & C2 & R2 & I2 & B2 & S2).
  destruct (imf_choose_chat ths1 mime_parser flags l1) as [ths2 l2].
  cbn [fst snd] in *.
  pose proof (quiet_correct_bad_timestamp
                ths2 (chat_id l2) (from_id l2) (message_timestamp l2)
                (negb (imap_seen flags))) as Q3.
  destruct (correct_bad_timestamp__ _ _ _ _ _) as [ths3 stamp]. cbn [fst snd] in *.
  split; [eapply quiet_trans; [exact Q1|]; eapply quiet_trans; eassumption|].
  split; [eapply ctl_kept_trans; eassumption|].
  split; [cbn; congruence|]. split; [cbn; congruence|]. split; [cbn; congruence|].
  cbn. rewrite S2. unfold state_for. cbn. now rewrite I2.
Qed.

(** *** The rows of [msgs] over the steps *)

Lemma settled_refl a : settled a a.
Proof. repeat split. Qed.

Lemma settled_trans a b c : settled a b -> settled b c -> settled a c.
Proof. unfold settled. intros (?&?&?&?) (?&?&?&?). repeat split; congruence. Qed.

Lemma flags_kept_refl l : flags_kept l l.
Proof. repeat split. Qed.

Lemma flags_kept_trans a b c : flags_kept a b -> flags_kept b c -> flags_kept a c.
Proof.
  unfold flags_kept. intros (?&?&?&?&?) (?&?&?&?&?). repeat split; congruence.
Qed.

Lemma find_map {A B : Type} (f : A -> B) (p : B -> bool) (l : list A) :
  find p (map f l) = option_map f (find (fun x => p (f x)) l).
Proof.
  induction l as [|x l IH]; simpl; [reflexivity|].
  destruct (p (f x)); [reflexivity | exact IH].
Qed.

Lemma rfc724_mid_exists_triples sql mid :
  mrmailbox_rfc724_mid_exists__ sql mid = lookup_triple mid (triples sql).
Proof.
  unfold mrmailbox_rfc724_mid_exists__, lookup_triple, triples.
  rewrite find_map. cbn [triple fst snd].
  destruct (find _ (msgs sql)); reflexivity.
Qed.

Lemma find_app_found {A : Type} (p : A -> bool) (l more : list A) (x : A) :
  find p l = Some x -> find p (l ++ more) = Some x.
Proof.
  induction l as [|y l IH]; simpl; [discriminate|].
  destruct (p y); [trivial | exact IH].
Qed.

Lemma find_app_none {A : Type} (p : A -> bool) (l more : list A) :
  find p l = None -> find p (l ++ more) = find p more.
Proof.
  induction l as [|y l IH]; simpl; [reflexivity|].
  destruct (p y); [discriminate | exact IH].
Qed.

Lemma lookup_triple_app_found mid trs more r :
  lookup_triple mid trs = Some r -> lookup_triple mid (trs ++ more) = Some r.
Proof.
  unfold lookup_triple. intros H.
  destruct (find _ trs) as [t|] eqn:F; [|discriminate].
  now rewrite (find_app_found _ _ more _ F).
Qed.

(** Rows added behind rows that do not hold the Message-ID: the first of the
    new rows answers the lookup. *)
Lemma lookup_triple_app_new mid trs folder uid rows :
  lookup_triple mid trs = None ->
  rows <> [] ->
  Forall (fun t => t = (mid, folder, uid)) rows ->
  lookup_triple mid (trs ++ rows) = Some (folder, uid).
Proof.
  unfold lookup_triple. intros H Hne Hall.
  destruct (find _ trs) as [t|] eqn:F; [discriminate|].
  rewrite (find_app_none _ _ rows F).
  destruct rows as [|t rows]; [contradiction|].
  inversion Hall; subst. cbn. now rewrite String.eqb_refl.
Qed.

Lemma insert_msg_some sql row sql' rowid :
  insert_msg sql row = Some (sql', rowid) ->
  rowid = next_rowid (map msg_id (msgs sql)) /\
  msgs sql' = (msgs sql ++ [row rowid])%list /\
  config sql' = config sql /\ io_error sql' = io_error sql.
Proof.
  unfold insert_msg. destruct (insert_step sql) as [sql0|] eqn:S; [|discriminate].
  destruct (insert_step_kept _ _ S) as (Cf & _ & _ & _ & Ms & _ & Io).
  intros H. inversion H; subst. cbn [msgs set_msgs config]. rewrite Ms.
  split; [reflexivity|]. split; [reflexivity|]. split; [exact Cf | exact Io].
Qed.

Lemma insert_msg_none sql row : insert_msg sql row = None -> io_error sql = true.
Proof.
  unfold insert_msg. destruct (insert_step sql) as [sql0|] eqn:S; [discriminate|].
  intros _. now apply insert_step_fails.
Qed.

Lemma settled_insert_msg ths row sql rowid :
  insert_msg (m_sql ths) row = Some (sql, rowid) -> settled ths (set_sql ths sql).
Proof.
  intros I. destruct (insert_msg_some _ _ _ _ I) as (_ & _ & Cf & Io).
  split; [reflexivity|]. split; [exact Cf|]. split; [exact Io | reflexivity].
Qed.

(** The loop over the parts, whatever the steps of the store return: it
    ends past the last part with a row for every part, or at the first step
    that fails, with the rows of the parts before. *)
Lemma imf_insert_parts_run mime_parser server_folder server_uid parts :
  forall ths l,
    match imf_insert_parts ths mime_parser parts server_folder server_uid l with
    | Next (ths', l') =>
        settled ths ths' /\ row_kept l l' /\ flags_kept l l' /\
        (exists rows,
            triples (m_sql ths') = (triples (m_sql ths) ++ rows)%list /\
            Forall (fun t => t = (safe_strdup (rfc724_mid l), server_folder, server_uid))
                   rows /\
            (parts <> [] -> rows <> [])) /\
        (exists more,
            created_db_entries l' = (created_db_entries l ++ more)%list /\
            (parts <> [] -> more <> []))
    | Goto_cleanup (ths', l') =>
        io_error (m_sql ths) = true /\
        settled ths ths' /\ row_kept l l' /\ flags_kept l l'
    end.
Proof.
  induction parts as [|part parts IH]; intros ths l.
  - cbn [imf_insert_parts].
    split; [apply settled_refl|]. split; [apply row_kept_refl|].
    split; [apply flags_kept_refl|]. split.
    + exists []. split; [now rewrite app_nil_r|]. split; [constructor|].
      intros H; now contradiction H.
    + exists []. split; [now rewrite app_nil_r|]. intros H; now contradiction H.
  - cbn [imf_insert_parts].
    destruct (insert_msg (m_sql ths) _) as [[sql rowid]|] eqn:I.
    + pose proof (settled_insert_msg _ _ _ _ I) as S0.
      destruct (insert_msg_some _ _ _ _ I) as (_ & Ms & _ & Io).
      cbv zeta.
      match goal with
      | |- context [imf_insert_parts ?a _ _ _ _ ?b] =>
          specialize (IH a b);
          assert (R0 : row_kept l b)
            by (destruct (first_dblocal_id l =? 0); repeat split);
          assert (F0 : flags_kept l b)
            by (destruct (first_dblocal_id l =? 0); repeat split);
          assert (M0 : rfc724_mid b = rfc724_mid l) by apply F0;
          assert (C0 : exists x y,
                     created_db_entries b = (created_db_entries l ++ [x; y])%list)
            by (destruct (first_dblocal_id l =? 0); eexists _, _; reflexivity);
          destruct (imf_insert_parts a _ _ _ _ b) as [[ths' l']|[ths' l']]
      end.
      * destruct IH as (S & R & Fl & (rows & T & Fa & _) & (more & Cr & _)).
        split; [eapply settled_trans; eassumption|].
        split; [eapply row_kept_trans; eassumption|].
        split; [eapply flags_kept_trans; eassumption|].
        split.
        -- eexists (_ :: rows). split; [|split; [|discriminate]].
           ++ rewrite T. unfold triples. cbn [m_sql set_sql]. rewrite Ms.
              rewrite map_app, <- app_assoc. reflexivity.
           ++ constructor; [reflexivity|]. rewrite M0 in Fa. exact Fa.
        -- destruct C0 as (x & y & C0). exists (x :: y :: more).
           split; [|discriminate]. rewrite Cr, C0, <- app_assoc. reflexivity.
      * destruct IH as (Io' & S & R & Fl).
        cbn [m_sql set_sql] in Io'.
        split; [congruence|].
        split; [eapply settled_trans; eassumption|].
        split; [eapply row_kept_trans; eassumption|].
        eapply flags_kept_trans; eassumption.
    + split; [now apply insert_msg_none in I|].
      split; [apply settled_refl|]. split; [apply row_kept_refl | apply flags_kept_refl].
Qed.

Lemma imf_insert_parts_ok mime_parser server_folder server_uid parts :
  forall ths l,
    io_error (m_sql ths) = false ->
    exists ths' l',
      imf_insert_parts ths mime_parser parts server_folder server_uid l
      = Next (ths', l') /\
      settled ths ths' /\ row_kept l l' /\ flags_kept l l' /\
      (exists rows,
          triples (m_sql ths') = (triples (m_sql ths) ++ rows)%list /\
          Forall (fun t => t = (safe_strdup (rfc724_mid l), server_folder, server_uid))
                 rows /\
          (parts <> [] -> rows <> [])) /\
      (exists more,
          created_db_entries l' = (created_db_entries l ++ more)%list /\
          (parts <> [] -> more <> [])).
Proof.
  intros ths l IO.
  pose proof (imf_insert_parts_run mime_parser server_folder server_uid parts ths l) as R.
  destruct (imf_insert_parts _ _ _ _ _ _) as [[ths' l']|[ths' l']].
  - exists ths', l'. split; [reflexivity | exact R].
  - destruct R as (Io & _). congruence.
Qed.

(** The loop over the ghost rows, whatever the steps of the store return. *)
Lemma imf_insert_ghosts_run mime_parser ghost_txt recipients :
  forall ths l,
    match imf_insert_ghosts ths mime_parser recipients ghost_txt l with
    | Next (ths', l') =>
        settled ths ths' /\ row_kept l l' /\ flags_kept l l' /\
        (exists rows, triples (m_sql ths') = (triples (m_sql ths) ++ rows)%list) /\
        (exists more, created_db_entries l' = (created_db_entries l ++ more)%list)
    | Goto_cleanup (ths', l') =>
        io_error (m_sql ths) = true /\
        settled ths ths' /\ row_kept l l' /\ flags_kept l l'
    end.
Proof.
  induction recipients as [|to_id recipients IH]; intros ths l.
  - cbn [imf_insert_ghosts].
    split; [apply settled_refl|]. split; [apply row_kept_refl|].
    split; [apply flags_kept_refl|].
    split; exists []; now rewrite app_nil_r.
  - cbn [imf_insert_ghosts]. cbv zeta.
    destruct (insert_msg (m_sql ths) _) as [[sql rowid]|] eqn:I.
    + pose proof (settled_insert_msg _ _ _ _ I) as S0.
      destruct (insert_msg_some _ _ _ _ I) as (_ & Ms & _ & Io).
      match goal with
      | |- context [imf_insert_ghosts ?a _ _ _ ?b] =>
          specialize (IH a b);
          assert (R0 : row_kept l b) by (repeat split);
          assert (F0 : flags_kept l b) by (repeat split);
          destruct (imf_insert_ghosts a _ _ _ b) as [[ths' l']|[ths' l']]
      end.
      * destruct IH as (S & R & Fl & (rows & T) & (more & Cr)).
        split; [eapply settled_trans; eassumption|].
        split; [eapply row_kept_trans; eassumption|].
        split; [eapply flags_kept_trans; eassumption|].
        split.
        -- eexists (_ :: rows). rewrite T. unfold triples. cbn [m_sql set_sql].
           rewrite Ms, map_app, <- app_assoc. reflexivity.
        -- eexists (_ :: _ :: more). rewrite Cr. cbn [created_db_entries set_created_db_entries].
           rewrite <- app_assoc. reflexivity.
      * destruct IH as (Io' & S & R & Fl).
        cbn [m_sql set_sql] in Io'.
        split; [congruence|].
        split; [eapply settled_trans; eassumption|].
        split; [eapply row_kept_trans; eassumption|].
        eapply flags_kept_trans; eassumption.
    + split; [now apply insert_msg_none in I|].
      split; [apply settled_refl|]. split; [apply row_kept_refl | apply flags_kept_refl].
Qed.

Lemma imf_ghosts_run mime_parser ths l :
  match imf_ghosts ths mime_parser l with
  | Next (ths', l') =>
      settled ths ths' /\ row_kept l l' /\ flags_kept l l' /\
      (exists rows, triples (m_sql ths') = (triples (m_sql ths) ++ rows)%list) /\
      (exists more, created_db_entries l' = (created_db_entries l ++ more)%list)
  | Goto_cleanup (ths', l') =>
      io_error (m_sql ths) = true /\
      settled ths ths' /\ row_kept l l' /\ flags_kept l l'
  end.
Proof.
  unfold imf_ghosts.
  destruct (_ && _)%bool.
  - apply imf_insert_ghosts_run.
  - split; [apply settled_refl|]. split; [apply row_kept_refl|].
    split; [apply flags_kept_refl|].
    split; exists []; now rewrite app_nil_r.
Qed.

Lemma imf_ghosts_ok mime_parser ths l :
  io_error (m_sql ths) = false ->
  exists ths' l',
    imf_ghosts ths mime_parser l = Next (ths', l') /\
    settled ths ths' /\ row_kept l l' /\ flags_kept l l' /\
    (exists rows, triples (m_sql ths') = (triples (m_sql ths) ++ rows)%list) /\
    (exists more, created_db_entries l' = (created_db_entries l ++ more)%list).
Proof.
  intros IO. pose proof (imf_ghosts_run mime_parser ths l) as R.
  destruct (imf_ghosts ths mime_parser l) as [[ths' l']|[ths' l']].
  - exists ths', l'. split; [reflexivity | exact R].
  - destruct R as (Io & _). congruence.
Qed.

Lemma mdn_from_ext_ok sql from_id mid :
  config (fst (mrmailbox_mdn_from_ext__ sql from_id mid)) = config sql /\
  io_error (fst (mrmailbox_mdn_from_ext__ sql from_id mid)) = io_error sql /\
  triples (fst (mrmailbox_mdn_from_ext__ sql from_id mid)) = triples sql.
Proof.
  unfold mrmailbox_mdn_from_ext__.
  destruct (find _ (msgs sql)) as [t|]; [|repeat split].
  repeat split. unfold triples. cbn [fst msgs set_msgs].
  rewrite map_map. apply map_ext. intros m.
  destruct (msg_id m =? msg_id t); reflexivity.
Qed.

Lemma report_kept_refl l : report_kept l l.
Proof. repeat split. Qed.

Lemma report_kept_trans a b c : report_kept a b -> report_kept b c -> report_kept a c.
Proof.
  unfold report_kept. intros (R1&?&?&?&?) (R2&?&?&?&?).
  split; [eapply row_kept_trans; eassumption|]. repeat split; congruence.
Qed.

Lemma imf_report_ok mdns_enabled ths l report :
  settled ths (fst (imf_report mdns_enabled (ths, l) report)) /\
  triples (m_sql (fst (imf_report mdns_enabled (ths, l) report))) = triples (m_sql ths) /\
  report_kept l (snd (imf_report mdns_enabled (ths, l) report)).
Proof.
  unfold imf_report.
  destruct report as [[[pa_value|] mp_list]|];
    try (split; [apply settled_refl | split; [reflexivity | apply report_kept_refl]]).
  destruct (_ && _)%bool;
    try (split; [apply settled_refl | split; [reflexivity | apply report_kept_refl]]).
  destruct (nth 1 mp_list None) as [report_data|];
    try (split; [apply settled_refl | split; [reflexivity | apply report_kept_refl]]).
  destruct (_ && _)%bool;
    try (split; [apply settled_refl | split; [reflexivity | apply report_kept_refl]]).
  destruct (mdn_original_message_id report_data) as [mid|];
    try (split; [apply settled_refl | split; [reflexivity | apply report_kept_refl]]).
  destruct (mdn_from_ext_ok (m_sql ths) (from_id l) mid) as (C & I & T).
  destruct (mrmailbox_mdn_from_ext__ (m_sql ths) (from_id l) mid) as [sql [[c m]|]];
    cbn [fst snd] in *;
    (split; [repeat split; assumption | split; [exact T | repeat split]]).
Qed.

Lemma imf_reports_fold mdns_enabled reports : forall ths l,
  settled ths (fst (fold_left (imf_report mdns_enabled) reports (ths, l))) /\
  triples (m_sql (fst (fold_left (imf_report mdns_enabled) reports (ths, l))))
  = triples (m_sql ths) /\
  report_kept l (snd (fold_left (imf_report mdns_enabled) reports (ths, l))).
Proof.
  induction reports as [|r reports IH]; intros ths l; cbn [fold_left].
  - split; [apply settled_refl | split; [reflexivity | apply report_kept_refl]].
  - destruct (imf_report_ok mdns_enabled ths l r) as (S & T & R).
    destruct (imf_report mdns_enabled (ths, l) r) as [ths1 l1]. cbn [fst snd] in *.
    destruct (IH ths1 l1) as (S' & T' & R').
    split; [eapply settled_trans; eassumption|].
    split; [congruence | eapply report_kept_trans; eassumption].
Qed.

Lemma imf_reports_ok ths mime_parser l :
  settled ths (fst (imf_reports ths mime_parser l)) /\
  triples (m_sql (fst (imf_reports ths mime_parser l))) = triples (m_sql ths) /\
  report_kept l (snd (imf_reports ths mime_parser l)).
Proof.
  unfold imf_reports. destruct (m_reports mime_parser) as [|r reports].
  - split; [apply settled_refl | split; [reflexivity | apply report_kept_refl]].
  - apply imf_reports_fold.
Qed.

Lemma claimed_row_event_kept ths flags l l' :
  row_kept l l' -> claimed_row_event ths flags l' = claimed_row_event ths flags l.
Proof.
  intros (I & B & C & _). unfold claimed_row_event. now rewrite I, B, C.
Qed.

(** The event [imf_event_to_send] leaves is the one the claim predicts. *)
Lemma imf_event_to_send_claimed ths0 ths flags l :
  config (m_sql ths) = config (m_sql ths0) ->
  create_event_to_send l = Some MR_EVENT_MSGS_CHANGED ->
  state l = state_for flags l ->
  create_event_to_send (imf_event_to_send ths l)
  = claimed_row_event ths0 flags (imf_event_to_send ths l) /\
  row_kept l (imf_event_to_send ths l) /\
  db_locked (imf_event_to_send ths l) = db_locked l /\
  transaction_pending (imf_event_to_send ths l) = transaction_pending l /\
  created_db_entries (imf_event_to_send ths l) = created_db_entries l /\
  rr_event_to_send (imf_event_to_send ths l) = rr_event_to_send l.
Proof.
  intros Hc He Hs.
  assert (G : mrsqlite3_get_config_int__ (m_sql ths) "show_deaddrop" 0
              = mrsqlite3_get_config_int__ (m_sql ths0) "show_deaddrop" 0).
  { unfold mrsqlite3_get_config_int__, mrsqlite3_get_config__. now rewrite Hc. }
  assert (R : row_kept l (imf_event_to_send ths l)).
  { unfold imf_event_to_send.
    repeat match goal with
           | |- context [if ?c then _ else _] => destruct c
           end; repeat split. }
  split; [|split; [exact R|]].
  - rewrite (claimed_row_event_kept ths0 flags _ _ R).
    unfold imf_event_to_send, claimed_row_event. rewrite Hs, G. unfold state_for.
    destruct (incoming l), (imap_seen flags), (from_id_blocked l),
      (chat_id l =? MR_CHAT_ID_DEADDROP),
      (mrsqlite3_get_config_int__ (m_sql ths0) "show_deaddrop" 0 =? 0);
      cbn; try reflexivity; exact He.
  - unfold imf_event_to_send.
    repeat match goal with
           | |- context [if ?c then _ else _] => destruct c
           end; repeat split.
Qed.

Lemma imf_prologue_ok ths fields :
  let tb := mrsqlite3_begin_transaction__ (mrsqlite3_lock ths) in
  quiet tb (fst (imf_prologue ths fields)) /\
  db_locked (snd (imf_prologue ths fields)) = true /\
  transaction_pending (snd (imf_prologue ths fields)) = true /\
  created_db_entries (snd (imf_prologue ths fields)) = [] /\
  create_event_to_send (snd (imf_prologue ths fields)) = Some MR_EVENT_MSGS_CHANGED /\
  rr_event_to_send (snd (imf_prologue ths fields)) = [] /\
  rfc724_mid (snd (imf_prologue ths fields)) = None.
Proof.
  intros tb. unfold imf_prologue. cbv zeta. fold tb.
  match goal with
  | |- context [imf_from tb fields ?l0] =>
      destruct (imf_from_ok tb fields l0) as (Q1 & (C1a & C1b & C1c & C1d & C1e) & R1);
      assert (L0 : db_locked l0 = true /\ transaction_pending l0 = true /\
                   created_db_entries l0 = [] /\
                   create_event_to_send l0 = Some MR_EVENT_MSGS_CHANGED /\
                   rr_event_to_send l0 = [] /\ rfc724_mid l0 = None)
        by (destruct (existsb is_return_path fields); repeat split);
      destruct (imf_from tb fields l0) as [ths1 l1]
  end.
  cbn [fst snd] in *.
  destruct (imf_to_ok ths1 fields l1) as (Q2 & (C2a & C2b & C2c & C2d & C2e) & R2).
  destruct (imf_to ths1 fields l1) as [ths2 l2]. cbn [fst snd] in *.
  destruct L0 as (A & B & C & D & E & F).
  split; [eapply quiet_trans; eassumption|].
  repeat split; congruence.
Qed.

(** *** The ways [receive_imf] reaches [cleanup] *)

Section Outcome.
Variable ths : mrmailbox_t.
Variable mime_parser : mrmimeparser_t.
Variable server_folder : string.
Variable server_uid : Z.
Variable flags : Z.

Let tb : mrmailbox_t := mrsqlite3_begin_transaction__ (mrsqlite3_lock ths).

Local Abbreviation outcome :=
  (Invariants.outcome ths mime_parser server_folder server_uid flags).

Lemma imf_message_id_ok l :
  match imf_message_id l with
  | Next l' =>
      exists mid, rfc724_mid l' = Some mid /\
                  (forall m, rfc724_mid l = Some m -> mid = m) /\
                  ctl_kept l l' /\ row_kept l l'
  | Goto_cleanup l' => l' = l /\ rfc724_mid l = None
  end.
Proof.
  unfold imf_message_id. destruct (rfc724_mid l) as [m|] eqn:R.
  - exists m. split; [exact R|]. split; [intros m' H; now inversion H|].
    split; repeat split.
  - destruct (mr_create_incoming_rfc724_mid _ _ _) as [mid|].
    + exists mid. split; [reflexivity|]. split; [discriminate|]. split; repeat split.
    + now split.
Qed.

Lemma receive_imf_body_outcome :
  outcome (fst (receive_imf_body ths mime_parser server_folder server_uid flags))
          (snd (receive_imf_body ths mime_parser server_folder server_uid flags)).
Proof.
  unfold receive_imf_body.
  destruct (m_header mime_parser) as [fields|] eqn:H; [|now apply O_no_header].
  destruct (imf_prologue_ok ths fields) as (QP & LP & PP & CP & EP & RP & MP).
  fold tb in QP.
  destruct (imf_prologue ths fields) as [thsP lP]. cbn [fst snd] in *.
  destruct (m_parts mime_parser) as [|part parts] eqn:Parts.
  - (* no part: the reports, then the commit *)
    destruct (imf_reports_ok thsP mime_parser lP) as (S & T & (_ & L & _ & C & _)).
    destruct (imf_reports thsP mime_parser lP) as [ths2 l2]. cbn [fst snd] in *.
    eapply O_no_parts; eauto; congruence.
  - assert (HP : m_parts mime_parser <> []) by (rewrite Parts; discriminate).
    unfold imf_add_parts.
    destruct (imf_prepare_ok thsP mime_parser fields flags lP)
      as (Q1 & (C1a & C1b & C1c & C1d & C1e) & R1 & I1 & B1 & S1).
    destruct (imf_prepare thsP mime_parser fields flags lP) as [ths1 l1].
    cbn [fst snd] in *.
    assert (Q : quiet tb ths1) by (eapply quiet_trans; eassumption).
    rewrite MP in R1. fold (header_mid fields) in R1.
    pose proof (imf_message_id_ok l1) as M.
    destruct (imf_message_id l1) as [l2|l2].
    + destruct M as (mid & Rm & Hm & (C2a & C2b & C2c & C2d & C2e) & R2).
      assert (Hmid : forall m, header_mid fields = Some m -> mid = m)
        by (intros m E; apply Hm; congruence).
      unfold imf_store, imf_dedup. cbv zeta.
      cbn [rfc724_mid set_transaction_pending]. rewrite !Rm. cbn [safe_strdup].
      rewrite rfc724_mid_exists_triples.
      destruct (lookup_triple mid (triples (m_sql ths1))) as [[old_folder old_uid]|] eqn:LT.
      * destruct (negb (strcmp_eq old_folder server_folder)
                  || negb (old_uid =? server_uid))%bool eqn:D.
        -- cbn [fst snd]. eapply O_moved; eauto; congruence.
        -- cbn [fst snd]. apply orb_false_iff in D. destruct D as [D1 D2].
           apply negb_false_iff in D1, D2.
           apply String.eqb_eq in D1. apply Z.eqb_eq in D2. subst.
           eapply O_known; eauto; congruence.
      * assert (IOeq : io_error (m_sql ths1) = io_error (m_sql ths))
          by (destruct Q as (_ & _ & (_ & IOq & _) & _); exact IOq).
        pose proof (imf_insert_parts_run mime_parser server_folder server_uid
                      (m_parts mime_parser) ths1 l2) as Run3.
        destruct (imf_insert_parts ths1 mime_parser (m_parts mime_parser)
                                   server_folder server_uid l2)
          as [[ths3 l3]|[ths3 l3]].
        -- destruct Run3 as (S3 & R3 & (F3a & F3b & F3c & F3d & F3e)
                             & (rows & T3 & Fa3 & N3) & (more & Cr3 & Nm3)).
           pose proof (imf_ghosts_run mime_parser ths3 l3) as Run4.
           destruct (imf_ghosts ths3 mime_parser l3) as [[ths4 l4]|[ths4 l4]].
           ++ destruct Run4 as (S4 & R4 & (F4a & F4b & F4c & F4d & F4e)
                                & (rows' & T4) & (more' & Cr4)).
              assert (Cfg : config (m_sql ths4) = config (m_sql ths)).
              { destruct S4 as (_ & C4 & _). destruct S3 as (_ & C3 & _).
                destruct Q as (_ & _ & (CQ & _) & _). rewrite C4, C3, CQ. reflexivity. }
              assert (RK : row_kept l1 l4)
                by (eapply row_kept_trans; [exact R2|];
                    eapply row_kept_trans; eassumption).
              assert (St : state l4 = state_for flags l4).
              { destruct RK as (Ik & _ & _ & Sk). rewrite Sk, S1.
                unfold state_for. now rewrite Ik. }
              assert (Ev : create_event_to_send l4 = Some MR_EVENT_MSGS_CHANGED)
                by congruence.
              destruct (imf_event_to_send_claimed ths ths4 flags l4 Cfg Ev St)
                as (Cl & R5 & L5 & P5 & C5 & RR5).
              destruct (imf_reports_ok ths4 mime_parser (imf_event_to_send ths4 l4))
                as (S6 & T6 & (R6 & L6 & P6 & C6 & E6)).
              destruct (imf_reports ths4 mime_parser (imf_event_to_send ths4 l4))
                as [ths6 l6].
              cbn [fst snd] in *.
              destruct rows as [|row rows]; [now contradiction (N3 HP)|].
              inversion Fa3 as [|? ? Hrow Hrows]; subst row.
              rewrite Rm in T3. cbn [safe_strdup] in T3.
              eapply O_stored with (fields := fields) (ths1 := ths1) (ths2 := ths6)
                (mid := mid) (rest := (rows ++ rows')%list); eauto.
              ** eapply settled_trans; [exact S3|]. eapply settled_trans; eassumption.
              ** rewrite T6, T4, T3. rewrite <- app_assoc. reflexivity.
              ** congruence.
              ** rewrite C6, C5, Cr4, Cr3.
                 intros Eq. apply app_eq_nil in Eq. destruct Eq as [Eq _].
                 apply app_eq_nil in Eq. destruct Eq as [_ Eq]. now apply (Nm3 HP).
              ** rewrite E6, Cl. symmetry. apply claimed_row_event_kept. exact R6.
           ++ destruct Run4 as (Io4 & S4 & R4 & (F4a & F4b & F4c & F4d & F4e)).
              cbn [fst snd].
              assert (Io1 : io_error (m_sql ths) = true)
                by (destruct S3 as (_ & _ & IOs & _); congruence).
              assert (S14 : settled ths1 ths4)
                by (eapply settled_trans; eassumption).
              eapply O_io_failed with (fields := fields) (ths1 := ths1) (mid := mid);
                eauto; congruence.
        -- destruct Run3 as (Io3 & S3 & R3 & (F3a & F3b & F3c & F3d & F3e)).
           cbn [fst snd].
           eapply O_io_failed with (fields := fields) (ths1 := ths1) (mid := mid);
             eauto; congruence.
    + destruct M as [-> Rn]. cbn [fst snd].
      eapply O_no_mid; eauto; congruence.
Qed.

End Outcome.

(** *** The code after [cleanup] *)

Lemma send_events_ok ev q : forall ths,
  m_sql (send_events ths ev q) = m_sql ths /\
  m_trace (send_events ths ev q)
  = (m_trace ths ++ map (fun d => Cb ev (fst d) (snd d)) (pairs q))%list.
Proof.
  unfold send_events. induction (pairs q) as [|d r IH]; intros ths; cbn [fold_left map].
  - split; [reflexivity | now rewrite app_nil_r].
  - destruct (IH (m_cb ths ev (fst d) (snd d))) as [S T]. rewrite S, T.
    split; [reflexivity|]. cbn [m_cb emit m_trace]. now rewrite <- app_assoc.
Qed.

Lemma receive_imf_cleanup_ok ths l :
  m_sql (receive_imf_cleanup ths l)
  = (if transaction_pending l
     then match m_saved ths with Some old => old | None => m_sql ths end
     else m_sql ths) /\
  m_trace (receive_imf_cleanup ths l)
  = (m_trace ths
     ++ (if transaction_pending l then [Rollback] else [])
     ++ (if db_locked l then [Unlock] else [])
     ++ row_callbacks l ++ read_callbacks l)%list.
Proof.
  unfold receive_imf_cleanup, row_callbacks, read_callbacks. cbv zeta.
  match goal with
  | |- context [send_events ?a MR_EVENT_MSG_READ ?q] =>
      destruct (send_events_ok MR_EVENT_MSG_READ q a) as [S T]
  end.
  rewrite S, T. clear S T.
  destruct (create_event_to_send l) as [ev|].
  - match goal with
    | |- context [send_events ?a ev ?q] =>
        destruct (send_events_ok ev q a) as [S T]
    end.
    rewrite S, T. clear S T.
    destruct (transaction_pending l), (db_locked l);
      cbn [mrsqlite3_rollback__ mrsqlite3_unlock emit m_sql m_trace];
      (split; [reflexivity|]); rewrite <- ?app_assoc; reflexivity.
  - destruct (transaction_pending l), (db_locked l);
      cbn [mrsqlite3_rollback__ mrsqlite3_unlock emit m_sql m_trace];
      (split; [reflexivity|]); rewrite <- ?app_assoc; reflexivity.
Qed.

Lemma new_trace_app (a b : mrmailbox_t) (extra : list effect) :
  m_trace b = (m_trace a ++ extra)%list -> new_trace a b = extra.
Proof.
  intros H. unfold new_trace. rewrite H.
  rewrite skipn_app, Nat.sub_diag, skipn_all. reflexivity.
Qed.

(** The trace of a call: nothing without a header; else the lock and the
    begin, [CHAT_MODIFIED] callbacks, the commit or the rollback, the unlock,
    and then the queued callbacks. The rows after the call are those at the
    label [cleanup], or those saved at the begin when the transaction is
    still pending there. Where the trace has the commit, the locals at
    [cleanup] hold the event the claim on the per-row event predicts, or no
    row was queued. Where it has the rollback, the rows are those before
    the call or those with the new place of the mail noted, no report is
    queued, and a row is queued only if an INSERT step failed. *)
Lemma receive_imf_trace ths mime_parser server_folder server_uid flags :
  let b := receive_imf_body ths mime_parser server_folder server_uid flags in
  let t := receive_imf ths mime_parser server_folder server_uid flags in
  (m_header mime_parser = None /\ t = ths /\ snd b = locals_init) \/
  (exists M close,
      new_trace ths t
      = ([Lock; Begin] ++ M ++ [close; Unlock]
         ++ row_callbacks (snd b) ++ read_callbacks (snd b))%list /\
      forallb is_chat_modified M = true /\
      (close = Commit /\ transaction_pending (snd b) = false /\
       ((m_parts mime_parser = [] /\ created_db_entries (snd b) = []) \/
        (created_db_entries (snd b) <> [] /\
         create_event_to_send (snd b) = claimed_row_event ths flags (snd b))) \/
       close = Rollback /\
       (m_sql t = m_sql ths \/
        exists mid,
          m_sql t
          = mrmailbox_update_server_uid__ (m_sql ths) mid server_folder server_uid) /\
       rr_event_to_send (snd b) = [] /\
       (created_db_entries (snd b) = [] \/
        io_error (m_sql ths) = true /\
        create_event_to_send (snd b) = Some MR_EVENT_MSGS_CHANGED)) /\
      m_sql t = (if transaction_pending (snd b) then m_sql ths else m_sql (fst b))).
Proof.
  intros b t. subst b t. unfold receive_imf.
  pose proof (receive_imf_body_outcome ths mime_parser server_folder server_uid flags)
    as O.
  destruct (receive_imf_body ths mime_parser server_folder server_uid flags)
    as [ths' l].
  cbn [fst snd] in *.
  destruct (receive_imf_cleanup_ok ths' l) as [Sq Tr].
  inversion O as
      [ Hh E1 E2
      | fields ths1 ths2 l0 Hh Hp Q S T L C E1 E2
      | fields ths1 l0 Hh Hm Q L P C R E1 E2
      | fields ths1 l0 mid Hh Hp Q Hm LT L P C R E1 E2
      | fields ths1 l0 mid ofo ou Hh Hp Q Hm LT D L C R E1 E2
      | fields ths1 ths2 l0 mid Hh Hp IO Q Hm LT S L P Ev R E1 E2
      | fields ths1 ths2 l0 mid rest Hh Hp Q Hm LT S T L C Ev E1 E2 ];
    subst.
  - left. split; [assumption|]. split; reflexivity.
  - right. destruct Q as (Sv & _ & _ & M & TM & FM). destruct S as (_ & _ & _ & TS).
    exists M, Commit. split; [|split; [exact FM | split; [left; split; [reflexivity|]; split; [reflexivity|]; left; split; [exact Hp | exact C]|]]].
    + apply new_trace_app. rewrite Tr. cbn [transaction_pending set_transaction_pending
        db_locked mrsqlite3_commit__ m_trace]. rewrite L, TS, TM.
      cbn [mrsqlite3_begin_transaction__ mrsqlite3_lock emit m_trace].
      rewrite <- !app_assoc. reflexivity.
    + rewrite Sq. reflexivity.
  - right. destruct Q as (Sv & _ & _ & M & TM & FM).
    exists M, Rollback. split; [|split; [exact FM | split]].
    + apply new_trace_app. rewrite Tr, P, L, TM.
      cbn [mrsqlite3_begin_transaction__ mrsqlite3_lock emit m_trace].
      rewrite <- !app_assoc. reflexivity.
    + right. split; [reflexivity|]. split; [|split; [exact R | left; exact C]].
      left. rewrite Sq, P, Sv. reflexivity.
    + rewrite Sq, P, Sv. reflexivity.
  - right. destruct Q as (Sv & _ & _ & M & TM & FM).
    exists M, Rollback. split; [|split; [exact FM | split]].
    + apply new_trace_app. rewrite Tr, P, L, TM.
      cbn [mrsqlite3_begin_transaction__ mrsqlite3_lock emit m_trace].
      rewrite <- !app_assoc. reflexivity.
    + right. split; [reflexivity|]. split; [|split; [exact R | left; exact C]].
      left. rewrite Sq, P, Sv. reflexivity.
    + rewrite Sq, P, Sv. reflexivity.
  - right. destruct Q as (Sv & _ & _ & M & TM & FM).
    exists M, Rollback. split; [|split; [exact FM | split]].
    + apply new_trace_app. rewrite Tr.
      cbn [transaction_pending set_transaction_pending db_locked set_sql
           mrsqlite3_rollback__ m_trace]. rewrite L, TM.
      cbn [mrsqlite3_begin_transaction__ mrsqlite3_lock emit m_trace].
      rewrite <- !app_assoc. reflexivity.
    + right. split; [reflexivity|]. split; [|split; [exact R | left; exact C]].
      right. exists mid. rewrite Sq.
      cbn [transaction_pending set_transaction_pending set_sql m_sql
           mrsqlite3_rollback__].
      rewrite Sv. reflexivity.
    + rewrite Sq. reflexivity.
  - right. destruct Q as (Sv & _ & _ & M & TM & FM).
    destruct S as (Sv2 & _ & _ & TS).
    exists M, Rollback. split; [|split; [exact FM | split]].
    + apply new_trace_app. rewrite Tr, P, L, TS, TM.
      cbn [mrsqlite3_begin_transaction__ mrsqlite3_lock emit m_trace].
      rewrite <- !app_assoc. reflexivity.
    + right. split; [reflexivity|].
      split; [|split; [exact R | right; split; [exact IO | exact Ev]]].
      left. rewrite Sq, P, Sv2, Sv. reflexivity.
    + rewrite Sq, P, Sv2, Sv. reflexivity.
  - right. destruct Q as (Sv & _ & _ & M & TM & FM). destruct S as (_ & _ & _ & TS).
    exists M, Commit. split; [|split; [exact FM | split; [left; split; [reflexivity|]; split; [reflexivity|]; right; split; [exact C | exact Ev]|]]].
    + apply new_trace_app. rewrite Tr. cbn [transaction_pending set_transaction_pending
        db_locked mrsqlite3_commit__ m_trace]. rewrite L, TS, TM.
      cbn [mrsqlite3_begin_transaction__ mrsqlite3_lock emit m_trace].
      rewrite <- !app_assoc. reflexivity.
    + rewrite Sq. reflexivity.
Qed.

Lemma receive_imf_shape ths mime_parser server_folder server_uid flags :
  let b := receive_imf_body ths mime_parser server_folder server_uid flags in
  let t := receive_imf ths mime_parser server_folder server_uid flags in
  (m_header mime_parser = None /\ t = ths /\ snd b = locals_init) \/
  (exists M close,
      new_trace ths t
      = ([Lock; Begin] ++ M ++ [close; Unlock]
         ++ row_callbacks (snd b) ++ read_callbacks (snd b))%list /\
      forallb is_chat_modified M = true /\
      (close = Commit \/ close = Rollback) /\
      m_sql t = (if transaction_pending (snd b) then m_sql ths else m_sql (fst b))).
Proof.
  intros b t.
  destruct (receive_imf_trace ths mime_parser server_folder server_uid flags)
    as [H | (M & close & T & FM & Cl & Sq)]; [left; exact H|].
  right. exists M, close. split; [exact T|]. split; [exact FM|].
  split; [|exact Sq]. destruct Cl as [(Cl & _) | (Cl & _)]; [left | right]; exact Cl.
Qed.

(** *** Reading the trace of a call *)

Lemma chat_modified_no_row M :
  forallb is_chat_modified M = true -> filter is_row_event M = [].
Proof.
  induction M as [|e M IH]; cbn [forallb filter]; [reflexivity|].
  intros H. apply andb_true_iff in H. destruct H as [He HM].
  destruct e as [[] ? ?| | | | |]; try discriminate He. exact (IH HM).
Qed.

Lemma chat_modified_callbacks M :
  forallb is_chat_modified M = true -> callbacks M = M.
Proof.
  unfold callbacks. induction M as [|e M IH]; cbn [forallb filter]; [reflexivity|].
  intros H. apply andb_true_iff in H. destruct H as [He HM].
  destruct e as [[] ? ?| | | | |]; try discriminate He.
  cbn [is_callback]. now rewrite (IH HM).
Qed.

Lemma read_callbacks_no_row l : filter is_row_event (read_callbacks l) = [].
Proof.
  unfold read_callbacks. induction (pairs (rr_event_to_send l)) as [|d r IH];
    [reflexivity | exact IH].
Qed.

Lemma row_callbacks_filter ev (ps : list (Z * Z)) :
  ev = MR_EVENT_INCOMING_MSG \/ ev = MR_EVENT_MSGS_CHANGED ->
  filter is_row_event (map (fun d => Cb ev (fst d) (snd d)) ps)
  = map (fun d => Cb ev (fst d) (snd d)) ps.
Proof.
  intros [E|E]; subst ev; induction ps as [|d r IH]; cbn [map filter is_row_event];
    congruence.
Qed.

Lemma claimed_row_event_codes ths flags l ev :
  claimed_row_event ths flags l = Some ev ->
  ev = MR_EVENT_INCOMING_MSG \/ ev = MR_EVENT_MSGS_CHANGED.
Proof.
  unfold claimed_row_event.
  destruct (incoming l && negb (imap_seen flags))%bool.
  - destruct (from_id_blocked l); [discriminate|].
    destruct (chat_id l =? MR_CHAT_ID_DEADDROP).
    + destruct (mrsqlite3_get_config_int__ (m_sql ths) "show_deaddrop" 0 =? 0);
        intros E; injection E as <-; auto.
    + intros E; injection E as <-; auto.
  - intros E; injection E as <-; auto.
Qed.

(** The per-row events of a call are those queued at the label [cleanup]. *)
Lemma receive_imf_rows ths mime_parser server_folder server_uid flags :
  filter is_row_event
    (new_trace ths (receive_imf ths mime_parser server_folder server_uid flags))
  = filter is_row_event
      (row_callbacks
         (snd (receive_imf_body ths mime_parser server_folder server_uid flags))).
Proof.
  destruct (receive_imf_shape ths mime_parser server_folder server_uid flags)
    as [(_ & E & L) | (M & close & T & FM & Cl & _)].
  - rewrite E, L. unfold new_trace. now rewrite skipn_all.
  - rewrite T. rewrite !filter_app. rewrite (chat_modified_no_row M FM).
    rewrite read_callbacks_no_row, app_nil_r.
    destruct Cl as [-> | ->]; reflexivity.
Qed.





(** *** Two calls in a row *)

Lemma lookup_triple_update sql mid folder uid x :
  lookup_triple mid (triples sql) = Some x ->
  lookup_triple mid (triples (mrmailbox_update_server_uid__ sql mid folder uid))
  = Some (folder, uid).
Proof.
  unfold lookup_triple, triples, mrmailbox_update_server_uid__.
  cbn [msgs set_msgs].
  induction (msgs sql) as [|m r IH]; cbn [map find triple fst snd].
  - discriminate.
  - destruct (String.eqb (msg_rfc724_mid m) mid) eqn:E.
    + intros _. cbn [triple with_server_uid msg_rfc724_mid msg_server_folder
                     msg_server_uid fst snd].
      rewrite E. reflexivity.
    + cbn [triple fst snd]. rewrite E. exact IH.
Qed.


Lemma quiet_triples a b : quiet a b -> triples (m_sql b) = triples (m_sql a).
Proof. intros (_ & _ & (_ & _ & Ms) & _). unfold triples. now rewrite Ms. Qed.



Lemma chat_modified_no_read M :
  forallb is_chat_modified M = true -> filter is_msg_read M = [].
Proof.
  induction M as [|e M IH]; cbn [forallb filter]; [reflexivity|].
  intros H. apply andb_true_iff in H. destruct H as [He HM].
  destruct e as [[] ? ?| | | | |]; try discriminate He. exact (IH HM).
Qed.



(** *** The direction of a mail *)

Lemma quiet_configured_addr a b : quiet a b -> configured_addr b = configured_addr a.
Proof.
  intros (_ & _ & (Cf & _ & _) & _). unfold configured_addr, mrsqlite3_get_config__.
  now rewrite Cf.
Qed.

Lemma contact_by_addr_check_self ths name addr origin ids cs :
  snd (add_or_lookup_contact_by_addr__ ths name addr origin ids cs)
  = strcasecmp_eq (configured_addr ths) addr.
Proof.
  unfold add_or_lookup_contact_by_addr__. cbv zeta.
  destruct (strcasecmp_eq (configured_addr ths) addr); [reflexivity|].
  destruct (mrmailbox_add_or_lookup_contact__ _ _ _ _) as [sql row_id].
  destruct (negb (row_id =? 0)); [destruct (negb _)|]; reflexivity.
Qed.

(** What a walk over a list of mailboxes leaves in [check_self] is the
    answer for the last mailbox alone: every call for one address clears the
    flag before it looks at the address. *)
Theorem mailbox_list_check_self_of_last front : forall ths mb origin ids cs,
  snd (add_or_lookup_contacts_by_mailbox_list__ ths (front ++ [Some mb]) origin ids cs)
  = strcasecmp_eq (configured_addr ths) (mb_addr_spec mb).
Proof.
  induction front as [|[m|] cur IH]; intros ths mb origin ids cs;
    cbn [app add_or_lookup_contacts_by_mailbox_list__].
  - pose proof (contact_by_addr_check_self
                  ths (mb_display_name mb) (mb_addr_spec mb) origin ids cs) as E.
    destruct (add_or_lookup_contact_by_addr__ _ _ _ _ _ _) as [[ths1 ids1] cs1].
    exact E.
  - pose proof (quiet_add_or_lookup_contact_by_addr
                  ths (mb_display_name m) (mb_addr_spec m) origin ids cs) as Q.
    destruct (add_or_lookup_contact_by_addr__ _ _ _ _ _ _) as [[ths1 ids1] cs1].
    cbn [fst] in Q. rewrite IH. now rewrite (quiet_configured_addr _ _ Q).
  - apply IH.
Qed.

(** A walk over two lists on end is the walk over the second, started where
    the walk over the first leaves off; the own address is the same there. *)
Lemma mailbox_list_app front back : forall ths origin ids cs,
  exists ths1 ids1 cs1,
    add_or_lookup_contacts_by_mailbox_list__ ths (front ++ back) origin ids cs
    = add_or_lookup_contacts_by_mailbox_list__ ths1 back origin ids1 cs1 /\
    configured_addr ths1 = configured_addr ths.
Proof.
  induction front as [|[m|] cur IH]; intros ths origin ids cs;
    cbn [app add_or_lookup_contacts_by_mailbox_list__].
  - exists ths, ids, cs. split; reflexivity.
  - pose proof (quiet_add_or_lookup_contact_by_addr
                  ths (mb_display_name m) (mb_addr_spec m) origin ids cs) as Q.
    destruct (add_or_lookup_contact_by_addr__ _ _ _ _ _ _) as [[ths0 ids0] cs0].
    cbn [fst] in Q. destruct (IH ths0 origin ids0 cs0) as (ths1 & ids1 & cs1 & E & A).
    exists ths1, ids1, cs1. split; [exact E|].
    rewrite A. exact (quiet_configured_addr _ _ Q).
  - apply IH.
Qed.

Lemma imf_to_direction ths fields l :
  incoming (snd (imf_to ths fields l)) = incoming l /\
  has_return_path (snd (imf_to ths fields l)) = has_return_path l.
Proof.
  unfold imf_to.
  destruct (negb (incoming l) || incoming_from_known_sender l)%bool;
    [|split; reflexivity].
  destruct (mr_find_mailimf_field sel_to fields) as [[adr|]|]; try (split; reflexivity).
  destruct (add_or_lookup_contacts_by_address_list__ _ _ _ _ _) as [[ths1 ids] cs].
  split; reflexivity.
Qed.

(** The direction [receive_imf] settles on, for a [From:] whose last mailbox
    is there: the mail is taken as incoming exactly when the header has a
    [Return-Path] (the field, or an optional field of that name) and the
    last mailbox of [From:] is not the own address. *)
Theorem imf_prologue_direction ths fields front mb :
  mr_find_mailimf_field sel_from fields = Some (Some (front ++ [Some mb])%list) ->
  let l := snd (imf_prologue ths fields) in
  has_return_path l = existsb is_return_path fields /\
  incoming l = (existsb is_return_path fields
                && negb (strcasecmp_eq (configured_addr ths) (mb_addr_spec mb)))%bool.
Proof.
  intros Hfrom. cbv zeta. unfold imf_prologue. cbv zeta.
  match goal with
  | |- context [imf_from ?tb fields ?l0] =>
      destruct (imf_to_direction (fst (imf_from tb fields l0)) fields
                  (snd (imf_from tb fields l0))) as [I R];
      assert (F : has_return_path (snd (imf_from tb fields l0))
                  = existsb is_return_path fields /\
                  incoming (snd (imf_from tb fields l0))
                  = (existsb is_return_path fields
                     && negb (strcasecmp_eq (configured_addr ths) (mb_addr_spec mb)))%bool);
      [|destruct (imf_from tb fields l0) as [ths1 l1]; cbn [fst snd] in *;
        rewrite I, R; exact F]
  end.
  clear I R. unfold imf_from.
  cbn [has_return_path set_has_return_path incoming set_incoming set_db_locked
       set_transaction_pending locals_init].
  destruct (existsb is_return_path fields) eqn:Rp;
    cbn [has_return_path set_has_return_path incoming set_incoming set_db_locked
         set_transaction_pending locals_init fst snd andb];
    [|split; reflexivity].
  rewrite Hfrom.
  destruct (mailbox_list_app front [Some mb]
              (mrsqlite3_begin_transaction__ (mrsqlite3_lock ths))
              MR_ORIGIN_INCOMING_UNKNOWN_FROM [] false)
    as (ths0 & ids0 & cs0 & W & A).
  rewrite W. cbn [add_or_lookup_contacts_by_mailbox_list__].
  pose proof (contact_by_addr_check_self
                ths0 (mb_display_name mb) (mb_addr_spec mb)
                MR_ORIGIN_INCOMING_UNKNOWN_FROM ids0 cs0) as E.
  destruct (add_or_lookup_contact_by_addr__ _ _ _ _ _ _) as [[ths1 ids] cs].
  cbn [snd] in E. rewrite A in E.
  change (configured_addr (mrsqlite3_begin_transaction__ (mrsqlite3_lock ths)))
    with (configured_addr ths) in E.
  rewrite <- E.
  destruct cs; [split; reflexivity|].
  destruct ids as [|first rest]; [split; reflexivity|].
  cbv zeta. destruct (mrmailbox_is_known_contact__ _ _) as [known blocked].
  destruct known; split; reflexivity.
Qed.

(** *** What reaches the callback inside the transaction *)

Lemma in_transaction_chat_modified M R :
  forallb is_chat_modified M = true ->
  callbacks_in_transaction true (M ++ R) = (M ++ callbacks_in_transaction true R)%list.
Proof.
  induction M as [|e M IH]; cbn [forallb app]; [reflexivity|].
  intros H. apply andb_true_iff in H. destruct H as [He HM].
  destruct e as [[] ? ?| | | | |]; try discriminate He.
  cbn [callbacks_in_transaction app]. now rewrite (IH HM).
Qed.

Lemma under_lock_chat_modified M R :
  forallb is_chat_modified M = true ->
  callbacks_under_lock true (M ++ R) = (M ++ callbacks_under_lock true R)%list.
Proof.
  induction M as [|e M IH]; cbn [forallb app]; [reflexivity|].
  intros H. apply andb_true_iff in H. destruct H as [He HM].
  destruct e as [[] ? ?| | | | |]; try discriminate He.
  cbn [callbacks_under_lock app]. now rewrite (IH HM).
Qed.

Lemma outside_transaction_callbacks Q :
  forallb is_callback Q = true -> callbacks_in_transaction false Q = [].
Proof.
  induction Q as [|e Q IH]; cbn [forallb]; [reflexivity|].
  intros H. apply andb_true_iff in H. destruct H as [He HQ].
  destruct e; try discriminate He. cbn [callbacks_in_transaction app]. exact (IH HQ).
Qed.

Lemma outside_lock_callbacks Q :
  forallb is_callback Q = true -> callbacks_under_lock false Q = [].
Proof.
  induction Q as [|e Q IH]; cbn [forallb]; [reflexivity|].
  intros H. apply andb_true_iff in H. destruct H as [He HQ].
  destruct e; try discriminate He. cbn [callbacks_under_lock app]. exact (IH HQ).
Qed.

Lemma queued_callbacks l :
  forallb is_callback (row_callbacks l ++ read_callbacks l) = true.
Proof.
  rewrite forallb_app. apply andb_true_iff. split.
  - unfold row_callbacks. destruct (create_event_to_send l) as [ev|]; [|reflexivity].
    induction (pairs (created_db_entries l)) as [|d r IH]; [reflexivity | exact IH].
  - unfold read_callbacks.
    induction (pairs (rr_event_to_send l)) as [|d r IH]; [reflexivity | exact IH].
Qed.

(** The queued events come after the transaction and the lock: in every call
    of [receive_imf], the callbacks made while its transaction is open, and
    those made while it holds the lock, are [CHAT_MODIFIED] ones only; no
    [INCOMING_MSG], [MSGS_CHANGED] or [MSG_READ] is among them. *)
Theorem receive_imf_queued_events_after_commit
  ths mime_parser server_folder server_uid flags :
  let tr := new_trace ths (receive_imf ths mime_parser server_folder server_uid flags) in
  forallb is_chat_modified (callbacks_in_transaction false tr) = true /\
  forallb is_chat_modified (callbacks_under_lock false tr) = true.
Proof.
  cbv zeta.
  destruct (receive_imf_shape ths mime_parser server_folder server_uid flags)
    as [(_ & E & _) | (M & close & T & FM & Cl & _)].
  - rewrite E. unfold new_trace. rewrite skipn_all. split; reflexivity.
  - rewrite T. cbn [app callbacks_in_transaction callbacks_under_lock].
    rewrite (in_transaction_chat_modified M _ FM).
    rewrite (under_lock_chat_modified M _ FM).
    pose proof (queued_callbacks
                  (snd (receive_imf_body ths mime_parser server_folder server_uid
                          flags))) as Q.
    destruct Cl as [-> | ->];
      cbn [app callbacks_in_transaction callbacks_under_lock];
      rewrite (outside_transaction_callbacks _ Q), (outside_lock_callbacks _ Q),
        app_nil_r;
      split; exact FM.
Qed.

(** *** The lock, the transaction and the rows of a call *)

Lemma lock_protocol_callbacks Q : forall locked pending,
  forallb is_callback Q = true ->
  lock_protocol locked pending Q = Some (locked, pending).
Proof.
  induction Q as [|e Q IH]; intros locked pending; cbn [forallb]; [reflexivity|].
  intros H. apply andb_true_iff in H. destruct H as [He HQ].
  destruct e; try discriminate He. cbn [lock_protocol]. exact (IH _ _ HQ).
Qed.

Lemma lock_protocol_chat_modified M R : forall locked pending,
  forallb is_chat_modified M = true ->
  lock_protocol locked pending (M ++ R) = lock_protocol locked pending R.
Proof.
  induction M as [|e M IH]; intros locked pending; cbn [forallb app]; [reflexivity|].
  intros H. apply andb_true_iff in H. destruct H as [He HM].
  destruct e; try discriminate He. cbn [lock_protocol]. exact (IH _ _ HM).
Qed.

(** [receive_imf] keeps the order of the store calls and leaves nothing
    held: whatever the mail, the call takes the lock at most once, opens its
    transaction under the lock, commits it or rolls it back before it
    releases the lock, and returns with the lock released and no transaction
    open. A mail without a header does not touch the mailbox at all. *)
Theorem receive_imf_lock_protocol ths mime_parser server_folder server_uid flags :
  let t := receive_imf ths mime_parser server_folder server_uid flags in
  lock_protocol false false (new_trace ths t) = Some (false, false) /\
  (m_header mime_parser = None -> t = ths).
Proof.
  cbv zeta.
  destruct (receive_imf_shape ths mime_parser server_folder server_uid flags)
    as [(Hn & E & _) | (M & close & T & FM & Cl & _)].
  - rewrite E. unfold new_trace. rewrite skipn_all. split; reflexivity.
  - split.
    + rewrite T. cbn [app lock_protocol andb negb].
      rewrite (lock_protocol_chat_modified M _ _ _ FM).
      pose proof (queued_callbacks
                    (snd (receive_imf_body ths mime_parser server_folder server_uid
                            flags))) as Q.
      destruct Cl as [-> | ->]; cbn [app lock_protocol andb negb];
        exact (lock_protocol_callbacks _ _ _ Q).
    + intros Hn. unfold receive_imf, receive_imf_body. rewrite Hn. reflexivity.
Qed.

(** A mail that is stored under another folder or uid: the call rolls its
    transaction back and then only notes the new place. Whatever the header
    did before the duplicate was seen is undone; the rows after the call are
    those before it with the folder and the uid of the call written to the
    rows of this Message-ID, and no event but [CHAT_MODIFIED] is delivered. *)
Theorem receive_imf_moved ths mime_parser server_folder server_uid flags
  fields mid old_folder old_uid :
  m_header mime_parser = Some fields ->
  header_mid fields = Some mid ->
  m_parts mime_parser <> [] ->
  lookup_triple mid (triples (m_sql ths)) = Some (old_folder, old_uid) ->
  (negb (strcmp_eq old_folder server_folder) || negb (old_uid =? server_uid))%bool
  = true ->
  let t := receive_imf ths mime_parser server_folder server_uid flags in
  m_sql t = mrmailbox_update_server_uid__ (m_sql ths) mid server_folder server_uid /\
  lookup_triple mid (triples (m_sql t)) = Some (server_folder, server_uid) /\
  forallb is_chat_modified (callbacks (new_trace ths t)) = true.
Proof.
  intros Hf Hmid Hparts Hk Hd. cbv zeta.
  assert (B : exists ths1 l1,
             quiet (mrsqlite3_begin_transaction__ (mrsqlite3_lock ths)) ths1 /\
             db_locked l1 = true /\ created_db_entries l1 = [] /\
             rr_event_to_send l1 = [] /\
             receive_imf_body ths mime_parser server_folder server_uid flags
             = (set_sql (mrsqlite3_rollback__ ths1)
                        (mrmailbox_update_server_uid__
                           (m_sql (mrsqlite3_rollback__ ths1)) mid
                           server_folder server_uid),
                set_transaction_pending l1 false)).
  { unfold receive_imf_body. rewrite Hf.
    destruct (imf_prologue_ok ths fields) as (QP & LP & PP & CP & EP & RP & MP).
    cbv zeta in QP.
    destruct (imf_prologue ths fields) as [thsP lP]. cbn [fst snd] in *.
    destruct (m_parts mime_parser) as [|part parts] eqn:Parts; [contradiction|].
    unfold imf_add_parts.
    destruct (imf_prepare_ok thsP mime_parser fields flags lP)
      as (Q1 & (C1a & C1b & C1c & C1d & C1e) & R1 & _).
    destruct (imf_prepare thsP mime_parser fields flags lP) as [ths1 l1].
    cbn [fst snd] in *.
    assert (Q : quiet (mrsqlite3_begin_transaction__ (mrsqlite3_lock ths)) ths1)
      by (eapply quiet_trans; eassumption).
    rewrite MP in R1. fold (header_mid fields) in R1. rewrite Hmid in R1.
    unfold imf_message_id. rewrite R1.
    unfold imf_store, imf_dedup. rewrite R1. cbn [safe_strdup].
    rewrite rfc724_mid_exists_triples, (quiet_triples _ _ Q).
    cbn [mrsqlite3_begin_transaction__ mrsqlite3_lock emit m_sql].
    rewrite Hk, Hd.
    exists ths1, l1. split; [exact Q|]. split; [congruence|].
    split; [congruence|]. split; [congruence|].
    cbn [rfc724_mid set_transaction_pending]. rewrite R1. reflexivity. }
  destruct B as (ths1 & l1 & Q & L & C & R & E).
  unfold receive_imf. rewrite E. clear E.
  destruct Q as (Sv & _ & _ & M & TM & FM).
  assert (Sql : m_sql (mrsqlite3_rollback__ ths1) = m_sql ths).
  { cbn [mrsqlite3_rollback__ m_sql]. rewrite Sv. reflexivity. }
  rewrite Sql.
  set (t1 := set_sql (mrsqlite3_rollback__ ths1)
                     (mrmailbox_update_server_uid__ (m_sql ths) mid
                        server_folder server_uid)).
  destruct (receive_imf_cleanup_ok t1 (set_transaction_pending l1 false)) as [Sq Tr].
  cbn [transaction_pending set_transaction_pending] in Sq.
  assert (N : new_trace ths (receive_imf_cleanup t1 (set_transaction_pending l1 false))
              = ([Lock; Begin] ++ M ++ [Rollback; Unlock])%list).
  { apply new_trace_app. rewrite Tr.
    unfold row_callbacks, read_callbacks.
    cbn [transaction_pending set_transaction_pending db_locked created_db_entries
         rr_event_to_send create_event_to_send].
    rewrite L, C, R. subst t1.
    cbn [set_sql mrsqlite3_rollback__ m_trace]. rewrite TM.
    cbn [mrsqlite3_begin_transaction__ mrsqlite3_lock emit m_trace pairs map].
    destruct (create_event_to_send l1); rewrite <- !app_assoc; reflexivity. }
  rewrite Sq, N. subst t1. cbn [set_sql m_sql].
  split; [reflexivity|]. split.
  - now apply (lookup_triple_update _ _ _ _ (old_folder, old_uid)).
  - unfold callbacks. rewrite !filter_app.
    fold (callbacks M). rewrite (chat_modified_callbacks M FM).
    cbn [filter is_callback app]. now rewrite app_nil_r.
Qed.

(** *** Read receipts *)

Lemma imf_insert_parts_rr mime_parser server_folder server_uid parts : forall ths l,
  match imf_insert_parts ths mime_parser parts server_folder server_uid l with
  | Next (ths', l') =>
      rr_event_to_send l' = rr_event_to_send l /\
      config (m_sql ths') = config (m_sql ths)
  | Goto_cleanup (ths', l') => rr_event_to_send l' = rr_event_to_send l
  end.
Proof.
  intros ths l.
  pose proof (imf_insert_parts_run mime_parser server_folder server_uid parts ths l) as R.
  destruct (imf_insert_parts _ _ _ _ _ _) as [[t' l']|[t' l']].
  - destruct R as ((_ & Cf & _) & _ & (_ & _ & _ & Rr & _) & _). split; assumption.
  - destruct R as (_ & _ & _ & (_ & _ & _ & Rr & _)). exact Rr.
Qed.

Lemma imf_insert_ghosts_rr mime_parser ghost_txt recipients : forall ths l,
  match imf_insert_ghosts ths mime_parser recipients ghost_txt l with
  | Next (ths', l') =>
      rr_event_to_send l' = rr_event_to_send l /\
      config (m_sql ths') = config (m_sql ths)
  | Goto_cleanup (ths', l') => rr_event_to_send l' = rr_event_to_send l
  end.
Proof.
  intros ths l.
  pose proof (imf_insert_ghosts_run mime_parser ghost_txt recipients ths l) as R.
  destruct (imf_insert_ghosts _ _ _ _ _) as [[t' l']|[t' l']].
  - destruct R as ((_ & Cf & _) & _ & (_ & _ & _ & Rr & _) & _). split; assumption.
  - destruct R as (_ & _ & _ & (_ & _ & _ & Rr & _)). exact Rr.
Qed.

Lemma imf_event_to_send_rr ths l :
  rr_event_to_send (imf_event_to_send ths l) = rr_event_to_send l.
Proof.
  unfold imf_event_to_send.
  destruct (incoming l && msg_state_eqb (state l) MR_IN_FRESH)%bool; [|reflexivity].
  destruct (from_id_blocked l); [reflexivity|].
  destruct (chat_id l =? MR_CHAT_ID_DEADDROP); [|reflexivity].
  destruct (negb _); reflexivity.
Qed.

(** The block "Add parts" leaves the queue of read receipts alone, and the
    configuration too when it runs to its end. *)
Lemma imf_add_parts_rr ths mime_parser fields server_folder server_uid flags l :
  match imf_add_parts ths mime_parser fields server_folder server_uid flags l with
  | Next (ths', l') =>
      rr_event_to_send l' = rr_event_to_send l /\
      config (m_sql ths') = config (m_sql ths)
  | Goto_cleanup (ths', l') => rr_event_to_send l' = rr_event_to_send l
  end.
Proof.
  unfold imf_add_parts.
  destruct (imf_prepare_ok ths mime_parser fields flags l)
    as (Q1 & (_ & _ & _ & _ & R1) & _).
  destruct (imf_prepare ths mime_parser fields flags l) as [ths1 l1].
  cbn [fst snd] in *.
  assert (Cf1 : config (m_sql ths1) = config (m_sql ths))
    by (destruct Q1 as (_ & _ & (Cq & _) & _); exact Cq).
  pose proof (imf_message_id_ok l1) as M.
  destruct (imf_message_id l1) as [l2|l2].
  - destruct M as (mid & _ & _ & (_ & _ & _ & _ & R2) & _).
    unfold imf_store, imf_dedup.
    destruct (mrmailbox_rfc724_mid_exists__ _ _) as [[old_folder old_uid]|].
    + destruct (negb _ || negb _)%bool; cbn [rr_event_to_send set_transaction_pending];
        congruence.
    + pose proof (imf_insert_parts_rr mime_parser server_folder server_uid
                    (m_parts mime_parser) ths1 l2) as P.
      destruct (imf_insert_parts ths1 mime_parser (m_parts mime_parser)
                  server_folder server_uid l2) as [[ths3 l3]|[ths3 l3]];
        [|congruence].
      destruct P as [R3 Cf3].
      unfold imf_ghosts.
      destruct (negb (incoming l3) && negb (is_group l3)
                && Nat.ltb 1 (List.length (to_list l3))
                && negb (first_dblocal_id l3 =? 0))%bool.
      * match goal with
        | |- context [imf_insert_ghosts ths3 mime_parser ?rs ?txt l3] =>
            pose proof (imf_insert_ghosts_rr mime_parser txt rs ths3 l3) as G;
            destruct (imf_insert_ghosts ths3 mime_parser rs txt l3)
              as [[ths4 l4]|[ths4 l4]]
        end.
        -- destruct G as [R4 Cf4]. rewrite imf_event_to_send_rr.
           split; congruence.
        -- congruence.
      * rewrite imf_event_to_send_rr. split; congruence.
  - destruct M as [-> _]. exact R1.
Qed.

Lemma imf_report_off acc report : imf_report 0 acc report = acc.
Proof.
  unfold imf_report. destruct acc as [ths l].
  destruct report as [[[pa_value|] mp_list]|]; try reflexivity.
  cbn [Z.eqb negb]. rewrite andb_false_r. reflexivity.
Qed.

Lemma imf_reports_off ths mime_parser l :
  mrsqlite3_get_config_int__ (m_sql ths) "mdns_enabled" MR_MDNS_DEFAULT_ENABLED = 0 ->
  imf_reports ths mime_parser l = (ths, l).
Proof.
  intros Off. unfold imf_reports.
  destruct (m_reports mime_parser) as [|r rs]; [reflexivity|].
  rewrite Off. generalize (r :: rs). intros reports.
  induction reports as [|x xs IH]; [reflexivity|].
  cbn [fold_left]. rewrite imf_report_off. exact IH.
Qed.

Lemma get_config_int_config a b key def :
  config a = config b ->
  mrsqlite3_get_config_int__ a key def = mrsqlite3_get_config_int__ b key def.
Proof.
  intros E. unfold mrsqlite3_get_config_int__, mrsqlite3_get_config__.
  now rewrite E.
Qed.

Lemma receive_imf_body_rr_off ths mime_parser server_folder server_uid flags :
  mrsqlite3_get_config_int__ (m_sql ths) "mdns_enabled" MR_MDNS_DEFAULT_ENABLED = 0 ->
  rr_event_to_send
    (snd (receive_imf_body ths mime_parser server_folder server_uid flags)) = [].
Proof.
  intros Off. unfold receive_imf_body.
  destruct (m_header mime_parser) as [fields|]; [|reflexivity].
  destruct (imf_prologue_ok ths fields) as (QP & _ & _ & _ & _ & RP & _).
  cbv zeta in QP.
  destruct (imf_prologue ths fields) as [thsP lP]. cbn [fst snd] in *.
  assert (CfP : config (m_sql thsP) = config (m_sql ths))
    by (destruct QP as (_ & _ & (Cq & _) & _); exact Cq).
  destruct (m_parts mime_parser) as [|part parts].
  - rewrite imf_reports_off
      by (rewrite (get_config_int_config _ (m_sql ths)); assumption).
    exact RP.
  - pose proof (imf_add_parts_rr thsP mime_parser fields server_folder server_uid
                  flags lP) as A.
    destruct (imf_add_parts thsP mime_parser fields server_folder server_uid flags lP)
      as [[ths2 l2]|[ths2 l2]]; cbn [snd]; [|congruence].
    destruct A as [R2 Cf2].
    rewrite imf_reports_off
      by (rewrite (get_config_int_config _ (m_sql ths)); congruence).
    cbv zeta. cbn [snd rr_event_to_send set_transaction_pending]. congruence.
Qed.

(** At the label [cleanup] no row is queued, or the event to send is still
    [MSGS_CHANGED], or it is the one the claim on the per-row event
    predicts. *)
Lemma receive_imf_event_codes ths mime_parser server_folder server_uid flags :
  let l := snd (receive_imf_body ths mime_parser server_folder server_uid flags) in
  created_db_entries l = [] \/
  create_event_to_send l = Some MR_EVENT_MSGS_CHANGED \/
  create_event_to_send l = claimed_row_event ths flags l.
Proof.
  cbv zeta.
  pose proof (receive_imf_body_outcome ths mime_parser server_folder server_uid flags)
    as O.
  destruct (receive_imf_body ths mime_parser server_folder server_uid flags)
    as [ths' l].
  cbn [fst snd] in *.
  inversion O as
      [ Hh E1 E2
      | fields ths1 ths2 l0 Hh Hp Q S T L C E1 E2
      | fields ths1 l0 Hh Hm Q L P C R E1 E2
      | fields ths1 l0 mid Hh Hp Q Hm LT L P C R E1 E2
      | fields ths1 l0 mid ofo ou Hh Hp Q Hm LT D L C R E1 E2
      | fields ths1 ths2 l0 mid Hh Hp IO Q Hm LT S L P Ev R E1 E2
      | fields ths1 ths2 l0 mid rest Hh Hp Q Hm LT S T L C Ev E1 E2 ];
    subst; auto.
Qed.

(** The rows a call announces are announced by [INCOMING_MSG] or
    [MSGS_CHANGED], never by another event. *)
Lemma receive_imf_body_row_callbacks ths mime_parser server_folder server_uid flags :
  forallb is_row_event
    (row_callbacks
       (snd (receive_imf_body ths mime_parser server_folder server_uid flags)))
  = true.
Proof.
  pose proof (receive_imf_event_codes ths mime_parser server_folder server_uid flags)
    as E.
  cbv zeta in E. unfold row_callbacks.
  destruct E as [E | [E | E]]; rewrite E.
  - destruct (create_event_to_send _); reflexivity.
  - induction (pairs _) as [|d r IH]; [reflexivity | exact IH].
  - destruct (claimed_row_event ths flags _) as [ev|] eqn:Cl; [|reflexivity].
    destruct (claimed_row_event_codes _ _ _ _ Cl) as [-> | ->];
      induction (pairs _) as [|d r IH]; try reflexivity; exact IH.
Qed.

(** With read receipts switched off ([mdns_enabled] is 0 in the
    configuration), no call of [receive_imf] delivers a [MSG_READ] event,
    whatever reports the mail carries. *)
Theorem receive_imf_no_msg_read_when_mdns_off
  ths mime_parser server_folder server_uid flags :
  mrsqlite3_get_config_int__ (m_sql ths) "mdns_enabled" MR_MDNS_DEFAULT_ENABLED = 0 ->
  filter is_msg_read
    (new_trace ths (receive_imf ths mime_parser server_folder server_uid flags)) = [].
Proof.
  intros Off.
  destruct (receive_imf_shape ths mime_parser server_folder server_uid flags)
    as [(_ & E & _) | (M & close & T & FM & Cl & _)].
  - rewrite E. unfold new_trace. now rewrite skipn_all.
  - rewrite T. unfold read_callbacks.
    rewrite (receive_imf_body_rr_off _ _ _ _ _ Off). cbn [pairs map].
    rewrite app_nil_r, !filter_app.
    assert (FM' : filter is_msg_read M = []).
    { clear T. induction M as [|e M IH]; [reflexivity|].
      cbn [forallb] in FM. apply andb_true_iff in FM. destruct FM as [He HM].
      destruct e as [[] ? ?| | | | |]; try discriminate He.
      cbn [filter is_msg_read]. exact (IH HM). }
    rewrite FM'.
    pose proof (receive_imf_body_row_callbacks ths mime_parser server_folder
                  server_uid flags) as RC.
    assert (RC' : forall q, forallb is_row_event q = true -> filter is_msg_read q = []).
    { induction q as [|e q IH]; [reflexivity|].
      cbn [forallb]. intros H. apply andb_true_iff in H. destruct H as [He Hq].
      destruct e as [[] ? ?| | | | |]; try discriminate He;
        cbn [filter is_msg_read]; exact (IH Hq). }
    rewrite (RC' _ RC).
    destruct Cl as [-> | ->]; reflexivity.
Qed.

(** *** The events for the parts of a mail *)





(** *** Mails of unknown senders *)

Lemma update_chat_name_ids sql name chat_id :
  map ch_id (chats (update_chat_name sql name chat_id)) = map ch_id (chats sql) /\
  contacts (update_chat_name sql name chat_id) = contacts sql.
Proof.
  unfold update_chat_name. cbn [set_chats chats contacts]. split; [|reflexivity].
  induction (chats sql) as [|c r IH]; [reflexivity|].
  cbn [map]. rewrite IH. destruct (ch_id c =? chat_id); reflexivity.
Qed.

(** Without the leave to create, the resolver makes no chat and no contact. *)
Lemma lookup_group_no_create mailbox mime_parser from_id to_list :
  let r := lookup_group_by_grpid__ mailbox mime_parser false from_id to_list in
  map ch_id (chats (m_sql (fst r))) = map ch_id (chats (m_sql mailbox)) /\
  contacts (m_sql (fst r)) = contacts (m_sql mailbox).
Proof.
  cbv zeta. unfold lookup_group_by_grpid__. cbv zeta.
  destruct (grp_select _) as [grpid|]; [|split; reflexivity].
  unfold grp_find_or_create. cbv zeta.
  destruct (negb _ && negb _)%bool; [split; reflexivity|].
  assert (NC : forall g c l a, grp_should_create g c false l a = false).
  { intros g c l a. unfold grp_should_create.
    destruct (c =? 0); reflexivity. }
  rewrite NC.
  destruct (_ <=? MR_CHAT_ID_LAST_SPECIAL); [split; reflexivity|].
  set (g := grp_walk (fld_list mime_parser)).
  set (chat := select_chat_by_grpid (m_sql mailbox) grpid).
  assert (Cm : map ch_id (chats (m_sql (fst (grp_commands mailbox g chat false))))
               = map ch_id (chats (m_sql mailbox)) /\
               contacts (m_sql (fst (grp_commands mailbox g chat false)))
               = contacts (m_sql mailbox)).
  { unfold grp_commands.
    destruct (X_MrAddToGrp g), (X_MrRemoveFromGrp g); try (split; reflexivity).
    destruct (X_MrGrpNameChanged g); [|split; reflexivity].
    destruct (grpname g) as [name|]; [|split; reflexivity].
    destruct (Nat.ltb (strlen name) 200); [|split; reflexivity].
    cbn [fst m_cb emit set_sql m_sql]. apply update_chat_name_ids. }
  destruct (grp_commands mailbox g chat false) as [mailbox1 recreate].
  cbn [fst] in Cm. destruct Cm as [Ci Cc].
  assert (Rc : map ch_id (chats (m_sql
                 (if recreate
                  then grp_recreate_member_list mailbox1 g chat
                         (configured_addr mailbox) from_id to_list
                  else mailbox1)))
               = map ch_id (chats (m_sql mailbox)) /\
               contacts (m_sql
                 (if recreate
                  then grp_recreate_member_list mailbox1 g chat
                         (configured_addr mailbox) from_id to_list
                  else mailbox1))
               = contacts (m_sql mailbox)).
  { destruct recreate; [|now split].
    destruct (grp_recreate_member_list_frame mailbox1 g chat
                (configured_addr mailbox) from_id to_list)
      as (_ & Kc & Kh & _).
    rewrite Kc, Kh. now split. }
  destruct (Nat.eqb _ 1 && negb _)%bool; [|exact Rc].
  destruct (3 <? _); exact Rc.
Qed.

Lemma is_reply_to_known_message_msgs a b mime_parser :
  msgs (m_sql a) = msgs (m_sql b) ->
  is_reply_to_known_message__ a mime_parser = is_reply_to_known_message__ b mime_parser.
Proof.
  intros E. unfold is_reply_to_known_message__, is_known_rfc724_mid_in_list__,
    is_known_rfc724_mid__.
  rewrite E. reflexivity.
Qed.

(** An incoming mail of a sender who is not known, and that answers no known
    message, makes no chat and no contact: the block that chooses the chat
    leaves the ids of the chats and the contacts as they were, and the mail
    goes to a group chat the resolver found, to the chat with the sender that
    is there already, or to the deaddrop. *)
Theorem imf_choose_chat_unknown_sender ths mime_parser flags l :
  incoming l = true ->
  incoming_from_known_sender l = false ->
  is_reply_to_known_message__ ths mime_parser = false ->
  let r := imf_choose_chat ths mime_parser flags l in
  map ch_id (chats (m_sql (fst r))) = map ch_id (chats (m_sql ths)) /\
  contacts (m_sql (fst r)) = contacts (m_sql ths) /\
  (is_group (snd r) = true \/
   chat_id (snd r) = MR_CHAT_ID_DEADDROP \/
   (chat_id (snd r) <> 0 /\
    chat_id (snd r)
    = mrmailbox_lookup_real_nchat_by_contact_id__ (m_sql (fst r)) (from_id l))).
Proof.
  intros Inc Unk NoReply. cbv zeta. unfold imf_choose_chat. rewrite Inc.
  cbv zeta.
  cbn [incoming_from_known_sender from_id to_list set_state set_to_id].
  rewrite Unk. cbn [andb].
  pose proof (lookup_group_no_create ths mime_parser (from_id l) (to_list l)) as G.
  pose proof (quiet_lookup_group ths mime_parser false (from_id l) (to_list l)) as Q.
  cbv zeta in G.
  destruct (lookup_group_by_grpid__ ths mime_parser false (from_id l) (to_list l))
    as [ths1 chat].
  cbn [fst] in G, Q. destruct G as [Gi Gc].
  destruct (chat =? 0) eqn:Z0; cbn [negb].
  - assert (NR : is_reply_to_known_message__ ths1 mime_parser = false).
    { rewrite (is_reply_to_known_message_msgs ths1 ths); [exact NoReply|].
      destruct Q as (_ & _ & (_ & _ & Ms) & _). exact Ms. }
    rewrite NR.
    destruct (mrmailbox_lookup_real_nchat_by_contact_id__ (m_sql ths1) (from_id l) =? 0)
      eqn:N0; cbn [fst snd chat_id set_chat_id is_group].
    + rewrite N0. split; [exact Gi|]. split; [exact Gc|]. right. left. reflexivity.
    + rewrite N0. split; [exact Gi|]. split; [exact Gc|]. right. right.
      split; [now apply Z.eqb_neq | reflexivity].
  - cbn [fst snd is_group set_is_group]. split; [exact Gi|]. split; [exact Gc|].
    now left.
Qed.

(** *** The ids the walks over the addresses collect *)

Lemma grown_refl ids : grown ids ids.
Proof.
  exists []. rewrite app_nil_r. split; [reflexivity|]. split; [constructor|].
  intros x H. destruct H.
Qed.

Lemma grown_trans a b c : grown a b -> grown b c -> grown a c.
Proof.
  intros (x & -> & Nx & Hx) (y & -> & Ny & Hy).
  exists (x ++ y)%list. split; [now rewrite app_assoc|]. split.
  - apply NoDup_app; [exact Nx | exact Ny|].
    intros v Hv Hv'. destruct (Hy v Hv') as [N _]. apply N.
    apply in_or_app. now right.
  - intros v Hv. apply in_app_or in Hv. destruct Hv as [Hv|Hv].
    + exact (Hx v Hv).
    + destruct (Hy v Hv) as [N Z0]. split; [|exact Z0].
      intros Hin. apply N. apply in_or_app. now left.
Qed.

Lemma contact_by_addr_ids ths name addr origin ids cs :
  grown ids (snd (fst (add_or_lookup_contact_by_addr__ ths name addr origin ids cs))).
Proof.
  unfold add_or_lookup_contact_by_addr__. cbv zeta.
  destruct (strcasecmp_eq _ _); [apply grown_refl|].
  destruct (mrmailbox_add_or_lookup_contact__ _ _ _ _) as [sql row_id].
  destruct (row_id =? 0) eqn:Z0; cbn [negb fst snd]; [apply grown_refl|].
  destruct (carray_search ids row_id) eqn:S; cbn [negb fst snd]; [apply grown_refl|].
  exists [row_id]. split; [reflexivity|]. split.
  - constructor; [intros H; destruct H | constructor].
  - intros x [<-|[]]. split; [|now apply Z.eqb_neq].
    intros Hin. unfold carray_search in S.
    assert (T : existsb (Z.eqb row_id) ids = true).
    { apply existsb_exists. exists row_id. split; [exact Hin | apply Z.eqb_refl]. }
    congruence.
Qed.

Lemma mailbox_list_ids mb_list : forall ths origin ids cs,
  grown ids (snd (fst (add_or_lookup_contacts_by_mailbox_list__
                         ths mb_list origin ids cs))).
Proof.
  induction mb_list as [|[mb|] cur IH]; intros ths origin ids cs;
    cbn [add_or_lookup_contacts_by_mailbox_list__ fst snd].
  - apply grown_refl.
  - pose proof (contact_by_addr_ids ths (mb_display_name mb) (mb_addr_spec mb)
                  origin ids cs) as G.
    destruct (add_or_lookup_contact_by_addr__ _ _ _ _ _ _) as [[ths1 ids1] cs1].
    cbn [fst snd] in G. eapply grown_trans; [exact G | apply IH].
  - apply IH.
Qed.

(** The walk over an address list only ever appends to the list of ids:
    the ids found before stay where they are, and every id it adds is not 0,
    was not in the list, and is added once, however often the header names
    the address. So a list without doubles and without 0 stays one. *)
Theorem address_list_ids_grow adr_list : forall ths origin ids cs,
  let ids' := snd (fst (add_or_lookup_contacts_by_address_list__
                          ths adr_list origin ids cs)) in
  grown ids ids' /\
  (NoDup ids -> ~ In 0 ids -> NoDup ids' /\ ~ In 0 ids').
Proof.
  assert (G : forall ths origin ids cs,
             grown ids (snd (fst (add_or_lookup_contacts_by_address_list__
                                    ths adr_list origin ids cs)))).
  { induction adr_list as [|adr cur IH]; intros ths origin ids cs;
      cbn [add_or_lookup_contacts_by_address_list__ fst snd].
    - apply grown_refl.
    - destruct adr as [[[mb|]|[[grp|]|]]|].
      + pose proof (contact_by_addr_ids ths (mb_display_name mb) (mb_addr_spec mb)
                      origin ids cs) as G.
        destruct (add_or_lookup_contact_by_addr__ _ _ _ _ _ _) as [[ths1 ids1] cs1].
        cbn [fst snd] in G. eapply grown_trans; [exact G | apply IH].
      + apply IH.
      + pose proof (mailbox_list_ids grp ths origin ids cs) as G.
        destruct (add_or_lookup_contacts_by_mailbox_list__ _ _ _ _ _)
          as [[ths1 ids1] cs1].
        cbn [fst snd] in G. eapply grown_trans; [exact G | apply IH].
      + apply IH.
      + apply IH.
      + apply IH. }
  intros ths origin ids cs ids'. split; [apply G|].
  intros Nd N0. destruct (G ths origin ids cs) as (added & E & Na & Ha).
  fold ids' in E. rewrite E. split.
  - apply NoDup_app; [exact Nd | exact Na|].
    intros v Hv Hv'. destruct (Ha v Hv') as [N _]. now apply N.
  - intros H0. apply in_app_or in H0. destruct H0 as [H0|H0]; [now apply N0|].
    destruct (Ha 0 H0) as [_ Z0]. now apply Z0.
Qed.

(** *** The stamp of a message *)

Lemma fold_max_ge (l : list Z) :
  0 <= fold_right Z.max 0 l /\ forall x, In x l -> x <= fold_right Z.max 0 l.
Proof.
  induction l as [|y l [IH0 IH]]; cbn [fold_right].
  - split; [lia|]. intros x H. destruct H.
  - split; [lia|]. intros x [<-|H]; [lia|]. specialize (IH x H). lia.
Qed.

Lemma select_max_timestamp_ge sql chat_id from_id desired m :
  In m (msgs sql) -> msg_chat_id m = chat_id -> msg_from_id m <> from_id ->
  desired <= msg_timestamp m ->
  msg_timestamp m <= select_max_timestamp sql chat_id from_id desired.
Proof.
  intros Hin Hc Hf Hd. unfold select_max_timestamp.
  apply (proj2 (fold_max_ge _)). apply in_map. apply filter_In. split; [exact Hin|].
  apply andb_true_iff. split; [apply andb_true_iff; split|].
  - now apply Z.eqb_eq.
  - apply negb_true_iff. now apply Z.eqb_neq.
  - now apply Z.leb_le.
Qed.

(** The stamp [correct_bad_timestamp__] settles on. Either it is a newly
    made smeared stamp of the current time, or the mailbox is left as it was
    and the stamp is at least the desired one and lies before the smeared
    current time; in that case a message that is not fresh keeps its stamp,
    and a fresh one with a positive stamp is placed after every message of
    another sender in the chat. *)
Theorem correct_bad_timestamp_places_message
  ths chat_id from_id desired_timestamp is_fresh_msg :
  let r := correct_bad_timestamp__ ths chat_id from_id desired_timestamp is_fresh_msg in
  r = mr_create_smeared_timestamp__ ths \/
  (fst r = ths /\
   desired_timestamp <= snd r /\
   snd r < mr_smeared_time__ ths /\
   (is_fresh_msg = false -> snd r = desired_timestamp) /\
   (is_fresh_msg = true -> 0 < desired_timestamp ->
    forall m, In m (msgs (m_sql ths)) ->
              msg_chat_id m = chat_id -> msg_from_id m <> from_id ->
              msg_timestamp m < snd r)).
Proof.
  cbv zeta. unfold correct_bad_timestamp__.
  set (last := select_max_timestamp (m_sql ths) chat_id from_id desired_timestamp).
  set (d := if is_fresh_msg
            then if ((0 <? last) && (desired_timestamp <=? last))%bool
                 then last + 1 else desired_timestamp
            else desired_timestamp).
  destruct (mr_smeared_time__ ths <=? d) eqn:Clip; [now left|].
  right. apply Z.leb_gt in Clip. cbn [fst snd].
  split; [reflexivity|].
  assert (D : desired_timestamp <= d).
  { subst d. destruct is_fresh_msg; [|lia].
    destruct ((0 <? last) && (desired_timestamp <=? last))%bool eqn:C; [|lia].
    apply andb_true_iff in C. destruct C as [_ C]. apply Z.leb_le in C. lia. }
  split; [exact D|]. split; [exact Clip|]. split.
  - intros ->. reflexivity.
  - intros -> Pos m Hin Hc Hf. subst d.
    destruct (Z_le_gt_dec desired_timestamp (msg_timestamp m)) as [Ge|Lt].
    + pose proof (select_max_timestamp_ge (m_sql ths) chat_id from_id
                    desired_timestamp m Hin Hc Hf Ge) as Le.
      fold last in Le.
      assert (C : ((0 <? last) && (desired_timestamp <=? last))%bool = true).
      { apply andb_true_iff. split; [apply Z.ltb_lt | apply Z.leb_le]; lia. }
      rewrite C. lia.
    + destruct ((0 <? last) && (desired_timestamp <=? last))%bool eqn:C; [|lia].
      apply andb_true_iff in C. destruct C as [_ C]. apply Z.leb_le in C. lia.
Qed.

(** *** All or nothing *)

(** For a mail with parts a call is all or nothing: if the call queues no
    row for an event, the rows after it are the rows before it, or the rows
    before it with the folder and the uid of the call noted at a Message-ID;
    what the header made the call write in between (contacts, chats, member
    lists) is rolled back. *)
Theorem receive_imf_all_or_nothing ths mime_parser server_folder server_uid flags :
  m_parts mime_parser <> [] ->
  created_db_entries
    (snd (receive_imf_body ths mime_parser server_folder server_uid flags)) = [] ->
  let t := receive_imf ths mime_parser server_folder server_uid flags in
  m_sql t = m_sql ths \/
  exists mid,
    m_sql t = mrmailbox_update_server_uid__ (m_sql ths) mid server_folder server_uid.
Proof.
  intros Hparts Hc. cbv zeta.
  destruct (receive_imf_shape ths mime_parser server_folder server_uid flags)
    as [(_ & E & _) | (M & close & _ & _ & _ & Sq)]; [left; now rewrite E|].
  rewrite Sq. clear Sq.
  pose proof (receive_imf_body_outcome ths mime_parser server_folder server_uid flags)
    as O.
  destruct (receive_imf_body ths mime_parser server_folder server_uid flags)
    as [ths' l].
  cbn [fst snd] in *.
  inversion O as
      [ Hh E1 E2
      | fields ths1 ths2 l0 Hh Hp Q S T L C E1 E2
      | fields ths1 l0 Hh Hm Q L P C R E1 E2
      | fields ths1 l0 mid Hh Hp Q Hm LT L P C R E1 E2
      | fields ths1 l0 mid ofo ou Hh Hp Q Hm LT D L C R E1 E2
      | fields ths1 ths2 l0 mid Hh Hp IO Q Hm LT S L P Ev R E1 E2
      | fields ths1 ths2 l0 mid rest Hh Hp Q Hm LT S T L C Ev E1 E2 ];
    subst; try contradiction.
  - left. reflexivity.
  - left. rewrite P. reflexivity.
  - left. rewrite P. reflexivity.
  - right. exists mid. cbn [transaction_pending set_transaction_pending set_sql m_sql
                            mrsqlite3_rollback__].
    destruct Q as (Sv & _). rewrite Sv. reflexivity.
  - left. rewrite P. reflexivity.
Qed.

(** *** A stored mail is a known message *)

Lemma imf_insert_parts_rows mime_parser server_folder server_uid parts :
  forall ths l,
    io_error (m_sql ths) = false ->
    exists ths' l' rows,
      imf_insert_parts ths mime_parser parts server_folder server_uid l
      = Next (ths', l') /\
      msgs (m_sql ths') = (msgs (m_sql ths) ++ rows)%list /\
      Forall (fun m => msg_rfc724_mid m = safe_strdup (rfc724_mid l) /\
                       msg_chat_id m = chat_id l /\ msg_from_id m = from_id l) rows /\
      (parts <> [] -> rows <> []).
Proof.
  induction parts as [|part more IH]; intros ths l IO; cbn [imf_insert_parts].
  - exists ths, l, []. rewrite app_nil_r. repeat split; [constructor|].
    intros H. now contradiction H.
  - destruct (insert_msg (m_sql ths) _) as [[sql rowid]|] eqn:I;
      [|apply insert_msg_none in I; congruence].
    destruct (insert_msg_some _ _ _ _ I) as (_ & Ms0 & _ & Io).
    cbv zeta.
    match goal with
    | |- context [imf_insert_parts ?t mime_parser more server_folder server_uid ?l0] =>
        destruct (IH t l0) as (ths' & l' & rows & E & Ms & Fa & _);
          [cbn [m_sql set_sql]; congruence|]
    end.
    rewrite E. eexists ths', l', (_ :: rows). split; [reflexivity|].
    split; [|split; [|discriminate]].
    + rewrite Ms. cbn [set_sql m_sql]. rewrite Ms0, <- app_assoc. reflexivity.
    + constructor.
      * cbn [msg_rfc724_mid msg_chat_id msg_from_id]. repeat split.
      * eapply Forall_impl; [|exact Fa]. intros m (A & B & C).
        destruct (first_dblocal_id l =? 0); cbn in A, B, C; repeat split; assumption.
Qed.

Lemma imf_insert_ghosts_msgs mime_parser ghost_txt recipients : forall ths l,
  match imf_insert_ghosts ths mime_parser recipients ghost_txt l with
  | Next (ths', _) | Goto_cleanup (ths', _) =>
      exists more, msgs (m_sql ths') = (msgs (m_sql ths) ++ more)%list
  end.
Proof.
  induction recipients as [|to more IH]; intros ths l; cbn [imf_insert_ghosts].
  - exists []. now rewrite app_nil_r.
  - cbv zeta.
    destruct (insert_msg (m_sql ths) _) as [[sql rowid]|] eqn:I;
      [|exists []; now rewrite app_nil_r].
    destruct (insert_msg_some _ _ _ _ I) as (_ & Ms0 & _).
    match goal with
    | |- context [imf_insert_ghosts ?t mime_parser more ghost_txt ?l0] =>
        specialize (IH t l0);
        destruct (imf_insert_ghosts t mime_parser more ghost_txt l0)
          as [[t' l']|[t' l']]
    end;
      destruct IH as (rows & E); rewrite E; cbn [set_sql m_sql];
      rewrite Ms0, <- app_assoc; eexists; reflexivity.
Qed.

Lemma is_known_more a b mid more :
  msgs (m_sql b) = (msgs (m_sql a) ++ more)%list ->
  is_known_rfc724_mid__ a mid = true -> is_known_rfc724_mid__ b mid = true.
Proof.
  unfold is_known_rfc724_mid__. intros E. destruct mid as [mid|]; [|trivial].
  rewrite E, existsb_app. intros ->. reflexivity.
Qed.

Lemma is_known_mdn sql from_id mid a b key :
  m_sql a = sql -> m_sql b = fst (mrmailbox_mdn_from_ext__ sql from_id mid) ->
  is_known_rfc724_mid__ b key = is_known_rfc724_mid__ a key.
Proof.
  intros Ea Eb. unfold is_known_rfc724_mid__. destruct key as [key|]; [|reflexivity].
  rewrite Ea, Eb. unfold mrmailbox_mdn_from_ext__.
  destruct (find _ (msgs sql)) as [t|]; [|reflexivity].
  cbn [fst msgs set_msgs]. induction (msgs sql) as [|m r IH]; [reflexivity|].
  cbn [map existsb]. rewrite IH. f_equal.
  destruct (msg_id m =? msg_id t); reflexivity.
Qed.

Lemma imf_reports_known ths mime_parser l key :
  is_known_rfc724_mid__ (fst (imf_reports ths mime_parser l)) key
  = is_known_rfc724_mid__ ths key.
Proof.
  unfold imf_reports. destruct (m_reports mime_parser) as [|r rs]; [reflexivity|].
  generalize (mrsqlite3_get_config_int__ (m_sql ths) "mdns_enabled"
                MR_MDNS_DEFAULT_ENABLED).
  intros mdns. generalize (r :: rs). intros reports. revert ths l.
  induction reports as [|x xs IH]; intros ths l; [reflexivity|].
  cbn [fold_left].
  assert (S : is_known_rfc724_mid__ (fst (imf_report mdns (ths, l) x)) key
              = is_known_rfc724_mid__ ths key).
  { unfold imf_report.
    destruct x as [[[pa_value|] mp_list]|]; try reflexivity.
    destruct (_ && _ && _)%bool; [|reflexivity].
    destruct (nth 1 mp_list None) as [report_data|]; [|reflexivity].
    destruct (_ && _)%bool; [|reflexivity].
    destruct (mdn_original_message_id report_data) as [mid|]; [|reflexivity].
    pose proof (is_known_mdn (m_sql ths) (from_id l) mid ths) as K.
    destruct (mrmailbox_mdn_from_ext__ (m_sql ths) (from_id l) mid) as [sql [[c i]|]];
      cbn [fst] in *; apply K; reflexivity. }
  destruct (imf_report mdns (ths, l) x) as [ths1 l1]. cbn [fst] in S.
  rewrite IH. exact S.
Qed.

Lemma imf_prepare_outgoing_from ths mime_parser fields flags l :
  incoming l = false ->
  from_id (snd (imf_prepare ths mime_parser fields flags l)) = MR_CONTACT_ID_SELF.
Proof.
  intros Out. unfold imf_prepare.
  destruct (imf_rest_ok fields ths l) as (_ & _ & _ & I & _).
  destruct (fold_left imf_rest_field fields (ths, l)) as [ths1 l1].
  cbn [snd] in I. rewrite Out in I.
  assert (F : from_id (snd (imf_choose_chat ths1 mime_parser flags l1))
              = MR_CONTACT_ID_SELF).
  { unfold imf_choose_chat. rewrite I. cbv zeta.
    cbn [to_list set_from_id set_state from_id].
    destruct (to_list l1) as [|first rest].
    - cbn [snd chat_id set_from_id set_state].
      destruct (chat_id l1 =? 0); reflexivity.
    - destruct (lookup_group_by_grpid__ _ _ _ _ _) as [ths2 cid].
      destruct (negb (cid =? 0)).
      + match goal with |- context [if ?c then _ else _] => destruct c end;
          reflexivity.
      + destruct (_ && _)%bool.
        * destruct (mrmailbox_create_or_lookup_nchat_by_contact_id__ _ _) as [sql id].
          match goal with |- context [if ?c then _ else _] => destruct c end;
            reflexivity.
        * match goal with |- context [if ?c then _ else _] => destruct c end;
            reflexivity. }
  destruct (imf_choose_chat ths1 mime_parser flags l1) as [ths2 l2].
  cbn [snd] in F.
  destruct (correct_bad_timestamp__ _ _ _ _ _) as [ths3 stamp]. exact F.
Qed.

(** A mail with a Message-ID and a part that is not stored yet, on rows that
    can be written, is a known message after the call if it is an outgoing
    one or if it went to a chat above the reserved ids: a later mail that
    names its Message-ID in In-Reply-To or References is then taken as a
    reply to a known message. *)
Theorem receive_imf_stored_mail_is_known
  ths mime_parser server_folder server_uid flags fields mid :
  m_header mime_parser = Some fields ->
  header_mid fields = Some mid ->
  m_parts mime_parser <> [] ->
  io_error (m_sql ths) = false ->
  mrmailbox_rfc724_mid_exists__ (m_sql ths) mid = None ->
  let l := snd (receive_imf_body ths mime_parser server_folder server_uid flags) in
  incoming l = false \/ MR_CHAT_ID_LAST_SPECIAL < chat_id l ->
  is_known_rfc724_mid__
    (receive_imf ths mime_parser server_folder server_uid flags) (Some mid) = true.
Proof.
  intros Hf Hmid HP IO New l Why.
  assert (B : transaction_pending l = false /\
              is_known_rfc724_mid__
                (fst (receive_imf_body ths mime_parser server_folder server_uid flags))
                (Some mid) = true).
  { subst l. revert Why. unfold receive_imf_body. rewrite Hf.
    destruct (imf_prologue_ok ths fields) as (QP & LP & PP & CP & EP & RP & MP).
    cbv zeta in QP.
    destruct (imf_prologue ths fields) as [thsP lP]. cbn [fst snd] in *.
    destruct (m_parts mime_parser) as [|part parts] eqn:Parts;
      [now contradiction HP|].
    unfold imf_add_parts.
    destruct (imf_prepare_ok thsP mime_parser fields flags lP)
      as (Q1 & _ & R1 & I1 & _).
    pose proof (imf_prepare_outgoing_from thsP mime_parser fields flags lP) as F1.
    destruct (imf_prepare thsP mime_parser fields flags lP) as [ths1 l1].
    cbn [fst snd] in *.
    assert (Q : quiet (mrsqlite3_begin_transaction__ (mrsqlite3_lock ths)) ths1)
      by (eapply quiet_trans; eassumption).
    rewrite MP in R1. fold (header_mid fields) in R1. rewrite Hmid in R1.
    unfold imf_message_id. rewrite R1.
    unfold imf_store, imf_dedup. cbv zeta. rewrite R1, Parts. cbn [safe_strdup].
    destruct Q as (_ & _ & (_ & IOq & Ms) & _).
    cbn [mrsqlite3_begin_transaction__ mrsqlite3_lock emit m_sql] in IOq, Ms.
    rewrite IO in IOq.
    assert (N1 : mrmailbox_rfc724_mid_exists__ (m_sql ths1) mid = None)
      by (rewrite <- New; unfold mrmailbox_rfc724_mid_exists__; now rewrite Ms).
    rewrite N1.
    destruct (imf_insert_parts_rows mime_parser server_folder server_uid
                (part :: parts) ths1 l1 IOq)
      as (ths3 & l3 & rows & E3 & M3 & Fa & Nr).
    destruct (imf_insert_parts_ok mime_parser server_folder server_uid
                (part :: parts) ths1 l1 IOq)
      as (ths3' & l3' & E3' & (_ & _ & IOs & _) & R3 & _).
    rewrite E3 in E3'. inversion E3'; subst ths3' l3'. rewrite E3.
    assert (IO3 : io_error (m_sql ths3) = false) by congruence.
    destruct (imf_ghosts_ok mime_parser ths3 l3 IO3)
      as (ths4 & l4 & E4 & _ & R4 & _).
    assert (M4 : exists more, msgs (m_sql ths4) = (msgs (m_sql ths3) ++ more)%list).
    { unfold imf_ghosts in E4. destruct (_ && _)%bool.
      - cbv zeta in E4.
        match type of E4 with
        | imf_insert_ghosts _ _ ?r ?g _ = _ =>
            pose proof (imf_insert_ghosts_msgs mime_parser g r ths3 l3) as G
        end.
        rewrite E4 in G. exact G.
      - inversion E4; subst. exists []. now rewrite app_nil_r. }
    rewrite E4.
    pose proof (imf_reports_known ths4 mime_parser (imf_event_to_send ths4 l4)
                  (Some mid)) as K6.
    destruct (imf_reports_ok ths4 mime_parser (imf_event_to_send ths4 l4))
      as (_ & _ & (R6 & _)).
    destruct (imf_reports ths4 mime_parser (imf_event_to_send ths4 l4))
      as [ths6 l6].
    cbn [fst snd incoming chat_id transaction_pending set_transaction_pending] in *.
    intros Why. split; [reflexivity|].
    assert (R5 : row_kept l4 (imf_event_to_send ths4 l4)).
    { unfold imf_event_to_send.
      destruct (incoming l4 && msg_state_eqb (state l4) MR_IN_FRESH)%bool;
        [|apply row_kept_refl].
      destruct (from_id_blocked l4); [repeat split|].
      destruct (chat_id l4 =? MR_CHAT_ID_DEADDROP); [|repeat split].
      destruct (negb _); repeat split. }
    assert (RK : row_kept l1 l6)
      by (eapply row_kept_trans; [exact R3|]; eapply row_kept_trans; [exact R4|];
          eapply row_kept_trans; eassumption).
    destruct RK as (Ik & _ & Ck & _).
    assert (W : ((MR_CHAT_ID_LAST_SPECIAL <? chat_id l1)
                 || (from_id l1 =? MR_CONTACT_ID_SELF))%bool = true).
    { apply orb_true_iff. destruct Why as [Out | Chat].
      - right. apply Z.eqb_eq. apply F1. congruence.
      - left. apply Z.ltb_lt. rewrite <- Ck. exact Chat. }
    unfold is_known_rfc724_mid__ at 1. cbn [mrsqlite3_commit__ emit m_sql].
    change (is_known_rfc724_mid__ ths6 (Some mid) = true).
    rewrite K6. destruct M4 as (more & M4).
    apply (is_known_more ths3 ths4 (Some mid) more M4).
    unfold is_known_rfc724_mid__. rewrite M3, existsb_app.
    destruct rows as [|row rows]; [now contradiction Nr|].
    inversion Fa as [|? ? (A1 & A2 & A3) _]; subst.
    rewrite R1 in A1. cbn [safe_strdup] in A1.
    cbn [existsb]. rewrite A1, A2, A3, W, String.eqb_refl.
    cbn [andb orb]. apply orb_true_r. }
  destruct B as [P K]. unfold receive_imf. subst l.
  destruct (receive_imf_body ths mime_parser server_folder server_uid flags)
    as [ths' l]. cbn [fst snd] in *.
  destruct (receive_imf_cleanup_ok ths' l) as [Sq _]. rewrite P in Sq.
  unfold is_known_rfc724_mid__ in *. rewrite Sq. exact K.
Qed.

(** A call of [receive_imf] that does not commit leaves the rows as they
    were before it, or as they were with the folder and uid of the call
    noted at one Message-ID: what the call wrote before it gave up is rolled
    back, the rows of the parts stored before a failing INSERT step too.
    Such a call delivers no [MSG_READ]. Its per-row events are
    [MSGS_CHANGED] events for the entries queued before the rollback, and
    there are such entries only where an INSERT step of the store fails:
    the callback is then told of rows that the rollback has taken away. *)
Theorem receive_imf_rollback_restores
  ths mime_parser server_folder server_uid flags :
  let l := snd (receive_imf_body ths mime_parser server_folder server_uid flags) in
  let t := receive_imf ths mime_parser server_folder server_uid flags in
  ~ In Commit (new_trace ths t) ->
  (m_sql t = m_sql ths \/
   exists mid,
     m_sql t = mrmailbox_update_server_uid__ (m_sql ths) mid server_folder server_uid) /\
  filter is_msg_read (new_trace ths t) = [] /\
  filter is_row_event (new_trace ths t)
  = map (fun d => Cb MR_EVENT_MSGS_CHANGED (fst d) (snd d))
        (pairs (created_db_entries l)) /\
  (created_db_entries l <> [] -> io_error (m_sql ths) = true).
Proof.
  intros l t Hc. subst l t.
  rewrite receive_imf_rows.
  destruct (receive_imf_trace ths mime_parser server_folder server_uid flags)
    as [(_ & E & El) | (M & close & T & FM & Cl & _)].
  - rewrite E, El. unfold new_trace. rewrite skipn_all.
    split; [now left|]. split; [reflexivity|]. split; [reflexivity|].
    intros N. now contradiction N.
  - destruct Cl as [(-> & _) | (-> & Sq & R & Cr)].
    + exfalso. apply Hc. rewrite T. apply in_or_app. right.
      apply in_or_app. right. left. reflexivity.
    + split; [exact Sq|]. split; [|split].
      * rewrite T. rewrite !filter_app.
        rewrite (chat_modified_no_read M FM).
        unfold read_callbacks. rewrite R. cbn [pairs map filter is_msg_read app].
        rewrite app_nil_r. unfold row_callbacks.
        destruct Cr as [C | (_ & Ev)]; [rewrite C | rewrite Ev].
        -- destruct (create_event_to_send _); reflexivity.
        -- induction (pairs (created_db_entries _)) as [|d r IH];
             [reflexivity | exact IH].
      * unfold row_callbacks.
        destruct Cr as [C | (_ & Ev)]; [rewrite C | rewrite Ev].
        -- destruct (create_event_to_send _); reflexivity.
        -- apply row_callbacks_filter. now right.
      * intros N. destruct Cr as [C | (IO & _)]; [now contradiction N | exact IO].
Qed.

End WithExternals.

End ReceiveFacts.

(** ** Resetting the tables *)

Module ResetFacts.
Import C Mr Invariants.
Open Scope Z_scope.

Section WithExternals.
Context {X : Externals}.
Variable MR_MSG_ID_LAST_SPECIAL : Z.

Lemma filter_twice {A : Type} (q : A -> bool) (l : list A) :
  filter q (filter q l) = filter q l.
Proof.
  induction l as [|x l IH]; [reflexivity|].
  cbn [filter]. destruct (q x) eqn:Q; [|exact IH].
  cbn [filter]. now rewrite Q, IH.
Qed.

(** Every reset announces itself with one [MSGS_CHANGED(0,0)], sent after
    the lock is released, and returns 1; the rows are touched by bit 8 only;
    and a second reset with the same bits changes nothing any more. *)
Theorem reset_tables_settles ths other bits :
  let r := mrmailbox_reset_tables MR_MSG_ID_LAST_SPECIAL ths other bits in
  let r2 := mrmailbox_reset_tables MR_MSG_ID_LAST_SPECIAL
              (fst (fst r)) (snd (fst r)) bits in
  snd r = 1 /\
  new_trace ths (fst (fst r)) = [Lock; Unlock; Cb MR_EVENT_MSGS_CHANGED 0 0] /\
  (Z.land bits 8 = 0 -> m_sql (fst (fst r)) = m_sql ths) /\
  m_sql (fst (fst r2)) = m_sql (fst (fst r)) /\
  snd (fst r2) = snd (fst r).
Proof.
  cbv zeta. unfold mrmailbox_reset_tables. cbv zeta.
  cbn [fst snd]. split; [reflexivity|]. split; [|split; [|split]].
  - apply ReceiveFacts.new_trace_app.
    destruct (negb (Z.land bits 8 =? 0));
      cbn [m_cb emit mrsqlite3_unlock mrsqlite3_lock set_sql m_trace];
      rewrite <- !app_assoc; reflexivity.
  - intros B8. rewrite B8. reflexivity.
  - destruct (negb (Z.land bits 8 =? 0));
      cbn [m_cb emit mrsqlite3_unlock mrsqlite3_lock set_sql m_sql]; [|reflexivity].
    unfold reset_rows.
    cbn [config contacts chats chats_contacts msgs leftgrps io_script].
    rewrite !filter_twice. reflexivity.
  - destruct (negb (Z.land bits 1 =? 0)), (negb (Z.land bits 2 =? 0)); reflexivity.
Qed.

End WithExternals.

End ResetFacts.


(** ** [receive_imf] on the sample mails *)

Module ReceiveRuns.
Import C Mr Invariants Samples.
Open Scope Z_scope.
#[local] Existing Instance sample_externals.

(** C6, the failing input. A mail with a [Return-Path] whose [From:] names
    the own address first and Bob second stays incoming, with Bob as the
    sender: the flag of the own address is cleared again by the second
    mailbox. With the own address alone, or last, the mail becomes
    outgoing. *)
Lemma receive_imf_self_first_in_from_stays_incoming :
  let l := snd (receive_imf_body sample_mailbox two_from_mail "INBOX" 7 0) in
  let l' := snd (receive_imf_body sample_mailbox self_last_mail "INBOX" 7 0) in
  (has_return_path l = true /\ incoming l = true /\ from_id l = 11) /\
  (has_return_path l' = true /\ incoming l' = false /\ from_id l' = MR_CONTACT_ID_SELF).
Proof. vm_compute. repeat split. Qed.

(** C9, the failing input. The mail that creates the group of the spec's
    scenario: [CHAT_MODIFIED] reaches the callback between the begin and the
    commit of the transaction, with the lock held; [INCOMING_MSG] comes after
    both. *)
Lemma receive_imf_chat_modified_inside_transaction :
  let tr := m_trace (receive_imf sample_mailbox group_mail "INBOX" 7 0) in
  tr = [Lock; Begin; Cb MR_EVENT_CHAT_MODIFIED 10 0; Commit; Unlock;
        Cb MR_EVENT_INCOMING_MSG 10 10] /\
  callbacks_in_transaction false tr = [Cb MR_EVENT_CHAT_MODIFIED 10 0] /\
  callbacks_under_lock false tr = [Cb MR_EVENT_CHAT_MODIFIED 10 0].
Proof. vm_compute. repeat split. Qed.




(** The direction at the mail whose [From:] names the user first and Bob
    last: it has a [Return-Path] and stays incoming. *)
Lemma imf_prologue_direction_witness :
  let l := snd (imf_prologue sample_mailbox (fld_list two_from_mail)) in
  has_return_path l = true /\ incoming l = true.
Proof.
  apply (ReceiveFacts.imf_prologue_direction sample_mailbox (fld_list two_from_mail)
           [mb "me@example.org"] (mkMb None "bob@example.org")).
  reflexivity.
Defined.

(** The mail of the group, stored under [INBOX] and met again under
    [Trash]: only the place is noted. *)
Lemma receive_imf_moved_witness :
  lookup_triple "m1@example.org"
    (triples (m_sql (receive_imf mailbox_with_group group_mail "Trash" 9 0)))
  = Some ("Trash", 9).
Proof.
  refine (proj1 (proj2 (ReceiveFacts.receive_imf_moved
                          mailbox_with_group group_mail "Trash" 9 0
                          (fld_list group_mail) "m1@example.org" "INBOX" 7
                          _ _ _ _ _))).
  - reflexivity.
  - vm_compute. reflexivity.
  - vm_compute. discriminate.
  - vm_compute. reflexivity.
  - vm_compute. reflexivity.
Defined.

(** A read receipt that arrives while read receipts are switched off. *)
Lemma receive_imf_no_msg_read_when_mdns_off_witness :
  filter is_msg_read
    (new_trace mailbox_without_mdns
       (receive_imf mailbox_without_mdns mdn_mail "INBOX" 8 0)) = [].
Proof.
  apply (ReceiveFacts.receive_imf_no_msg_read_when_mdns_off
           mailbox_without_mdns mdn_mail "INBOX" 8 0).
  vm_compute. reflexivity.
Defined.


(** The mail of a stranger: no chat is made, the mail goes to the deaddrop. *)
Lemma imf_choose_chat_unknown_sender_witness :
  map ch_id (chats (m_sql (fst (imf_choose_chat sample_mailbox stranger_mail 0
                                  (set_incoming locals_init true)))))
  = map ch_id (chats (m_sql sample_mailbox)).
Proof.
  refine (proj1 (ReceiveFacts.imf_choose_chat_unknown_sender
                   sample_mailbox stranger_mail 0 (set_incoming locals_init true)
                   _ _ _)).
  - reflexivity.
  - reflexivity.
  - vm_compute. reflexivity.
Defined.

(** The mail of two parts on a store whose second INSERT step fails: the
    call rolls back, the rows are as before, and the callback is told of the
    row of the first part. *)
Lemma receive_imf_rollback_restores_witness :
  let t0 := with_io_script sample_mailbox [false; true] in
  let l := snd (receive_imf_body t0 two_part_mail "INBOX" 7 0) in
  let t := receive_imf t0 two_part_mail "INBOX" 7 0 in
  (m_sql t = m_sql t0 \/
   exists mid, m_sql t = mrmailbox_update_server_uid__ (m_sql t0) mid "INBOX" 7) /\
  filter is_msg_read (new_trace t0 t) = [] /\
  filter is_row_event (new_trace t0 t)
  = map (fun d => Cb MR_EVENT_MSGS_CHANGED (fst d) (snd d))
        (pairs (created_db_entries l)) /\
  (created_db_entries l <> [] -> io_error (m_sql t0) = true).
Proof.
  apply (ReceiveFacts.receive_imf_rollback_restores
           (with_io_script sample_mailbox [false; true]) two_part_mail "INBOX" 7 0).
  vm_compute. intros H.
  repeat (destruct H as [H|H]; [discriminate H|]). exact H.
Defined.

(** The run of that call: one [MSGS_CHANGED] for the row 10 of the chat 1,
    and no row 10 among the messages afterwards. *)
Example receive_imf_event_for_a_row_rolled_back :
  let t0 := with_io_script sample_mailbox [false; true] in
  let t := receive_imf t0 two_part_mail "INBOX" 7 0 in
  new_trace t0 t = [Lock; Begin; Rollback; Unlock; Cb MR_EVENT_MSGS_CHANGED 1 10] /\
  existsb (fun m => msg_id m =? 10) (msgs (m_sql t)) = false.
Proof. cbv zeta. split; vm_compute; reflexivity. Qed.

(** The mail of the group met a second time under the same folder and uid:
    nothing is queued and the rows stay as they were. *)
Lemma receive_imf_all_or_nothing_witness :
  m_sql (receive_imf mailbox_with_group group_mail "INBOX" 7 0)
  = m_sql mailbox_with_group \/
  exists mid,
    m_sql (receive_imf mailbox_with_group group_mail "INBOX" 7 0)
    = mrmailbox_update_server_uid__ (m_sql mailbox_with_group) mid "INBOX" 7.
Proof.
  apply (ReceiveFacts.receive_imf_all_or_nothing mailbox_with_group group_mail
           "INBOX" 7 0).
  - vm_compute. discriminate.
  - vm_compute. reflexivity.
Defined.

(** The mail that adds Bob to its group is a known message once it is
    stored: it went to the chat of the group. *)
Lemma receive_imf_stored_mail_is_known_witness :
  is_known_rfc724_mid__ (receive_imf sample_mailbox group_add_mail "INBOX" 7 0)
    (Some "m2@example.org") = true.
Proof.
  apply (ReceiveFacts.receive_imf_stored_mail_is_known sample_mailbox group_add_mail
           "INBOX" 7 0 (fld_list group_add_mail) "m2@example.org").
  - reflexivity.
  - vm_compute. reflexivity.
  - vm_compute. discriminate.
  - reflexivity.
  - vm_compute. reflexivity.
  - right. vm_compute. reflexivity.
Defined.

End ReceiveRuns.
